(** * graph-builder: schema compiler and configuration path resolver

    A shallow embedding of the two transformations of [src/app.py]:

    - [json_to_groovy], which turns a schema description into the text of a
      HugeGraph Groovy schema script, and
    - [update_file_paths_in_config], which redirects the file inputs of a
      loader configuration to the uploaded copies,

    and of the endpoints [load_data] and [convert_schema] that call them.

    Python values that come out of [json.loads] are modelled by the type
    [json]; Python dictionaries keep their insertion order and are therefore
    association lists.  Strings are sequences of bytes: the case mapping of
    [str.capitalize] and the escapes of [repr] are modelled on the ASCII
    range, bytes above it are left as they are. *)

From stdpp Require Import base option list strings gmap pretty.
From Stdlib Require Import ZArith Ascii String Lia.

Open Scope string_scope.

Set Warnings "-register-all".

(** ** Python strings *)

Module Py.

(** The double quote and the line feed, as one-character strings. *)
Definition dq : string := String "034"%char EmptyString.
Definition nl : string := String "010"%char EmptyString.

(** A string is a sequence of one-byte characters. The text operations that
    depend on what a character is ([str.capitalize], [repr]) are modelled on
    the ASCII characters, the codes below 128, where Python has one character
    per byte and the letters are [a] to [z] and [A] to [Z]; what is stated
    of them is stated of strings of ASCII characters. Comparing, joining and
    searching strings does not depend on it. *)
Definition is_ascii (c : ascii) : bool := (nat_of_ascii c <? 128)%nat.

Fixpoint ascii_only (s : string) : bool :=
  match s with
  | EmptyString => true
  | String c s' => is_ascii c && ascii_only s'
  end.

Definition is_lower (c : ascii) : bool := (("a" <=? c) && (c <=? "z"))%char.
Definition is_upper (c : ascii) : bool := (("A" <=? c) && (c <=? "Z"))%char.

Definition upper (c : ascii) : ascii :=
  if is_lower c then ascii_of_nat (nat_of_ascii c - 32) else c.
Definition lower (c : ascii) : ascii :=
  if is_upper c then ascii_of_nat (nat_of_ascii c + 32) else c.

Fixpoint lower_all (s : string) : string :=
  match s with
  | EmptyString => EmptyString
  | String c s' => String (lower c) (lower_all s')
  end.

(** [str.capitalize()] of a string of ASCII characters: the first character
    upper-cased, the rest lower-cased. Beyond ASCII Python changes the case
    of code points, which may change their number; the codes from 128 on are
    left as they are here. *)
Definition capitalize (s : string) : string :=
  match s with
  | EmptyString => EmptyString
  | String c s' => String (upper c) (lower_all s')
  end.

(** [sep.join(parts)]. *)
Definition join (sep : string) (parts : list string) : string :=
  String.concat sep parts.

Fixpoint mem_char (c : ascii) (s : string) : bool :=
  match s with
  | EmptyString => false
  | String c' s' => (c =? c')%char || mem_char c s'
  end.

(** [needle in hay] on two strings: substring test. *)
Fixpoint is_substring (needle hay : string) : bool :=
  String.prefix needle hay ||
  match hay with
  | EmptyString => false
  | String _ hay' => is_substring needle hay'
  end.

(** [os.path.basename] (posixpath): what follows the last slash. *)
Fixpoint basename (p : string) : string :=
  match p with
  | EmptyString => EmptyString
  | String c p' =>
      if mem_char "/" p' then basename p'
      else if (c =? "/")%char then p' else p
  end.

Definition hex_digit (n : nat) : ascii :=
  if (n <? 10)%nat then ascii_of_nat (48 + n) else ascii_of_nat (87 + n).

(** One character in the [repr] of a string of ASCII characters: the quote
    and the backslash are escaped, and so are the control characters. Beyond
    ASCII Python also escapes the code points that do not print; the codes
    from 128 on are left as they are here. *)
Definition repr_char (quote c : ascii) : string :=
  if ((c =? quote) || (c =? "\"))%char then String "\" (String c EmptyString)
  else if (c =? "009")%char then "\t"
  else if (c =? "010")%char then "\n"
  else if (c =? "013")%char then "\r"
  else if ((c <? " ") || (c =? "127"))%char then
    String "\" (String "x" (String (hex_digit (nat_of_ascii c / 16))
                             (String (hex_digit (nat_of_ascii c mod 16)) EmptyString)))
  else String c EmptyString.

Fixpoint repr_body (quote : ascii) (s : string) : string :=
  match s with
  | EmptyString => EmptyString
  | String c s' => repr_char quote c +:+ repr_body quote s'
  end.

(** [repr] of a string: single quotes, unless the string holds a single
    quote and no double quote. *)
Definition repr_str (s : string) : string :=
  let quote : ascii :=
    if mem_char "'" s && negb (mem_char "034" s) then "034"%char else "'"%char in
  String quote (repr_body quote s) +:+ String quote EmptyString.

(** The exceptions the modelled code can raise. A pydantic validation error
    carries the list of its error entries, each a location and a kind. *)
Inductive loc_item := Field (f : string) | Index (i : nat).
Inductive error_type := Missing | StringType | ListType | DictType | ModelType.
Definition error_detail : Type := list loc_item * error_type.

Inductive exception :=
| ValidationError (errors : list error_detail)
| TypeError
| KeyError
| AttributeError
| ValueError.

Inductive result (A : Type) :=
| Ok (a : A)
| Raise (e : exception).
Arguments Ok {A} a.
Arguments Raise {A} e.

#[global] Instance result_ret : MRet result := @Ok.
#[global] Instance result_bind : MBind result := λ A B f r,
  match r with Ok a => f a | Raise e => Raise e end.
#[global] Instance result_fmap : FMap result := λ A B f r,
  match r with Ok a => Ok (f a) | Raise e => Raise e end.

Definition is_ok {A} (r : result A) : bool :=
  match r with Ok _ => true | Raise _ => false end.

End Py.
Import Py.

(** ** JSON values, as [json.loads] builds them *)

(** A float is identified with the text [repr] gives it, which is the only
    observation the code makes of a float. *)
Inductive json :=
| JNull
| JBool (b : bool)
| JInt (z : Z)
| JFloat (r : string)
| JStr (s : string)
| JArr (items : list json)
| JObj (fields : list (string * json)).

Definition dict : Type := list (string * json).

(** [d.get(key)] / [key in d] / [d[key]] on a dictionary. *)
Fixpoint dict_get {V} (key : string) (d : list (string * V)) : option V :=
  match d with
  | [] => None
  | (k, v) :: d' => if String.eqb k key then Some v else dict_get key d'
  end.

(** [d[key] = v]: an existing key keeps its position, a new one goes last. *)
Fixpoint dict_set {V} (key : string) (v : V) (d : list (string * V)) : list (string * V) :=
  match d with
  | [] => [(key, v)]
  | (k, v') :: d' =>
      if String.eqb k key then (k, v) :: d' else (k, v') :: dict_set key v d'
  end.

(** [repr(v)] and [str(v)] of a JSON value. *)
Fixpoint py_repr (v : json) : string :=
  match v with
  | JNull => "None"
  | JBool true => "True"
  | JBool false => "False"
  | JInt z => pretty z
  | JFloat r => r
  | JStr s => repr_str s
  | JArr items => "[" +:+ join ", " (map py_repr items) +:+ "]"
  | JObj fields =>
      "{" +:+ join ", " (map (λ kv, repr_str (fst kv) +:+ ": " +:+ py_repr (snd kv)) fields)
          +:+ "}"
  end.

Definition py_str (v : json) : string :=
  match v with
  | JStr s => s
  | _ => py_repr v
  end.

(** ** Schema models *)

Module PropertyKey.
Record t := {
  name : string;
  type : string;
  cardinality : option string;
  options : option dict
}.
End PropertyKey.

Module VertexLabel.
Record t := {
  name : string;
  properties : list string;
  primary_keys : option (list string);
  nullable_keys : option (list string);
  id_strategy : option string;
  options : option dict
}.
End VertexLabel.

Module EdgeLabel.
Record t := {
  name : string;
  source_label : string;
  target_label : string;
  properties : option (list string);
  sort_keys : option (list string);
  options : option dict
}.
End EdgeLabel.

Module SchemaDefinition.
Record t := {
  property_keys : list PropertyKey.t;
  vertex_labels : list VertexLabel.t;
  edge_labels : list EdgeLabel.t
}.
End SchemaDefinition.

(** ** Truth values of optional fields ([if x:]) *)

Definition truthy_str (o : option string) : option string :=
  match o with
  | Some (String c s) => Some (String c s)
  | _ => None
  end.

Definition truthy_list {A} (o : option (list A)) : option (list A) :=
  match o with
  | Some (x :: l) => Some (x :: l)
  | _ => None
  end.

(** ** [json_to_groovy] *)

Definition quoted (s : string) : string := dq +:+ s +:+ dq.

(** [', '.join([f'"{x}"' for x in xs])] *)
Definition quoted_list (xs : list string) : string := join ", " (map quoted xs).

Definition option_clause (opt_name : string) (opt_value : json) : string :=
  match opt_value with
  | JStr s => "." +:+ opt_name +:+ "(" +:+ quoted s +:+ ")"
  | _ => "." +:+ opt_name +:+ "(" +:+ py_str opt_value +:+ ")"
  end.

(** The loop over [options.items()], guarded by [if options:]. *)
Definition add_options (line : string) (options : option dict) : string :=
  match truthy_list options with
  | Some items => foldl (λ line kv, line +:+ option_clause (fst kv) (snd kv)) line items
  | None => line
  end.

Definition create_if_absent : string := ".ifNotExist().create();".

Definition property_key_line (prop : PropertyKey.t) : string :=
  let line := "schema.propertyKey(" +:+ quoted (PropertyKey.name prop) +:+ ").as"
              +:+ capitalize (PropertyKey.type prop) +:+ "()" in
  let line := match truthy_str (PropertyKey.cardinality prop) with
              | Some c => line +:+ ".cardinality(" +:+ quoted c +:+ ")"
              | None => line
              end in
  let line := add_options line (PropertyKey.options prop) in
  line +:+ create_if_absent.

Definition id_strategy_clause (line : string) (id_strategy : option string) : string :=
  match truthy_str id_strategy with
  | Some s =>
      if String.eqb s "primary_key" then line +:+ ".useCustomizeStringId()"
      else if String.eqb s "customize_number" then line +:+ ".useCustomizeNumberId()"
      else if String.eqb s "customize_string" then line +:+ ".useCustomizeStringId()"
      else if String.eqb s "automatic" then line +:+ ".useAutomaticId()"
      else line
  | None => line
  end.

Definition list_clause (line clause : string) (xs : option (list string)) : string :=
  match truthy_list xs with
  | Some xs => line +:+ clause +:+ "(" +:+ quoted_list xs +:+ ")"
  | None => line
  end.

Definition vertex_label_line (vertex : VertexLabel.t) : string :=
  let line := "schema.vertexLabel(" +:+ quoted (VertexLabel.name vertex) +:+ ")" in
  let line := id_strategy_clause line (VertexLabel.id_strategy vertex) in
  let line := list_clause line ".properties" (Some (VertexLabel.properties vertex)) in
  let line := list_clause line ".primaryKeys" (VertexLabel.primary_keys vertex) in
  let line := list_clause line ".nullableKeys" (VertexLabel.nullable_keys vertex) in
  let line := add_options line (VertexLabel.options vertex) in
  line +:+ create_if_absent.

Definition edge_label_line (edge : EdgeLabel.t) : string :=
  let line := "schema.edgeLabel(" +:+ quoted (EdgeLabel.name edge) +:+ ")" in
  let line := line +:+ ".sourceLabel(" +:+ quoted (EdgeLabel.source_label edge) +:+ ")" in
  let line := line +:+ ".targetLabel(" +:+ quoted (EdgeLabel.target_label edge) +:+ ")" in
  let line := list_clause line ".properties" (EdgeLabel.properties edge) in
  let line := list_clause line ".sortKeys" (EdgeLabel.sort_keys edge) in
  let line := add_options line (EdgeLabel.options edge) in
  line +:+ create_if_absent.

(** [for x in xs: groovy_lines.append(f x)] *)
Definition append_each {A} (f : A → string) (groovy_lines : list string) (xs : list A)
  : list string :=
  foldl (λ acc x, (acc ++ [f x])%list) groovy_lines xs.

Definition groovy_lines (schema : SchemaDefinition.t) : list string :=
  let groovy_lines := [] in
  let groovy_lines :=
    append_each property_key_line groovy_lines (SchemaDefinition.property_keys schema) in
  let groovy_lines := (groovy_lines ++ [""])%list in
  let groovy_lines :=
    append_each vertex_label_line groovy_lines (SchemaDefinition.vertex_labels schema) in
  let groovy_lines := (groovy_lines ++ [""])%list in
  let groovy_lines :=
    append_each edge_label_line groovy_lines (SchemaDefinition.edge_labels schema) in
  groovy_lines.

(** ** Validation of a dictionary against the models

    Building a [SchemaDefinition] from the keyword-unpacked dictionary hands
    it to pydantic, which
    checks it against the field declarations of the four model classes and
    collects one entry per missing mandatory field or ill-typed value, in the
    order of the declarations.  A field declared [str] takes a string only;
    keys that no model declares are ignored. *)

Module Pydantic.

Inductive validation (A : Type) :=
| Valid (a : A)
| Invalid (errors : list error_detail).
Arguments Valid {A} a.
Arguments Invalid {A} errors.

Definition validator (A : Type) : Type := list loc_item → json → validation A.

(** Both operands are validated; their errors are concatenated. *)
Definition ap {A B} (vf : validation (A → B)) (va : validation A) : validation B :=
  match vf, va with
  | Valid f, Valid a => Valid (f a)
  | Valid _, Invalid e => Invalid e
  | Invalid e, Valid _ => Invalid e
  | Invalid e1, Invalid e2 => Invalid (e1 ++ e2)%list
  end.
Infix "<*>" := ap (at level 61, left associativity).

Definition str_type : validator string := λ loc v,
  match v with
  | JStr s => Valid s
  | _ => Invalid [(loc, StringType)]
  end.

Definition dict_type : validator dict := λ loc v,
  match v with
  | JObj d => Valid d
  | _ => Invalid [(loc, DictType)]
  end.

Fixpoint list_items {A} (item : validator A) (loc : list loc_item) (i : nat)
    (vs : list json) : validation (list A) :=
  match vs with
  | [] => Valid []
  | v :: vs' => Valid cons <*> item (loc ++ [Index i])%list v <*> list_items item loc (S i) vs'
  end.

Definition list_type {A} (item : validator A) : validator (list A) := λ loc v,
  match v with
  | JArr vs => list_items item loc 0 vs
  | _ => Invalid [(loc, ListType)]
  end.

Definition model_type {A} (fields : list loc_item → dict → validation A) : validator A :=
  λ loc v,
  match v with
  | JObj d => fields loc d
  | _ => Invalid [(loc, ModelType)]
  end.

(** A field without default. *)
Definition required {A} (check : validator A) (loc : list loc_item) (d : dict)
    (field : string) : validation A :=
  match dict_get field d with
  | Some v => check (loc ++ [Field field])%list v
  | None => Invalid [((loc ++ [Field field])%list, Missing)]
  end.

(** A field declared [Optional[...] = None]. *)
Definition optional {A} (check : validator A) (loc : list loc_item) (d : dict)
    (field : string) : validation (option A) :=
  match dict_get field d with
  | None | Some JNull => Valid None
  | Some v => Valid Some <*> check (loc ++ [Field field])%list v
  end.

Definition PropertyKey_fields (loc : list loc_item) (d : dict) : validation PropertyKey.t :=
  Valid PropertyKey.Build_t
    <*> required str_type loc d "name"
    <*> required str_type loc d "type"
    <*> optional str_type loc d "cardinality"
    <*> optional dict_type loc d "options".

Definition VertexLabel_fields (loc : list loc_item) (d : dict) : validation VertexLabel.t :=
  Valid VertexLabel.Build_t
    <*> required str_type loc d "name"
    <*> required (list_type str_type) loc d "properties"
    <*> optional (list_type str_type) loc d "primary_keys"
    <*> optional (list_type str_type) loc d "nullable_keys"
    <*> optional str_type loc d "id_strategy"
    <*> optional dict_type loc d "options".

Definition EdgeLabel_fields (loc : list loc_item) (d : dict) : validation EdgeLabel.t :=
  Valid EdgeLabel.Build_t
    <*> required str_type loc d "name"
    <*> required str_type loc d "source_label"
    <*> required str_type loc d "target_label"
    <*> optional (list_type str_type) loc d "properties"
    <*> optional (list_type str_type) loc d "sort_keys"
    <*> optional dict_type loc d "options".

Definition SchemaDefinition_fields (loc : list loc_item) (d : dict)
  : validation SchemaDefinition.t :=
  Valid SchemaDefinition.Build_t
    <*> required (list_type (model_type PropertyKey_fields)) loc d "property_keys"
    <*> required (list_type (model_type VertexLabel_fields)) loc d "vertex_labels"
    <*> required (list_type (model_type EdgeLabel_fields)) loc d "edge_labels".

(** The constructor call of the model class on the unpacked dictionary. *)
Definition SchemaDefinition (d : dict) : result SchemaDefinition.t :=
  match SchemaDefinition_fields [] d with
  | Valid schema => Ok schema
  | Invalid errors => Raise (ValidationError errors)
  end.

End Pydantic.

(** [json_to_groovy] takes a dictionary or an already built model. *)
Definition json_to_groovy (schema_json : dict + SchemaDefinition.t) : result string :=
  schema ← match schema_json with
           | inl d => Pydantic.SchemaDefinition d
           | inr schema => Ok schema
           end;
  Ok (join nl (groovy_lines schema)).

(** ** [update_file_paths_in_config], on values

    [json.loads(json.dumps(config))] gives a tree equal to [config] that
    shares no object with it or within itself, so that the assignments the
    code then makes in place are updates of that tree.  The module [Store]
    further down models the same function on a store of objects. *)

(** [key in container] *)
Definition py_contains (key : string) (container : json) : result bool :=
  match container with
  | JObj d => Ok (bool_decide (is_Some (dict_get key d)))
  | JArr items =>
      Ok (existsb (λ x, match x with JStr s => String.eqb s key | _ => false end) items)
  | JStr s => Ok (is_substring key s)
  | _ => Raise TypeError
  end.

(** [container[key]], with a string for [key] *)
Definition py_getitem (container : json) (key : string) : result json :=
  match container with
  | JObj d => match dict_get key d with Some v => Ok v | None => Raise KeyError end
  | _ => Raise TypeError
  end.

(** [container[key] = v] *)
Definition py_setitem (container : json) (key : string) (v : json) : result json :=
  match container with
  | JObj d => Ok (JObj (dict_set key v d))
  | _ => Raise TypeError
  end.

(** [container.get(key)] *)
Definition py_get (container : json) (key : string) : result json :=
  match container with
  | JObj d => Ok (default JNull (dict_get key d))
  | _ => Raise AttributeError
  end.

(** What [for item in items] yields. *)
Definition py_iter (items : json) : result (list json) :=
  match items with
  | JArr l => Ok l
  | JObj d => Ok (map (λ kv, JStr (fst kv)) d)
  | JStr s => Ok (map (λ c, JStr (String c EmptyString)) (list_ascii_of_string s))
  | _ => Raise TypeError
  end.

Definition os_path_basename (p : json) : result string :=
  match p with
  | JStr s => Ok (basename s)
  | _ => Raise TypeError
  end.

(** [v == "file"] *)
Definition is_file (v : json) : bool :=
  match v with
  | JStr s => String.eqb s "file"
  | _ => false
  end.

(** The body of the loop of [update_paths]; the result is the item after the
    iteration. *)
Definition update_item (file_mapping : gmap string string) (item : json) : result json :=
  has_input ← py_contains "input" item;
  if (has_input : bool) then
    input ← py_getitem item "input";
    type ← py_get input "type";
    if is_file type then
      original_path ← py_getitem input "path";
      filename ← os_path_basename original_path;
      match file_mapping !! filename with
      | Some location =>
          input ← py_setitem input "path" (JStr location);
          py_setitem item "input" input
      | None => Ok item
      end
    else Ok item
  else Ok item.

(** Dictionary keys and characters are strings: the loop cannot change them,
    only a list has its items updated. *)
Definition update_paths (file_mapping : gmap string string) (items : json) : result json :=
  elems ← py_iter items;
  elems ← mapM (update_item file_mapping) elems;
  Ok (match items with JArr _ => JArr elems | _ => items end).

Definition deep_copy (config : json) : json := config.

Definition update_key (file_mapping : gmap string string) (key : string)
    (updated_config : json) : result json :=
  present ← py_contains key updated_config;
  if (present : bool) then
    items ← py_getitem updated_config key;
    items ← update_paths file_mapping items;
    py_setitem updated_config key items
  else Ok updated_config.

Definition update_file_paths_in_config (config : json) (file_mapping : gmap string string)
  : result json :=
  let updated_config := deep_copy config in
  updated_config ← update_key file_mapping "vertices" updated_config;
  update_key file_mapping "edges" updated_config.

(** ** [update_file_paths_in_config], on a store of objects

    Lists and dictionaries are objects of a store and are held by reference;
    an assignment [d[key] = v] overwrites the object of [d] in the store and
    is seen through every reference to it.  A new object takes the next free
    address. *)

Module Store.

Abbreviation loc := nat (only parsing).

Inductive value :=
| VNone
| VBool (b : bool)
| VInt (z : Z)
| VFloat (r : string)
| VStr (s : string)
| VRef (l : loc).

Inductive object :=
| OList (items : list value)
| ODict (fields : list (string * value)).

Abbreviation heap := (list object) (only parsing).

(** Computations that read and write the store and may raise; the store
    survives an exception. *)
Definition M (A : Type) : Type := heap → heap * result A.

#[global] Instance M_ret : MRet M := λ A a h, (h, Ok a).
#[global] Instance M_bind : MBind M := λ A B f c h,
  match c h with
  | (h', Ok a) => f a h'
  | (h', Raise e) => (h', Raise e)
  end.

Definition raise {A} (e : exception) : M A := λ h, (h, Raise e).

Definition alloc (o : object) : M value := λ h, ((h ++ [o])%list, Ok (VRef (List.length h))).

(** A reference always leads to an object; the last case is not reached from
    a store in which it does. *)
Definition read (l : loc) : M object := λ h,
  match h !! l with
  | Some o => (h, Ok o)
  | None => (h, Raise ValueError)
  end.

Definition write (l : loc) (o : object) : M unit := λ h, (<[l:=o]> h, Ok tt).

(** [json.dumps]: the tree a value stands for. [fuel] bounds the nesting of
    references. *)
Fixpoint dumps_fuel (fuel : nat) (h : heap) (v : value) : option json :=
  match v with
  | VNone => Some JNull
  | VBool b => Some (JBool b)
  | VInt z => Some (JInt z)
  | VFloat r => Some (JFloat r)
  | VStr s => Some (JStr s)
  | VRef l =>
      match fuel with
      | O => None
      | S fuel' =>
          match h !! l with
          | Some (OList items) => JArr <$> mapM (dumps_fuel fuel' h) items
          | Some (ODict fields) =>
              JObj <$> mapM (λ kv, pair (fst kv) <$> dumps_fuel fuel' h (snd kv)) fields
          | None => None
          end
      end
  end.

(** Objects nested deeper than there are objects in the store contain
    themselves: [json.dumps] raises [ValueError] on a circular reference. *)
Definition json_dumps (v : value) : M json := λ h,
  match dumps_fuel (List.length h) h v with
  | Some j => (h, Ok j)
  | None => (h, Raise ValueError)
  end.

(** [json.loads]: builds the tree out of new objects. *)
Fixpoint json_loads (j : json) : M value :=
  match j with
  | JNull => mret VNone
  | JBool b => mret (VBool b)
  | JInt z => mret (VInt z)
  | JFloat r => mret (VFloat r)
  | JStr s => mret (VStr s)
  | JArr items =>
      vs ← (fix go (js : list json) : M (list value) :=
              match js with
              | [] => mret []
              | j :: js' => v ← json_loads j; vs ← go js'; mret (v :: vs)
              end) items;
      alloc (OList vs)
  | JObj fields =>
      kvs ← (fix go (js : list (string * json)) : M (list (string * value)) :=
               match js with
               | [] => mret []
               | kv :: js' => v ← json_loads (snd kv); kvs ← go js'; mret ((fst kv, v) :: kvs)
               end) fields;
      alloc (ODict kvs)
  end.

Definition py_contains (key : string) (container : value) : M bool :=
  match container with
  | VRef l =>
      o ← read l;
      match o with
      | ODict d => mret (bool_decide (is_Some (dict_get key d)))
      | OList items =>
          mret (existsb (λ x, match x with VStr s => String.eqb s key | _ => false end) items)
      end
  | VStr s => mret (is_substring key s)
  | _ => raise TypeError
  end.

Definition py_getitem (container : value) (key : string) : M value :=
  match container with
  | VRef l =>
      o ← read l;
      match o with
      | ODict d => match dict_get key d with Some v => mret v | None => raise KeyError end
      | OList _ => raise TypeError
      end
  | _ => raise TypeError
  end.

Definition py_setitem (container : value) (key : string) (v : value) : M unit :=
  match container with
  | VRef l =>
      o ← read l;
      match o with
      | ODict d => write l (ODict (dict_set key v d))
      | OList _ => raise TypeError
      end
  | _ => raise TypeError
  end.

Definition py_get (container : value) (key : string) : M value :=
  match container with
  | VRef l =>
      o ← read l;
      match o with
      | ODict d => mret (default VNone (dict_get key d))
      | OList _ => raise AttributeError
      end
  | _ => raise AttributeError
  end.

(** The code assigns to dictionaries only, so the items of a list, the keys
    of a dictionary and the characters of a string that a loop goes through
    are those found when the loop starts. *)
Definition py_iter (items : value) : M (list value) :=
  match items with
  | VRef l =>
      o ← read l;
      match o with
      | OList vs => mret vs
      | ODict d => mret (map (λ kv, VStr (fst kv)) d)
      end
  | VStr s => mret (map (λ c, VStr (String c EmptyString)) (list_ascii_of_string s))
  | _ => raise TypeError
  end.

Definition os_path_basename (p : value) : M string :=
  match p with
  | VStr s => mret (basename s)
  | _ => raise TypeError
  end.

Definition is_file (v : value) : bool :=
  match v with
  | VStr s => String.eqb s "file"
  | _ => false
  end.

Definition update_item (file_mapping : gmap string string) (item : value) : M unit :=
  has_input ← py_contains "input" item;
  if (has_input : bool) then
    input ← py_getitem item "input";
    type ← py_get input "type";
    if is_file type then
      input ← py_getitem item "input";
      original_path ← py_getitem input "path";
      filename ← os_path_basename original_path;
      match file_mapping !! filename with
      | Some location =>
          input ← py_getitem item "input";
          py_setitem input "path" (VStr location)
      | None => mret tt
      end
    else mret tt
  else mret tt.

Fixpoint for_each {A} (body : A → M unit) (xs : list A) : M unit :=
  match xs with
  | [] => mret tt
  | x :: xs' => _ ← body x; for_each body xs'
  end.

Definition update_paths (file_mapping : gmap string string) (items : value) : M value :=
  elems ← py_iter items;
  _ ← for_each (update_item file_mapping) elems;
  mret items.

Definition update_key (file_mapping : gmap string string) (key : string)
    (updated_config : value) : M unit :=
  present ← py_contains key updated_config;
  if (present : bool) then
    items ← py_getitem updated_config key;
    items ← update_paths file_mapping items;
    py_setitem updated_config key items
  else mret tt.

Definition update_file_paths_in_config (config : value)
    (file_mapping : gmap string string) : M value :=
  text ← json_dumps config;
  updated_config ← json_loads text;
  _ ← update_key file_mapping "vertices" updated_config;
  _ ← update_key file_mapping "edges" updated_config;
  mret updated_config.

End Store.

(** ** Vocabulary of the specification *)

(** The text of the option clauses of one statement. *)
Definition options_text (options : option dict) : string :=
  join "" (map (λ kv, option_clause (fst kv) (snd kv)) (default [] options)).

Definition is_str (v : json) : bool := match v with JStr _ => true | _ => false end.
Definition is_list (v : json) : bool := match v with JArr _ => true | _ => false end.
Definition is_dict (v : json) : bool := match v with JObj _ => true | _ => false end.
Definition is_list_of (p : json → bool) (v : json) : bool :=
  match v with JArr l => forallb p l | _ => false end.

(** The element a location of a validation error points at. *)
Fixpoint json_at (loc : list loc_item) (v : json) : option json :=
  match loc with
  | [] => Some v
  | Field f :: loc' =>
      match v with JObj d => dict_get f d ≫= json_at loc' | _ => None end
  | Index i :: loc' =>
      match v with JArr l => l !! i ≫= json_at loc' | _ => None end
  end.

(** An error entry names an offending element of [root]: a dictionary that
    lacks the field, or a value that is not of the kind the entry asks for. *)
Definition offending (root : json) (e : error_detail) : Prop :=
  match snd e with
  | Missing =>
      ∃ parent f d, fst e = (parent ++ [Field f])%list ∧
                    json_at parent root = Some (JObj d) ∧ dict_get f d = None
  | StringType => ∃ v, json_at (fst e) root = Some v ∧ is_str v = false
  | ListType => ∃ v, json_at (fst e) root = Some v ∧ is_list v = false
  | DictType | ModelType => ∃ v, json_at (fst e) root = Some v ∧ is_dict v = false
  end.

(** The shape of a schema dictionary, after the data model: mandatory fields
    are there, and every field that is there and not null has its type. The
    type tag, the cardinality and the ID strategy are strings, no more. *)
Module Shape.

Definition mandatory (p : json → bool) (field : string) (d : dict) : bool :=
  match dict_get field d with Some v => p v | None => false end.

Definition optional (p : json → bool) (field : string) (d : dict) : bool :=
  match dict_get field d with None | Some JNull => true | Some v => p v end.

Definition model (p : dict → bool) (v : json) : bool :=
  match v with JObj d => p d | _ => false end.

Definition property_key (d : dict) : bool :=
  mandatory is_str "name" d && mandatory is_str "type" d &&
  optional is_str "cardinality" d && optional is_dict "options" d.

Definition vertex_label (d : dict) : bool :=
  mandatory is_str "name" d && mandatory (is_list_of is_str) "properties" d &&
  optional (is_list_of is_str) "primary_keys" d &&
  optional (is_list_of is_str) "nullable_keys" d &&
  optional is_str "id_strategy" d && optional is_dict "options" d.

Definition edge_label (d : dict) : bool :=
  mandatory is_str "name" d && mandatory is_str "source_label" d &&
  mandatory is_str "target_label" d &&
  optional (is_list_of is_str) "properties" d &&
  optional (is_list_of is_str) "sort_keys" d && optional is_dict "options" d.

Definition schema_definition (d : dict) : bool :=
  mandatory (is_list_of (model property_key)) "property_keys" d &&
  mandatory (is_list_of (model vertex_label)) "vertex_labels" d &&
  mandatory (is_list_of (model edge_label)) "edge_labels" d.

End Shape.

(** The shape of a job configuration, after the data model. *)
Module Config.

(** An [input] object: one whose [type] is ["file"] has a string [path]. *)
Definition input (v : json) : bool :=
  match v with
  | JObj d =>
      if is_file (default JNull (dict_get "type" d))
      then match dict_get "path" d with Some (JStr _) => true | _ => false end
      else true
  | _ => false
  end.

(** A mapping item: an object whose [input], when present, is an input object. *)
Definition item (v : json) : bool :=
  match v with
  | JObj d => match dict_get "input" d with Some i => input i | None => true end
  | _ => false
  end.

(** [vertices] and [edges] are optional sequences of mapping items. *)
Definition items (o : option json) : bool :=
  match o with
  | None => true
  | Some v => is_list_of item v
  end.

Definition well_formed (config : json) : bool :=
  match config with
  | JObj d => items (dict_get "vertices" d) && items (dict_get "edges" d)
  | _ => false
  end.

(** A sequence of objects, and a configuration whose [vertices] or [edges]
    is present without being one. *)
Definition sequence_of_objects (v : json) : bool := is_list_of is_dict v.

Definition misshapen (key : string) (d : dict) : bool :=
  match dict_get key d with
  | Some v => negb (sequence_of_objects v)
  | None => false
  end.

(** Null, a boolean or a number: a value that is neither a container nor a
    string. *)
Definition is_atom (v : json) : bool :=
  match v with
  | JNull | JBool _ | JInt _ | JFloat _ => true
  | _ => false
  end.

Definition atom_or_holds_atom (v : json) : bool :=
  match v with
  | JArr l => existsb is_atom l
  | _ => is_atom v
  end.

(** What resolution makes of one item. The first case is the rewrite: the
    item holds a file input whose base name the mapping knows, and only the
    value of [path] differs. In the three others the item stays. *)
Inductive resolved (file_mapping : gmap string string) : json → json → Prop :=
| resolved_rewritten pre post ipre ipost p location :
    dict_get "input" pre = None →
    dict_get "path" ipre = None →
    dict_get "type" (ipre ++ ("path", JStr p) :: ipost)%list = Some (JStr "file") →
    file_mapping !! basename p = Some location →
    resolved file_mapping
      (JObj (pre ++ ("input", JObj (ipre ++ ("path", JStr p) :: ipost)) :: post)%list)
      (JObj (pre ++ ("input", JObj (ipre ++ ("path", JStr location) :: ipost)) :: post)%list)
| resolved_no_input d :
    dict_get "input" d = None →
    resolved file_mapping (JObj d) (JObj d)
| resolved_not_file d i :
    dict_get "input" d = Some (JObj i) →
    dict_get "type" i ≠ Some (JStr "file") →
    resolved file_mapping (JObj d) (JObj d)
| resolved_unmapped d i p :
    dict_get "input" d = Some (JObj i) →
    dict_get "type" i = Some (JStr "file") →
    dict_get "path" i = Some (JStr p) →
    file_mapping !! basename p = None →
    resolved file_mapping (JObj d) (JObj d).

End Config.

(** What a validation gives on a value that has the expected shape ([ok]) and
    on one that has not: a model, or a non-empty list of entries that each
    name an offending element of [root]. *)
Definition outcome {A} (root : json) (ok : bool) (r : Pydantic.validation A) : Prop :=
  if ok then ∃ a, r = Pydantic.Valid a
  else ∃ errors, r = Pydantic.Invalid errors ∧ errors ≠ [] ∧
                 Forall (offending root) errors.

(** A validator decides the shape [p] of the values it is run on. *)
Definition decides {A} (check : Pydantic.validator A) (p : json → bool) : Prop :=
  ∀ root loc v, json_at loc root = Some v → outcome root (p v) (check loc v).

(** Values and objects that refer to objects at address [n] or above only. *)
Definition value_from (n : nat) (v : Store.value) : Prop :=
  match v with
  | Store.VRef l => (n ≤ l)%nat
  | _ => True
  end.

Definition object_from (n : nat) (o : Store.object) : Prop :=
  match o with
  | Store.OList items => Forall (value_from n) items
  | Store.ODict fields => Forall (λ kv, value_from n (snd kv)) fields
  end.

(** The store [h] has every object of [h0] as it is in [h0]; the objects it
    has beyond those refer to one another only. *)
Definition extends (h0 h : Store.heap) : Prop :=
  ∃ new, h = (h0 ++ new)%list ∧ Forall (object_from (List.length h0)) new.

(** A computation that, from a store that extends [h0], leaves a store that
    extends [h0] and returns a result in [P], if it returns. *)
Definition preserves {A} (h0 : Store.heap) (P : A → Prop) (c : Store.M A) : Prop :=
  ∀ h, extends h0 h →
       extends h0 (fst (c h)) ∧ ∀ a, snd (c h) = Ok a → P a.


(** ** Where [json.loads] puts a tree *)

(** The number of objects of a tree, and of a sequence of trees. *)
Fixpoint size (j : json) : nat :=
  match j with
  | JArr items => S (foldr (λ j n, size j + n)%nat 0%nat items)
  | JObj fields => S (foldr (λ kv n, size (snd kv) + n)%nat 0%nat fields)
  | _ => 0%nat
  end.

Definition sizes (items : list json) : nat :=
  foldr (λ j n, size j + n)%nat 0%nat items.

Definition sizes_fields (fields : dict) : nat :=
  foldr (λ kv n, size (snd kv) + n)%nat 0%nat fields.

(** The value of a tree whose objects are laid out from address [lo] on: the
    object of a container comes after the objects of what it contains. *)
Definition root (lo : nat) (j : json) : Store.value :=
  match j with
  | JNull => Store.VNone
  | JBool b => Store.VBool b
  | JInt z => Store.VInt z
  | JFloat r => Store.VFloat r
  | JStr s => Store.VStr s
  | JArr items => Store.VRef (lo + sizes items)
  | JObj fields => Store.VRef (lo + sizes_fields fields)
  end.

Fixpoint roots (lo : nat) (items : list json) : list Store.value :=
  match items with
  | [] => []
  | j :: items' => root lo j :: roots (lo + size j) items'
  end.

Fixpoint roots_fields (lo : nat) (fields : dict) : list (string * Store.value) :=
  match fields with
  | [] => []
  | kv :: fields' => (fst kv, root lo (snd kv)) :: roots_fields (lo + size (snd kv)) fields'
  end.

(** The objects of a tree laid out from address [lo] on. *)
Fixpoint layout (lo : nat) (j : json) : list Store.object :=
  match j with
  | JArr items =>
      ((fix go (lo : nat) (items : list json) : list Store.object :=
          match items with
          | [] => []
          | j :: items' => layout lo j ++ go (lo + size j)%nat items'
          end) lo items ++ [Store.OList (roots lo items)])%list
  | JObj fields =>
      ((fix go (lo : nat) (fields : dict) : list Store.object :=
          match fields with
          | [] => []
          | kv :: fields' => layout lo (snd kv) ++ go (lo + size (snd kv))%nat fields'
          end) lo fields ++ [Store.ODict (roots_fields lo fields)])%list
  | _ => []
  end.

Fixpoint layout_list (lo : nat) (items : list json) : list Store.object :=
  match items with
  | [] => []
  | j :: items' => (layout lo j ++ layout_list (lo + size j) items')%list
  end.

Fixpoint layout_fields (lo : nat) (fields : dict) : list Store.object :=
  match fields with
  | [] => []
  | kv :: fields' => (layout lo (snd kv) ++ layout_fields (lo + size (snd kv)) fields')%list
  end.

(** Two trees that take the same room and have the same value wherever they
    are laid out. *)
Definition same_place (j j' : json) : Prop :=
  size j = size j' ∧ ∀ lo, root lo j = root lo j'.

(** The store in which the tree [j] is laid out between the objects [before]
    and the objects [after]. *)
Definition store_with (before : list Store.object) (j : json) (after : list Store.object)
  : list Store.object :=
  (before ++ layout (List.length before) j ++ after)%list.

(** ** Further vocabulary *)

(** The exception a call raises, if it raises. *)
Definition raised {A} (r : result A) : option exception :=
  match r with
  | Ok _ => None
  | Raise e => Some e
  end.

(** The entries of a validation, none when it succeeds. *)
Definition errors_of {A} (v : Pydantic.validation A) : list error_detail :=
  match v with
  | Pydantic.Valid _ => []
  | Pydantic.Invalid errors => errors
  end.

(** The fields the model classes declare: those without a default, and those
    declared [Optional[...] = None]. *)
Module Declared.

Record t := { required : list string; optional : list string }.

Definition PropertyKey : t :=
  {| required := ["name"; "type"]; optional := ["cardinality"; "options"] |}.

Definition VertexLabel : t :=
  {| required := ["name"; "properties"];
     optional := ["primary_keys"; "nullable_keys"; "id_strategy"; "options"] |}.

Definition EdgeLabel : t :=
  {| required := ["name"; "source_label"; "target_label"];
     optional := ["properties"; "sort_keys"; "options"] |}.

(** The class of the elements of each list of a schema. *)
Definition of_group (group : string) : option t :=
  if String.eqb group "property_keys" then Some PropertyKey
  else if String.eqb group "vertex_labels" then Some VertexLabel
  else if String.eqb group "edge_labels" then Some EdgeLabel
  else None.

(** What an optional field holds: null is as good as nothing. *)
Definition optional_value (d : dict) (field : string) : option json :=
  match dict_get field d with
  | Some JNull => None
  | o => o
  end.

(** Two elements that agree on the declared fields; they may differ in the
    order of their keys and in the keys that are not declared. *)
Definition agree (decl : t) (v v' : json) : Prop :=
  match v, v' with
  | JObj d, JObj d' =>
      Forall (λ f, dict_get f d = dict_get f d') (required decl) ∧
      Forall (λ f, optional_value d f = optional_value d' f) (optional decl)
  | _, _ => v = v'
  end.

End Declared.

(** ** The endpoints

    [load_data] and [convert_schema] are the callers of the two
    transformations.  [load_data] talks to the system: it draws a job
    identifier, parses JSON texts, makes a temporary directory, writes files
    and runs the loader.  These operations are requests to an environment that
    answers them, and a failing one raises. *)

Definition HUGEGRAPH_LOADER_PATH : string :=
  "/home/developer/Desktop/projects/incubator-hugegraph-toolchain/hugegraph-loader/apache-hugegraph-loader-incubating-1.5.0/bin/hugegraph-loader.sh".
Definition HUGEGRAPH_HOST : string := "localhost".
Definition HUGEGRAPH_PORT : string := "8080".
Definition HUGEGRAPH_GRAPH : string := "hugegraph".

(** [os.path.join(a, b)] (posixpath). *)
Definition starts_with_slash (s : string) : bool :=
  match s with
  | String c _ => (c =? "/")%char
  | EmptyString => false
  end.

Fixpoint ends_with_slash (s : string) : bool :=
  match s with
  | EmptyString => false
  | String c EmptyString => (c =? "/")%char
  | String _ s' => ends_with_slash s'
  end.

Definition os_path_join (a b : string) : string :=
  if starts_with_slash b then b
  else if match a with EmptyString => true | _ => ends_with_slash a end then a +:+ b
  else a +:+ "/" +:+ b.

(** [json_to_groovy] on what [json.loads] may return, or on [None]: a value
    that is not a dictionary is taken for a model, and has no attribute
    [property_keys]. *)
Definition json_to_groovy_value (schema_json : json) : result string :=
  match schema_json with
  | JObj d => json_to_groovy (inl d)
  | _ => Raise AttributeError
  end.

Module Api.

(** The exceptions of the endpoints, all of them subclasses of [Exception]:
    the one [json.loads] raises on a text that is not JSON, the one of a
    failed file or process operation, the exceptions of the two
    transformations, an exception of any other class, by the name of the
    class ([json.loads] raises [RecursionError] on a text nested too deep,
    for one), and [HTTPException]. An [HTTPException] has a status code and a
    detail, which is the text given here followed by the message of the
    exception it was made from. *)
Inductive error :=
| JSONDecodeError
| OSError
| Python (e : exception)
| Other (class : string)
| HTTPException (status_code : Z) (detail : string) (cause : error).

(** How a call ends. *)
Inductive outcome (A : Type) :=
| Returned (a : A)
| Raised (e : error).
Arguments Returned {A} a.
Arguments Raised {A} e.

Record UploadFile := { filename : string; file : string }.

Record CompletedProcess := { returncode : Z; stdout : string; stderr : string }.

Record HugeGraphLoadResponse := {
  job_id : string;
  status : string;
  message : string;
  details : option dict;
  schema_groovy : option string
}.

(** The requests to the environment: [str(uuid.uuid4())], [json.loads] of a
    text, entering and leaving [tempfile.TemporaryDirectory()], copying an
    upload to a file, writing a text file, [json.dump] with [indent=2] to a
    file, and [subprocess.run]. *)
Inductive request :=
| uuid4
| json_loads (s : string)
| TemporaryDirectory
| cleanup (tmpdir : string)
| copyfileobj (content : string) (file_path : string)
| write (path : string) (text : string)
| json_dump (obj : json) (path : string) (indent : nat)
| subprocess_run (cmd : list string).

(** What the environment answers. Every operation but the draw of the
    identifier returns or raises, and nothing is assumed of the exception it
    raises: [json.loads] raises [JSONDecodeError] on a text that is not JSON,
    and now and then another one ([ValueError] on a number of too many
    digits, [RecursionError]); a file or process operation raises an
    [OSError] or one of its subclasses, or a [ValueError] on a path that
    holds a null character. *)
Definition answer (r : request) : Type :=
  match r with
  | uuid4 => string
  | json_loads _ => outcome json
  | TemporaryDirectory => outcome string
  | subprocess_run _ => outcome CompletedProcess
  | _ => outcome unit
  end.

Inductive io (A : Type) : Type :=
| Return (a : A)
| Throw (e : error)
| Perform (r : request) (k : answer r → io A).
Arguments Return {A} a.
Arguments Throw {A} e.
Arguments Perform {A} r k.

Fixpoint io_bind {A B} (f : A → io B) (p : io A) : io B :=
  match p with
  | Return a => f a
  | Throw e => Throw e
  | Perform r k => Perform r (λ x, io_bind f (k x))
  end.

#[global] Instance io_ret : MRet io := @Return.
#[global] Instance io_mbind : MBind io := @io_bind.

Definition perform (r : request) : io (answer r) := Perform r Return.

(** A call that ended in the environment ends the same way here. *)
Definition returned {A} (o : outcome A) : io A :=
  match o with
  | Returned a => Return a
  | Raised e => Throw e
  end.

(** An exception of one of the two transformations, raised in an endpoint. *)
Definition lift {A} (r : result A) : io A :=
  match r with
  | Ok a => Return a
  | Raise e => Throw (Python e)
  end.

(** [try: body except ... as e: handler e] *)
Fixpoint try_except {A} (body : io A) (handler : error → io A) : io A :=
  match body with
  | Return a => Return a
  | Throw e => handler e
  | Perform r k => Perform r (λ x, try_except (k x) handler)
  end.

(** [with tempfile.TemporaryDirectory() as tmpdir: body]: the directory is
    removed when the body returns and when it raises. *)
Fixpoint on_exit {A} (body : io A) (exit : io unit) : io A :=
  match body with
  | Return a => _ ← exit; Return a
  | Throw e => _ ← exit; Throw e
  | Perform r k => Perform r (λ x, on_exit (k x) exit)
  end.

Definition with_TemporaryDirectory {A} (body : string → io A) : io A :=
  tmpdir ← (perform TemporaryDirectory ≫= returned);
  on_exit (body tmpdir) (perform (cleanup tmpdir) ≫= returned).

(** The loop that saves the uploaded files. *)
Fixpoint save_uploads (tmpdir : string) (files : list UploadFile)
    (file_mapping : gmap string string) : io (gmap string string) :=
  match files with
  | [] => Return file_mapping
  | file :: files' =>
      let file_path := os_path_join tmpdir (filename file) in
      _ ← (perform (copyfileobj (Api.file file) file_path) ≫= returned);
      save_uploads tmpdir files' (<[filename file := file_path]> file_mapping)
  end.

(** The conversion of the schema, when there is one. *)
Definition convert (tmpdir job_id : string) (schema_json : option string)
  : io (option string * option string) :=
  match truthy_str schema_json with
  | Some schema_json =>
      schema_data ← (perform (json_loads schema_json) ≫= returned);
      schema_groovy ← lift (json_to_groovy_value schema_data);
      let schema_path := os_path_join tmpdir ("schema-" +:+ job_id +:+ ".groovy") in
      _ ← (perform (write schema_path schema_groovy) ≫= returned);
      Return (Some schema_path, Some schema_groovy)
  | None => Return (None, None)
  end.

Definition loader_command (config_path : string) (schema_path : option string)
  : list string :=
  let cmd := ["sh"; HUGEGRAPH_LOADER_PATH;
              "-g"; HUGEGRAPH_GRAPH;
              "-f"; config_path;
              "-h"; HUGEGRAPH_HOST;
              "-p"; HUGEGRAPH_PORT] in
  match truthy_str schema_path with
  | Some schema_path => (cmd ++ ["-s"; schema_path])%list
  | None => cmd
  end.

Definition response (job_id : string) (result : CompletedProcess)
    (schema_groovy : option string) : HugeGraphLoadResponse :=
  if negb (returncode result =? 0)%Z then
    {| job_id := job_id;
       status := "error";
       message := "HugeGraph loader failed with exit code " +:+ pretty (returncode result);
       details := Some [("stdout", JStr (stdout result)); ("stderr", JStr (stderr result))];
       schema_groovy := schema_groovy |}
  else
    {| job_id := job_id;
       status := "success";
       message := "Data loaded successfully";
       details := Some [("stdout", JStr (stdout result))];
       schema_groovy := schema_groovy |}.

(** The body of the [with] block: the job in its temporary directory. *)
Definition job (job_id : string) (files : list UploadFile) (schema_json : option string)
    (config_data : json) (tmpdir : string) : io HugeGraphLoadResponse :=
  file_mapping ← save_uploads tmpdir files ∅;
  converted ← convert tmpdir job_id schema_json;
  let schema_path := fst converted in
  let schema_groovy := snd converted in
  updated_config ← lift (update_file_paths_in_config config_data file_mapping);
  let config_path := os_path_join tmpdir ("struct-" +:+ job_id +:+ ".json") in
  _ ← (perform (json_dump updated_config config_path 2) ≫= returned);
  let cmd := loader_command config_path schema_path in
  result ← (perform (subprocess_run cmd) ≫= returned);
  Return (response job_id result schema_groovy).

Definition load_data (files : list UploadFile) (config : string)
    (schema_json : option string) : io HugeGraphLoadResponse :=
  job_id ← perform uuid4;
  try_except
    (config_data ← (perform (json_loads config) ≫= returned);
     with_TemporaryDirectory (job job_id files schema_json config_data))
    (λ e, match e with
          | JSONDecodeError => Throw (HTTPException 400 "Invalid JSON: " e)
          | _ => Throw (HTTPException 500 "Error processing request: " e)
          end).

Definition convert_schema (schema_json : option dict) : io json :=
  try_except
    (groovy_schema ← lift (json_to_groovy_value
                             (match schema_json with Some d => JObj d | None => JNull end));
     Return (JObj [("status", JStr "success"); ("schema_groovy", JStr groovy_schema)]))
    (λ e, Throw (HTTPException 400 "Error converting schema: " e)).

Definition health_check : io json := Return (JObj [("status", JStr "ok")]).

(** *** Running an endpoint in an environment

    An environment answers each request from a state of its own. A run gives
    the requests made with their answers, and how the call ended. *)

Definition interaction : Type := { r : request & answer r }.

Definition said (r : request) (x : answer r) : interaction := existT r x.

Definition environment (S : Type) : Type := ∀ r : request, S → answer r * S.

Fixpoint run {S A} (w : environment S) (p : io A) (s : S)
  : list interaction * outcome A * S :=
  match p with
  | Return a => ([], Returned a, s)
  | Throw e => ([], Raised e, s)
  | Perform r k =>
      let '(t, o, s') := run w (k (fst (w r s))) (snd (w r s)) in
      (said r (fst (w r s)) :: t, o, s')
  end.

(** The environment always gives the answer [x] to the request [r]. *)
Definition answers {S} (w : environment S) (r : request) (x : answer r) : Prop :=
  ∀ s, fst (w r s) = x.

(** An environment without state in which every operation succeeds: it gives
    the job identifier [job_id] and the directory [tmpdir], parses with
    [parse] and has the loader end as [result]. *)
Definition obliging (job_id tmpdir : string) (parse : string → outcome json)
    (result : CompletedProcess) : environment unit :=
  λ r _, (match r return answer r with
          | uuid4 => job_id
          | json_loads s => parse s
          | TemporaryDirectory => Returned tmpdir
          | subprocess_run _ => Returned result
          | _ => Returned tt
          end, tt).

(** In the environment [w], whatever its state, the call [p] makes the
    interactions [t] and ends in [o]. *)
Definition always {S A} (w : environment S) (p : io A) (t : list interaction)
    (o : outcome A) : Prop :=
  ∀ s, ∃ s', run w p s = (t, o, s').

End Api.

(** The interactions that save the uploaded files, when each succeeds. *)
Definition saved (tmpdir : string) (files : list Api.UploadFile) : list Api.interaction :=
  map (λ file, Api.said (Api.copyfileobj (Api.file file)
                                        (os_path_join tmpdir (Api.filename file)))
                        (Api.Returned tt))
      files.

(** The mapping [load_data] builds from the uploaded files. *)
Definition file_mapping_of (tmpdir : string) (files : list Api.UploadFile)
    (file_mapping : gmap string string) : gmap string string :=
  foldl (λ m file, <[Api.filename file := os_path_join tmpdir (Api.filename file)]> m)
        file_mapping files.

(** ** The offences of a schema dictionary

    What the data model has against a dictionary, said without the
    validators: a list that is missing or is no list, an element that is no
    object, a mandatory field that is missing, and a field whose value has
    not the declared type. Each offence has the location and the kind of the
    entry that reports it. *)
Module Offence.

(** The type the classes declare for a field, which its name determines: a
    string, a list of strings or a dictionary. *)
Inductive field_type := Str | StrList | Dict.

Definition type_of (field : string) : field_type :=
  if String.eqb field "options" then Dict
  else if String.eqb field "properties" || String.eqb field "primary_keys"
          || String.eqb field "nullable_keys" || String.eqb field "sort_keys"
  then StrList
  else Str.

(** A value that is not of a type: where it goes wrong, counted from the
    value, and the kind of the entry. In a list of strings every item that
    is no string goes wrong. *)
Inductive ill_typed : field_type → json → list loc_item → error_type → Prop :=
| not_a_string v :
    is_str v = false → ill_typed Str v [] StringType
| not_a_dictionary v :
    is_dict v = false → ill_typed Dict v [] DictType
| not_a_list v :
    is_list v = false → ill_typed StrList v [] ListType
| item_not_a_string xs j x :
    xs !! j = Some x → is_str x = false → ill_typed StrList (JArr xs) [Index j] StringType.

(** The offences of an element against its class, located from the
    element: a mandatory field that is missing, and a field, mandatory or
    optional, whose value is not of its type; [null] is as good as nothing in
    an optional field. *)
Inductive of_element (decl : Declared.t) (fields : dict) : error_detail → Prop :=
| field_missing field :
    field ∈ Declared.required decl → dict_get field fields = None →
    of_element decl fields ([Field field], Missing)
| required_field_ill_typed field v loc kind :
    field ∈ Declared.required decl → dict_get field fields = Some v →
    ill_typed (type_of field) v loc kind →
    of_element decl fields (Field field :: loc, kind)
| optional_field_ill_typed field v loc kind :
    field ∈ Declared.optional decl → dict_get field fields = Some v → v ≠ JNull →
    ill_typed (type_of field) v loc kind →
    of_element decl fields (Field field :: loc, kind).

(** The offences of a schema dictionary, located from the dictionary. *)
Inductive t (d : dict) : error_detail → Prop :=
| group_missing group decl :
    Declared.of_group group = Some decl →
    dict_get group d = None →
    t d ([Field group], Missing)
| group_not_a_list group decl v :
    Declared.of_group group = Some decl →
    dict_get group d = Some v → is_list v = false →
    t d ([Field group], ListType)
| element_not_an_object group decl elements i v :
    Declared.of_group group = Some decl →
    dict_get group d = Some (JArr elements) → elements !! i = Some v →
    is_dict v = false →
    t d ([Field group; Index i], ModelType)
| in_element group decl elements i fields loc kind :
    Declared.of_group group = Some decl →
    dict_get group d = Some (JArr elements) → elements !! i = Some (JObj fields) →
    of_element decl fields (loc, kind) →
    t d (Field group :: Index i :: loc, kind).

End Offence.

(** ** What the resolver takes *)

(** What the loops of the resolver go through without looking inside, though
    it is no sequence: a string, whose characters they visit, and an object,
    whose keys they visit, when no key holds the text [input]. *)
Definition passed_over (v : json) : bool :=
  match v with
  | JStr _ => true
  | JObj o => forallb (λ kv, negb (is_substring "input" (fst kv))) o
  | _ => false
  end.

(** What the resolver takes for [vertices] and for [edges]: nothing, a
    sequence of mapping items, or a value it passes over. *)
Definition accepted (o : option json) : bool :=
  match o with
  | None => true
  | Some v => is_list_of Config.item v || passed_over v
  end.

(** The exceptions of the operations on built-in values. *)
Definition of_an_operation (e : exception) : bool :=
  match e with
  | TypeError | KeyError | AttributeError => true
  | _ => false
  end.

(** * Properties *)

(** ** Strings and loops *)

Lemma append_assoc (a b c : string) : (a +:+ b) +:+ c = a +:+ b +:+ c.
Proof.
  induction a as [|x a IH]; [reflexivity|].
  change (String x ((a +:+ b) +:+ c) = String x (a +:+ b +:+ c)). by rewrite IH.
Qed.

Lemma append_nil_r (a : string) : a +:+ "" = a.
Proof.
  induction a as [|x a IH]; [reflexivity|].
  change (String x (a +:+ "") = String x a). by rewrite IH.
Qed.

Lemma list_ascii_of_string_app (a b : string) :
  list_ascii_of_string (a +:+ b) = (list_ascii_of_string a ++ list_ascii_of_string b)%list.
Proof.
  induction a as [|x a IH]; [reflexivity|].
  change (x :: list_ascii_of_string (a +:+ b)
          = x :: (list_ascii_of_string a ++ list_ascii_of_string b)%list).
  by rewrite IH.
Qed.

(** What stands before a given end of a string is determined. *)
Lemma append_cancel_r (a b c : string) : a +:+ c = b +:+ c → a = b.
Proof.
  intros H%(f_equal list_ascii_of_string). rewrite !list_ascii_of_string_app in H.
  apply app_inv_tail in H. apply (f_equal string_of_list_ascii) in H.
  by rewrite !string_of_list_ascii_of_string in H.
Qed.

Lemma join_empty_cons (x : string) (xs : list string) :
  join "" (x :: xs) = x +:+ join "" xs.
Proof. destruct xs; [apply eq_sym, append_nil_r | reflexivity]. Qed.

Lemma foldl_option_clauses (items : dict) (line : string) :
  foldl (λ line kv, line +:+ option_clause (fst kv) (snd kv)) line items
  = line +:+ join "" (map (λ kv, option_clause (fst kv) (snd kv)) items).
Proof.
  revert line. induction items as [|kv items IH]; intros line.
  - symmetry. apply append_nil_r.
  - cbn [foldl map]. rewrite IH, join_empty_cons. apply append_assoc.
Qed.

(** The loop over the options appends the option clauses, in order. *)
Lemma add_options_text (line : string) (options : option dict) :
  add_options line options = line +:+ options_text options.
Proof.
  unfold add_options, options_text.
  destruct options as [[|kv items]|]; simpl truthy_list; cbv iota.
  - symmetry. apply append_nil_r.
  - apply foldl_option_clauses.
  - symmetry. apply append_nil_r.
Qed.

Lemma append_each_map {A} (f : A → string) (acc : list string) (xs : list A) :
  append_each f acc xs = (acc ++ map f xs)%list.
Proof.
  unfold append_each. revert acc.
  induction xs as [|x xs IH]; intros acc; simpl.
  - by rewrite app_nil_r.
  - rewrite IH. by rewrite <- app_assoc.
Qed.

(** One line per schema element, group after group, an empty line after each
    of the first two groups. *)
Lemma groovy_lines_groups (schema : SchemaDefinition.t) :
  groovy_lines schema
  = (map property_key_line (SchemaDefinition.property_keys schema) ++ [""]
     ++ map vertex_label_line (SchemaDefinition.vertex_labels schema) ++ [""]
     ++ map edge_label_line (SchemaDefinition.edge_labels schema))%list.
Proof.
  unfold groovy_lines. rewrite !append_each_map. simpl.
  by rewrite <- !app_assoc.
Qed.

Lemma list_clause_empty (line clause : string) :
  list_clause line clause (Some []) = line ∧ list_clause line clause None = line.
Proof. by split. Qed.

Lemma list_clause_cons (line clause x : string) (xs : list string) :
  list_clause line clause (Some (x :: xs))
  = line +:+ clause +:+ "(" +:+ quoted_list (x :: xs) +:+ ")".
Proof. reflexivity. Qed.

Lemma append_empty_l (a : string) : "" +:+ a = a.
Proof. reflexivity. Qed.

Lemma id_strategy_clause_append (line : string) (id_strategy : option string) :
  id_strategy_clause line id_strategy = line +:+ id_strategy_clause "" id_strategy.
Proof.
  unfold id_strategy_clause. destruct (truthy_str id_strategy) as [s|];
    [|by rewrite append_nil_r].
  repeat (destruct (String.eqb s _); [reflexivity|]). by rewrite append_nil_r.
Qed.

Lemma list_clause_append (line clause : string) (xs : option (list string)) :
  list_clause line clause xs = line +:+ list_clause "" clause xs.
Proof.
  unfold list_clause. destruct (truthy_list xs); [reflexivity | by rewrite append_nil_r].
Qed.

Lemma quoted_list_cons (x : string) (xs : list string) :
  quoted_list (x :: xs)
  = dq +:+ x +:+ dq +:+ String.concat "" (map (λ y, ", " +:+ dq +:+ y +:+ dq) xs).
Proof.
  unfold quoted_list, join, quoted. revert x.
  induction xs as [|y xs IH]; intros x.
  - cbn [map String.concat]. by rewrite append_nil_r.
  - change (String.concat ", " (map (λ s, dq +:+ s +:+ dq) (x :: y :: xs)))
      with ((dq +:+ x +:+ dq) +:+ ", "
            +:+ String.concat ", " (map (λ s, dq +:+ s +:+ dq) (y :: xs))).
    rewrite IH. cbn [map]. fold (join "" ((", " +:+ dq +:+ y +:+ dq)
                                     :: map (λ y, ", " +:+ dq +:+ y +:+ dq) xs)).
    rewrite join_empty_cons. unfold join. by rewrite !append_assoc.
Qed.

(** Where the statement of an element is among the lines. *)
Lemma groovy_lines_property_key (schema : SchemaDefinition.t) (i : nat)
    (prop : PropertyKey.t) :
  SchemaDefinition.property_keys schema !! i = Some prop →
  groovy_lines schema !! i = Some (property_key_line prop).
Proof.
  intros Hi. rewrite groovy_lines_groups, lookup_app_l.
  - by rewrite list_lookup_fmap, Hi.
  - rewrite length_fmap. by eapply lookup_lt_Some.
Qed.

Lemma groovy_lines_vertex_label (schema : SchemaDefinition.t) (i : nat)
    (vertex : VertexLabel.t) :
  SchemaDefinition.vertex_labels schema !! i = Some vertex →
  groovy_lines schema !! (List.length (SchemaDefinition.property_keys schema) + 1 + i)%nat
  = Some (vertex_label_line vertex).
Proof.
  intros Hi. rewrite groovy_lines_groups.
  rewrite lookup_app_r by (rewrite length_map; lia). rewrite length_map.
  rewrite (lookup_app_r [""]) by (cbn [List.length]; lia). cbn [List.length].
  rewrite lookup_app_l.
  - rewrite list_lookup_fmap.
    match goal with |- _ <$> _ !! ?k = _ => replace k with i by lia end.
    by rewrite Hi.
  - rewrite length_map. apply lookup_lt_Some in Hi. lia.
Qed.

Lemma groovy_lines_edge_label (schema : SchemaDefinition.t) (i : nat)
    (edge : EdgeLabel.t) :
  SchemaDefinition.edge_labels schema !! i = Some edge →
  groovy_lines schema !! (List.length (SchemaDefinition.property_keys schema)
                          + List.length (SchemaDefinition.vertex_labels schema) + 2 + i)%nat
  = Some (edge_label_line edge).
Proof.
  intros Hi. rewrite groovy_lines_groups.
  rewrite lookup_app_r by (rewrite length_map; lia). rewrite length_map.
  rewrite (lookup_app_r [""]) by (cbn [List.length]; lia). cbn [List.length].
  rewrite lookup_app_r by (rewrite length_map; lia). rewrite length_map.
  rewrite (lookup_app_r [""]) by (cbn [List.length]; lia). cbn [List.length].
  rewrite list_lookup_fmap.
  match goal with |- _ <$> _ !! ?k = _ => replace k with i by lia end.
  by rewrite Hi.
Qed.

(** The clauses of the statement of a vertex label, in their order. *)
Lemma vertex_label_line_clauses (vertex : VertexLabel.t) :
  vertex_label_line vertex
  = "schema.vertexLabel(" +:+ dq +:+ VertexLabel.name vertex +:+ dq +:+ ")"
    +:+ id_strategy_clause "" (VertexLabel.id_strategy vertex)
    +:+ list_clause "" ".properties" (Some (VertexLabel.properties vertex))
    +:+ list_clause "" ".primaryKeys" (VertexLabel.primary_keys vertex)
    +:+ list_clause "" ".nullableKeys" (VertexLabel.nullable_keys vertex)
    +:+ options_text (VertexLabel.options vertex)
    +:+ ".ifNotExist().create();".
Proof.
  unfold vertex_label_line, create_if_absent, quoted.
  rewrite add_options_text.
  rewrite (list_clause_append _ ".nullableKeys"), (list_clause_append _ ".primaryKeys"),
    (list_clause_append _ ".properties"), id_strategy_clause_append.
  by rewrite !append_assoc.
Qed.

(** Normalisation of nested appends, for the statements about lines. *)
Ltac line_normalise :=
  repeat rewrite add_options_text; repeat rewrite append_assoc.

(** ** Property keys *)

(** C3: the statement of a property key. For every property key of a
    schema, with a type tag of ASCII characters as those of the data model
    are, the script has one line at the index of the key, which opens with
    the property-key clause naming it, goes on with the accessor named after
    the capitalised type tag ([.asInt()] for [int]), then the cardinality
    clause when there is a cardinality, then the option clauses, and closes
    with the create-if-absent clause. With neither cardinality nor options
    nothing stands between the accessor and the close clause. The
    cardinalities of the data model, [single], [list] and [set], are not
    empty; the empty string, which is none of them, counts as no cardinality
    by the test [if prop.cardinality:]. *)
Theorem property_key_statement (schema : SchemaDefinition.t) (i : nat)
    (prop : PropertyKey.t) :
  SchemaDefinition.property_keys schema !! i = Some prop →
  ascii_only (PropertyKey.type prop) = true →
  let accessor := ".as" +:+ capitalize (PropertyKey.type prop) +:+ "()" in
  let head := "schema.propertyKey(" +:+ dq +:+ PropertyKey.name prop +:+ dq +:+ ")" in
  let close := ".ifNotExist().create();" in
  json_to_groovy (inr schema) = Ok (join nl (groovy_lines schema)) ∧
  groovy_lines schema !! i = Some (property_key_line prop) ∧
  (PropertyKey.type prop = "int" → accessor = ".asInt()") ∧
  (PropertyKey.cardinality prop = None → PropertyKey.options prop = None →
   property_key_line prop = head +:+ accessor +:+ close) ∧
  (∀ c, PropertyKey.cardinality prop = Some c → c ≠ "" →
        property_key_line prop
        = head +:+ accessor +:+ (".cardinality(" +:+ dq +:+ c +:+ dq +:+ ")")
            +:+ options_text (PropertyKey.options prop) +:+ close) ∧
  (PropertyKey.cardinality prop = Some "" →
   property_key_line prop
   = head +:+ accessor +:+ options_text (PropertyKey.options prop) +:+ close).
Proof.
  intros Hi _ accessor head close. subst accessor head close.
  split; [reflexivity|]. split; [|split; [by intros ->|split; [|split]]].
  - rewrite groovy_lines_groups, lookup_app_l.
    + by rewrite list_lookup_fmap, Hi.
    + rewrite length_fmap. by eapply lookup_lt_Some.
  - intros Hc Ho. unfold property_key_line. rewrite Hc, Ho. cbn [truthy_str].
    unfold quoted, create_if_absent. line_normalise. reflexivity.
  - intros c Hc Hne. unfold property_key_line. rewrite Hc.
    destruct c as [|a c]; [done|]. cbn [truthy_str].
    unfold quoted, create_if_absent. line_normalise. reflexivity.
  - intros Hc. unfold property_key_line. rewrite Hc. cbn [truthy_str].
    unfold quoted, create_if_absent. line_normalise. reflexivity.
Qed.

Lemma property_key_statement_witness :
  let tags := {| PropertyKey.name := "tags"; PropertyKey.type := "text";
                 PropertyKey.cardinality := Some "list";
                 PropertyKey.options := None |} in
  let schema := {| SchemaDefinition.property_keys := [tags];
                   SchemaDefinition.vertex_labels := [];
                   SchemaDefinition.edge_labels := [] |} in
  SchemaDefinition.property_keys schema !! 0%nat = Some tags ∧
  ascii_only (PropertyKey.type tags) = true ∧
  groovy_lines schema !! 0%nat = Some (property_key_line tags) ∧
  property_key_line tags
  = "schema.propertyKey(" +:+ dq +:+ "tags" +:+ dq +:+ ").asText().cardinality("
      +:+ dq +:+ "list" +:+ dq +:+ ").ifNotExist().create();".
Proof.
  intros tags schema. split; [reflexivity|]. split; [reflexivity|].
  destruct (property_key_statement schema 0 tags eq_refl eq_refl)
    as (_ & Hline & _ & _ & Hcardinality & _).
  split; [exact Hline|].
  refine (eq_trans (Hcardinality "list" eq_refl _) eq_refl). discriminate.
Defined.

(** ** Vertex labels *)

(** C4: the ID strategy of a vertex label. For every vertex label of a
    schema that has an ID strategy, the script has the statement of the
    label on the line at the index of the label in its group, and in this
    statement the clause of the strategy comes right after the opening
    clause: the customize-string-id clause for [primary_key] and for
    [customize_string], the customize-number-id clause for
    [customize_number], the automatic-id clause for [automatic]. What
    follows the clause does not depend on the strategy, and the primary
    keys, when there are some, have their clause there: the clause of the
    strategy is written whether or not primary keys are declared. *)
Theorem id_strategy_lookup (schema : SchemaDefinition.t) (i : nat)
    (vertex : VertexLabel.t) (s : string) :
  SchemaDefinition.vertex_labels schema !! i = Some vertex →
  VertexLabel.id_strategy vertex = Some s →
  let head := "schema.vertexLabel(" +:+ dq +:+ VertexLabel.name vertex +:+ dq +:+ ")" in
  let rest :=
    list_clause "" ".properties" (Some (VertexLabel.properties vertex))
    +:+ list_clause "" ".primaryKeys" (VertexLabel.primary_keys vertex)
    +:+ list_clause "" ".nullableKeys" (VertexLabel.nullable_keys vertex)
    +:+ options_text (VertexLabel.options vertex)
    +:+ ".ifNotExist().create();" in
  json_to_groovy (inr schema) = Ok (join nl (groovy_lines schema)) ∧
  groovy_lines schema !! (List.length (SchemaDefinition.property_keys schema) + 1 + i)%nat
  = Some (vertex_label_line vertex) ∧
  (s = "primary_key" →
   vertex_label_line vertex = head +:+ ".useCustomizeStringId()" +:+ rest) ∧
  (s = "customize_number" →
   vertex_label_line vertex = head +:+ ".useCustomizeNumberId()" +:+ rest) ∧
  (s = "customize_string" →
   vertex_label_line vertex = head +:+ ".useCustomizeStringId()" +:+ rest) ∧
  (s = "automatic" →
   vertex_label_line vertex = head +:+ ".useAutomaticId()" +:+ rest) ∧
  (∀ key keys,
     VertexLabel.primary_keys vertex = Some (key :: keys) →
     list_clause "" ".primaryKeys" (VertexLabel.primary_keys vertex)
     = ".primaryKeys(" +:+ quoted_list (key :: keys) +:+ ")").
Proof.
  intros Hi Hs head rest. subst head rest.
  split; [reflexivity|]. split; [by apply groovy_lines_vertex_label|].
  rewrite vertex_label_line_clauses, Hs, !append_assoc.
  split; [intros ->; reflexivity|]. split; [intros ->; reflexivity|].
  split; [intros ->; reflexivity|]. split; [intros ->; reflexivity|].
  intros key keys ->. reflexivity.
Qed.

Lemma id_strategy_lookup_witness :
  let person :=
    {| VertexLabel.name := "person"; VertexLabel.properties := ["name"; "age"];
       VertexLabel.primary_keys := Some ["name"]; VertexLabel.nullable_keys := None;
       VertexLabel.id_strategy := Some "primary_key"; VertexLabel.options := None |} in
  let schema :=
    {| SchemaDefinition.property_keys :=
         [{| PropertyKey.name := "name"; PropertyKey.type := "text";
             PropertyKey.cardinality := None; PropertyKey.options := None |}];
       SchemaDefinition.vertex_labels := [person];
       SchemaDefinition.edge_labels := [] |} in
  groovy_lines schema !! 2%nat = Some (vertex_label_line person) ∧
  vertex_label_line person
  = "schema.vertexLabel(" +:+ dq +:+ "person" +:+ dq +:+ ").useCustomizeStringId()"
      +:+ ".properties(" +:+ dq +:+ "name" +:+ dq +:+ ", " +:+ dq +:+ "age" +:+ dq +:+ ")"
      +:+ ".primaryKeys(" +:+ dq +:+ "name" +:+ dq +:+ ").ifNotExist().create();".
Proof.
  intros person schema.
  destruct (id_strategy_lookup schema 0 person "primary_key" eq_refl eq_refl)
    as (_ & Hline & Hprimary & _).
  split; [exact Hline|]. exact (eq_trans (Hprimary eq_refl) eq_refl).
Defined.

Lemma id_strategy_clause_other (line s : string) :
  s ≠ "primary_key" → s ≠ "customize_number" → s ≠ "customize_string" →
  s ≠ "automatic" → id_strategy_clause line (Some s) = line.
Proof.
  intros H1 H2 H3 H4. unfold id_strategy_clause.
  destruct s as [|a s]; [reflexivity|]. cbn [truthy_str].
  apply String.eqb_neq in H1, H2, H3, H4. by rewrite H1, H2, H3, H4.
Qed.

(** C9: an ID strategy that is none of the four known ones leaves the
    statement as it is without an ID strategy, and no error is raised.  *)
Theorem unknown_id_strategy_ignored (vertex : VertexLabel.t) (s : string)
    (schema : SchemaDefinition.t) :
  VertexLabel.id_strategy vertex = Some s →
  s ≠ "primary_key" → s ≠ "customize_number" → s ≠ "customize_string" →
  s ≠ "automatic" →
  vertex ∈ SchemaDefinition.vertex_labels schema →
  vertex_label_line vertex
  = vertex_label_line
      {| VertexLabel.name := VertexLabel.name vertex;
         VertexLabel.properties := VertexLabel.properties vertex;
         VertexLabel.primary_keys := VertexLabel.primary_keys vertex;
         VertexLabel.nullable_keys := VertexLabel.nullable_keys vertex;
         VertexLabel.id_strategy := None;
         VertexLabel.options := VertexLabel.options vertex |} ∧
  vertex_label_line vertex ∈ groovy_lines schema ∧
  json_to_groovy (inr schema) = Ok (join nl (groovy_lines schema)).
Proof.
  intros Hs H1 H2 H3 H4 Hin. split; [|split; [|reflexivity]].
  - unfold vertex_label_line. cbn [VertexLabel.name VertexLabel.properties
      VertexLabel.primary_keys VertexLabel.nullable_keys VertexLabel.id_strategy
      VertexLabel.options].
    rewrite Hs, id_strategy_clause_other by done. reflexivity.
  - rewrite groovy_lines_groups. rewrite !elem_of_app. right; right; left.
    by apply list_elem_of_fmap_2.
Qed.

Lemma unknown_id_strategy_ignored_witness :
  vertex_label_line
    {| VertexLabel.name := "person"; VertexLabel.properties := ["name"];
       VertexLabel.primary_keys := None; VertexLabel.nullable_keys := None;
       VertexLabel.id_strategy := Some "uuid"; VertexLabel.options := None |}
  = "schema.vertexLabel(" +:+ dq +:+ "person" +:+ dq +:+ ").properties("
      +:+ dq +:+ "name" +:+ dq +:+ ").ifNotExist().create();".
Proof.
  pose (person := {| VertexLabel.name := "person"; VertexLabel.properties := ["name"];
                     VertexLabel.primary_keys := None;
                     VertexLabel.nullable_keys := None;
                     VertexLabel.id_strategy := Some "uuid";
                     VertexLabel.options := None |}).
  pose (schema := {| SchemaDefinition.property_keys := [];
                     SchemaDefinition.vertex_labels := [person];
                     SchemaDefinition.edge_labels := [] |}).
  refine (eq_trans (proj1 (unknown_id_strategy_ignored person "uuid" schema
                             eq_refl _ _ _ _ _)) eq_refl);
    try discriminate.
  apply list_elem_of_here.
Defined.

(** C10: an empty list gives the same statement as an absent field, for the
    primary keys and the nullable keys of a vertex label and for the
    properties and the sort keys of an edge label. The properties of a vertex
    label cannot be absent; when they are empty the properties clause, which
    otherwise stands between [head] and [tail], is not there. *)
Theorem empty_list_as_absent :
  (∀ name properties primary_keys nullable_keys id_strategy options,
     let vertex_line properties primary_keys nullable_keys :=
       vertex_label_line
         {| VertexLabel.name := name; VertexLabel.properties := properties;
            VertexLabel.primary_keys := primary_keys;
            VertexLabel.nullable_keys := nullable_keys;
            VertexLabel.id_strategy := id_strategy;
            VertexLabel.options := options |} in
     vertex_line properties (Some []) nullable_keys
     = vertex_line properties None nullable_keys ∧
     vertex_line properties primary_keys (Some [])
     = vertex_line properties primary_keys None ∧
     ∃ head tail,
       vertex_line [] primary_keys nullable_keys = head +:+ tail ∧
       ∀ x xs, vertex_line (x :: xs) primary_keys nullable_keys
               = head +:+ (".properties(" +:+ quoted_list (x :: xs) +:+ ")") +:+ tail) ∧
  (∀ name source_label target_label properties sort_keys options,
     let edge_line properties sort_keys :=
       edge_label_line
         {| EdgeLabel.name := name; EdgeLabel.source_label := source_label;
            EdgeLabel.target_label := target_label;
            EdgeLabel.properties := properties; EdgeLabel.sort_keys := sort_keys;
            EdgeLabel.options := options |} in
     edge_line (Some []) sort_keys = edge_line None sort_keys ∧
     edge_line properties (Some []) = edge_line properties None).
Proof.
  split.
  - intros name properties primary_keys nullable_keys id_strategy options vertex_line.
    subst vertex_line. split; [reflexivity|]. split; [reflexivity|].
    exists (id_strategy_clause ("schema.vertexLabel(" +:+ quoted name +:+ ")") id_strategy).
    exists (match truthy_list primary_keys with
            | Some xs => ".primaryKeys(" +:+ quoted_list xs +:+ ")"
            | None => ""
            end
            +:+ match truthy_list nullable_keys with
                | Some xs => ".nullableKeys(" +:+ quoted_list xs +:+ ")"
                | None => ""
                end
            +:+ options_text options +:+ create_if_absent).
    unfold vertex_label_line, list_clause. cbn [VertexLabel.name
      VertexLabel.properties VertexLabel.primary_keys VertexLabel.nullable_keys
      VertexLabel.id_strategy VertexLabel.options].
    destruct (truthy_list primary_keys) as [pk|],
      (truthy_list nullable_keys) as [nk|];
      cbn [truthy_list]; cbv iota; (split; [|intros x xs]); line_normalise;
      reflexivity.
  - intros name source_label target_label properties sort_keys options edge_line.
    subst edge_line. split; reflexivity.
Qed.

(** ** Extension options and the closing clause *)

Lemma property_key_line_options (name type : string) (cardinality : option string) :
  ∃ head, ∀ options,
    property_key_line
      {| PropertyKey.name := name; PropertyKey.type := type;
         PropertyKey.cardinality := cardinality; PropertyKey.options := options |}
    = head +:+ options_text options +:+ ".ifNotExist().create();".
Proof.
  eexists. intros options. unfold property_key_line, create_if_absent.
  cbn [PropertyKey.name PropertyKey.type PropertyKey.cardinality PropertyKey.options].
  rewrite add_options_text, append_assoc. reflexivity.
Qed.

Lemma vertex_label_line_options (name : string) (properties : list string)
    (primary_keys nullable_keys : option (list string)) (id_strategy : option string) :
  ∃ head, ∀ options,
    vertex_label_line
      {| VertexLabel.name := name; VertexLabel.properties := properties;
         VertexLabel.primary_keys := primary_keys;
         VertexLabel.nullable_keys := nullable_keys;
         VertexLabel.id_strategy := id_strategy; VertexLabel.options := options |}
    = head +:+ options_text options +:+ ".ifNotExist().create();".
Proof.
  eexists. intros options. unfold vertex_label_line, create_if_absent.
  cbn [VertexLabel.name VertexLabel.properties VertexLabel.primary_keys
       VertexLabel.nullable_keys VertexLabel.id_strategy VertexLabel.options].
  rewrite add_options_text, append_assoc. reflexivity.
Qed.

Lemma edge_label_line_options (name source_label target_label : string)
    (properties sort_keys : option (list string)) :
  ∃ head, ∀ options,
    edge_label_line
      {| EdgeLabel.name := name; EdgeLabel.source_label := source_label;
         EdgeLabel.target_label := target_label; EdgeLabel.properties := properties;
         EdgeLabel.sort_keys := sort_keys; EdgeLabel.options := options |}
    = head +:+ options_text options +:+ ".ifNotExist().create();".
Proof.
  eexists. intros options. unfold edge_label_line, create_if_absent.
  cbn [EdgeLabel.name EdgeLabel.source_label EdgeLabel.target_label
       EdgeLabel.properties EdgeLabel.sort_keys EdgeLabel.options].
  rewrite add_options_text, append_assoc. reflexivity.
Qed.

Lemma statement_suffix (head middle : string) :
  head +:+ middle +:+ ".ifNotExist().create();"
  = (head +:+ middle +:+ ".") +:+ "ifNotExist().create();".
Proof. by rewrite !append_assoc. Qed.

(** C5: the option clauses and the close clause. For every element of a
    schema the script has, on the line of the element, the statement the
    element has without options with the option clauses put before the
    close clause: one clause for each option, in the order of the mapping,
    named after the option. A string value is put between double quotes
    and an integer is written in decimal, without quotes. A boolean is
    written without quotes as Python prints it, [True] or [False], which
    is not how the language of the script writes it. Every line of the
    script that is not one of the two empty separator lines ends with
    [ifNotExist().create();]. *)
Theorem option_clauses_and_suffix (schema : SchemaDefinition.t) :
  let n := List.length (SchemaDefinition.property_keys schema) in
  let m := List.length (SchemaDefinition.vertex_labels schema) in
  let close := ".ifNotExist().create();" in
  json_to_groovy (inr schema) = Ok (join nl (groovy_lines schema)) ∧
  (∀ i prop,
     SchemaDefinition.property_keys schema !! i = Some prop →
     ∃ body,
       property_key_line
         {| PropertyKey.name := PropertyKey.name prop;
            PropertyKey.type := PropertyKey.type prop;
            PropertyKey.cardinality := PropertyKey.cardinality prop;
            PropertyKey.options := None |} = body +:+ close ∧
       groovy_lines schema !! i
       = Some (body +:+ options_text (PropertyKey.options prop) +:+ close)) ∧
  (∀ i vertex,
     SchemaDefinition.vertex_labels schema !! i = Some vertex →
     ∃ body,
       vertex_label_line
         {| VertexLabel.name := VertexLabel.name vertex;
            VertexLabel.properties := VertexLabel.properties vertex;
            VertexLabel.primary_keys := VertexLabel.primary_keys vertex;
            VertexLabel.nullable_keys := VertexLabel.nullable_keys vertex;
            VertexLabel.id_strategy := VertexLabel.id_strategy vertex;
            VertexLabel.options := None |} = body +:+ close ∧
       groovy_lines schema !! (n + 1 + i)%nat
       = Some (body +:+ options_text (VertexLabel.options vertex) +:+ close)) ∧
  (∀ i edge,
     SchemaDefinition.edge_labels schema !! i = Some edge →
     ∃ body,
       edge_label_line
         {| EdgeLabel.name := EdgeLabel.name edge;
            EdgeLabel.source_label := EdgeLabel.source_label edge;
            EdgeLabel.target_label := EdgeLabel.target_label edge;
            EdgeLabel.properties := EdgeLabel.properties edge;
            EdgeLabel.sort_keys := EdgeLabel.sort_keys edge;
            EdgeLabel.options := None |} = body +:+ close ∧
       groovy_lines schema !! (n + m + 2 + i)%nat
       = Some (body +:+ options_text (EdgeLabel.options edge) +:+ close)) ∧
  (options_text None = "" ∧ options_text (Some []) = "" ∧
   ∀ opt_name opt_value others,
     options_text (Some ((opt_name, opt_value) :: others))
     = option_clause opt_name opt_value +:+ options_text (Some others)) ∧
  (∀ opt_name,
     (∀ s, option_clause opt_name (JStr s)
           = "." +:+ opt_name +:+ "(" +:+ dq +:+ s +:+ dq +:+ ")") ∧
     (∀ z, option_clause opt_name (JInt z)
           = "." +:+ opt_name +:+ "(" +:+ pretty z +:+ ")") ∧
     (∀ b : bool, option_clause opt_name (JBool b)
                  = "." +:+ opt_name +:+ "(" +:+ (if b then "True" else "False") +:+ ")")) ∧
  (∀ line,
     line ∈ groovy_lines schema →
     line = "" ∨ ∃ body, line = body +:+ "ifNotExist().create();").
Proof.
  intros n m close. subst n m close.
  split; [reflexivity|]. split; [|split; [|split; [|split; [|split]]]].
  - intros i [name type cardinality options] Hi.
    destruct (property_key_line_options name type cardinality) as [body Hbody].
    exists body. cbn [PropertyKey.name PropertyKey.type PropertyKey.cardinality
                      PropertyKey.options].
    split; [by rewrite Hbody|].
    by rewrite (groovy_lines_property_key _ _ _ Hi), Hbody.
  - intros i [name properties primary_keys nullable_keys id_strategy options] Hi.
    destruct (vertex_label_line_options name properties primary_keys nullable_keys
                id_strategy) as [body Hbody].
    exists body. cbn [VertexLabel.name VertexLabel.properties VertexLabel.primary_keys
                      VertexLabel.nullable_keys VertexLabel.id_strategy
                      VertexLabel.options].
    split; [by rewrite Hbody|].
    by rewrite (groovy_lines_vertex_label _ _ _ Hi), Hbody.
  - intros i [name source_label target_label properties sort_keys options] Hi.
    destruct (edge_label_line_options name source_label target_label properties
                sort_keys) as [body Hbody].
    exists body. cbn [EdgeLabel.name EdgeLabel.source_label EdgeLabel.target_label
                      EdgeLabel.properties EdgeLabel.sort_keys EdgeLabel.options].
    split; [by rewrite Hbody|].
    by rewrite (groovy_lines_edge_label _ _ _ Hi), Hbody.
  - split; [reflexivity|]. split; [reflexivity|]. intros k v others.
    unfold options_text. cbn [default map fst snd]. apply join_empty_cons.
  - intros opt_name. split; [|split]; intros x; unfold option_clause, quoted;
      line_normalise; reflexivity.
  - intros line. rewrite groovy_lines_groups, !elem_of_app.
    intros [H|[H|[H|[H|H]]]].
    + apply list_elem_of_fmap in H as ([n t c o] & -> & _).
      destruct (property_key_line_options n t c) as [head Hhead].
      right. rewrite Hhead, statement_suffix. eauto.
    + apply list_elem_of_singleton in H. by left.
    + apply list_elem_of_fmap in H as ([n p pk nk i o] & -> & _).
      destruct (vertex_label_line_options n p pk nk i) as [head Hhead].
      right. rewrite Hhead, statement_suffix. eauto.
    + apply list_elem_of_singleton in H. by left.
    + apply list_elem_of_fmap in H as ([n s t p sk o] & -> & _).
      destruct (edge_label_line_options n s t p sk) as [head Hhead].
      right. rewrite Hhead, statement_suffix. eauto.
Qed.

(** A boolean option, in a schema sent as a dictionary: the script has
    [True] where the language of the script has [true]. *)
Lemma option_clauses_and_suffix_witness :
  let person :=
    {| VertexLabel.name := "person"; VertexLabel.properties := ["name"];
       VertexLabel.primary_keys := None; VertexLabel.nullable_keys := None;
       VertexLabel.id_strategy := None;
       VertexLabel.options := Some [("enableLabelIndex", JBool true)] |} in
  let schema :=
    {| SchemaDefinition.property_keys := [];
       SchemaDefinition.vertex_labels := [person];
       SchemaDefinition.edge_labels := [] |} in
  Pydantic.SchemaDefinition
    [("property_keys", JArr []);
     ("vertex_labels",
      JArr [JObj [("name", JStr "person"); ("properties", JArr [JStr "name"]);
                  ("options", JObj [("enableLabelIndex", JBool true)])]]);
     ("edge_labels", JArr [])] = Ok schema ∧
  groovy_lines schema !! 1%nat
  = Some ("schema.vertexLabel(" +:+ dq +:+ "person" +:+ dq +:+ ").properties("
            +:+ dq +:+ "name" +:+ dq +:+ ").enableLabelIndex(True).ifNotExist().create();").
Proof.
  intros person schema. split; [reflexivity|].
  destruct (proj1 (proj2 (proj2 (option_clauses_and_suffix schema))) 0%nat person eq_refl)
    as (body & Hbody & Hline).
  refine (eq_trans Hline _). f_equal.
  assert (body = "schema.vertexLabel(" +:+ dq +:+ "person" +:+ dq +:+ ").properties("
                   +:+ dq +:+ "name" +:+ dq +:+ ")") as ->; [|reflexivity].
  symmetry. apply (append_cancel_r _ _ ".ifNotExist().create();").
  rewrite <- Hbody. reflexivity.
Defined.

(** ** The empty schema *)

(** C8: for empty lists the lines are the two empty separator lines and
    nothing else, so that the text is the one line feed that joins them; this
    holds for the model and for the dictionary it is built from, and, the
    output being a function of the input, every call returns this text. *)
Theorem empty_schema :
  groovy_lines
    {| SchemaDefinition.property_keys := []; SchemaDefinition.vertex_labels := [];
       SchemaDefinition.edge_labels := [] |} = [""; ""] ∧
  json_to_groovy
    (inr {| SchemaDefinition.property_keys := []; SchemaDefinition.vertex_labels := [];
            SchemaDefinition.edge_labels := [] |}) = Ok nl ∧
  json_to_groovy
    (inl [("property_keys", JArr []); ("vertex_labels", JArr []);
          ("edge_labels", JArr [])]) = Ok nl.
Proof. repeat split; reflexivity. Qed.

(** ** Validation *)

Section validation.
Import Pydantic.

Lemma json_at_snoc (loc : list loc_item) (x : loc_item) (root : json) :
  json_at (loc ++ [x]) root = json_at loc root ≫= json_at [x].
Proof.
  revert root. induction loc as [|y loc IH]; intros root.
  - cbn [app json_at]. by destruct x, root.
  - cbn [app json_at]. destruct y, root; try reflexivity.
    + destruct (dict_get f fields); [apply IH | reflexivity].
    + destruct (items !! i); [apply IH | reflexivity].
Qed.

Lemma json_at_field (loc : list loc_item) (root : json) (d : dict) (f : string) :
  json_at loc root = Some (JObj d) → json_at (loc ++ [Field f]) root = dict_get f d.
Proof.
  intros H. rewrite json_at_snoc, H. cbn. by destruct (dict_get f d).
Qed.

Lemma json_at_index (loc : list loc_item) (root : json) (l : list json) (i : nat) :
  json_at loc root = Some (JArr l) → json_at (loc ++ [Index i]) root = l !! i.
Proof.
  intros H. rewrite json_at_snoc, H. cbn. by destruct (l !! i).
Qed.

Lemma outcome_pure {A B} (root : json) (ok : bool) (f : A → B) (va : validation A) :
  outcome root ok va → outcome root ok (Valid f <*> va).
Proof.
  unfold outcome. destruct ok.
  - intros [a ->]. by eexists.
  - intros (errors & -> & ? & ?). by eexists.
Qed.

Lemma outcome_ap {A B} (root : json) (ok1 ok2 : bool) (vf : validation (A → B))
    (va : validation A) :
  outcome root ok1 vf → outcome root ok2 va → outcome root (ok1 && ok2) (vf <*> va).
Proof.
  unfold outcome. destruct ok1, ok2; cbn [andb].
  - intros [f ->] [a ->]. by eexists.
  - intros [f ->] (errors & -> & ? & ?). by eexists.
  - intros (errors & -> & ? & ?) [a ->]. by eexists.
  - intros (e1 & -> & ? & ?) (e2 & -> & ? & ?). exists (e1 ++ e2)%list.
    split; [reflexivity|]. split; [by destruct e1 | by apply Forall_app].
Qed.

Lemma decides_str : decides str_type is_str.
Proof.
  intros root loc v Hat. unfold outcome.
  destruct v; cbn; eauto; (eexists; split; [reflexivity|]; split; [done|]);
    apply Forall_singleton; cbn; eauto.
Qed.

Lemma decides_dict : decides dict_type is_dict.
Proof.
  intros root loc v Hat. unfold outcome.
  destruct v; cbn; eauto; (eexists; split; [reflexivity|]; split; [done|]);
    apply Forall_singleton; cbn; eauto.
Qed.

Lemma outcome_list_items {A} (item : validator A) (p : json → bool) (root : json)
    (loc : list loc_item) (vs : list json) (i : nat) :
  decides item p →
  (∀ k v, vs !! k = Some v → json_at (loc ++ [Index (i + k)]) root = Some v) →
  outcome root (forallb p vs) (list_items item loc i vs).
Proof.
  intros Hitem. revert i. induction vs as [|v vs IH]; intros i Hat.
  - cbn. by eexists.
  - cbn [forallb list_items]. apply outcome_ap.
    + apply outcome_pure, Hitem. specialize (Hat 0 v eq_refl).
      by rewrite Nat.add_0_r in Hat.
    + apply IH. intros k w Hk. specialize (Hat (S k) w Hk).
      by rewrite Nat.add_succ_r in Hat.
Qed.

Lemma decides_list {A} (item : validator A) (p : json → bool) :
  decides item p → decides (list_type item) (is_list_of p).
Proof.
  intros Hitem root loc v Hat.
  destruct v; try (cbn; eexists; split; [reflexivity|]; split; [done|];
                   apply Forall_singleton; cbn; eauto).
  cbn [is_list_of list_type]. eapply outcome_list_items; [done|].
  intros k w Hk. cbn [Nat.add]. by rewrite (json_at_index _ _ _ _ Hat).
Qed.

Lemma decides_model {A} (fields : list loc_item → dict → validation A)
    (p : dict → bool) :
  (∀ root loc d, json_at loc root = Some (JObj d) → outcome root (p d) (fields loc d)) →
  decides (model_type fields) (Shape.model p).
Proof.
  intros Hfields root loc v Hat.
  destruct v; try (cbn; eexists; split; [reflexivity|]; split; [done|];
                   apply Forall_singleton; cbn; eauto).
  cbn. by apply Hfields.
Qed.

Lemma outcome_required {A} (check : validator A) (p : json → bool) (root : json)
    (loc : list loc_item) (d : dict) (field : string) :
  decides check p → json_at loc root = Some (JObj d) →
  outcome root (Shape.mandatory p field d) (required check loc d field).
Proof.
  intros Hcheck Hat. unfold Shape.mandatory, required.
  pose proof (json_at_field _ _ _ field Hat) as Hf.
  destruct (dict_get field d) as [v|] eqn:Hget.
  - by apply Hcheck.
  - cbn. eexists. split; [reflexivity|]. split; [done|].
    apply Forall_singleton. cbn. eauto 10.
Qed.

Lemma outcome_optional {A} (check : validator A) (p : json → bool) (root : json)
    (loc : list loc_item) (d : dict) (field : string) :
  decides check p → json_at loc root = Some (JObj d) →
  outcome root (Shape.optional p field d) (optional check loc d field).
Proof.
  intros Hcheck Hat. unfold Shape.optional, optional.
  pose proof (json_at_field _ _ _ field Hat) as Hf.
  destruct (dict_get field d) as [v|] eqn:Hget; [|by eexists].
  destruct v; try (apply outcome_pure, Hcheck; exact Hf). by eexists.
Qed.

End validation.

Lemma PropertyKey_fields_outcome (root : json) (loc : list loc_item) (d : dict) :
  json_at loc root = Some (JObj d) →
  outcome root (Shape.property_key d) (Pydantic.PropertyKey_fields loc d).
Proof.
  intros Hat. unfold Shape.property_key, Pydantic.PropertyKey_fields.
  repeat apply outcome_ap; try apply outcome_pure;
    first [ eapply outcome_required | eapply outcome_optional ];
    eauto using decides_str, decides_dict, decides_list.
Qed.

Lemma VertexLabel_fields_outcome (root : json) (loc : list loc_item) (d : dict) :
  json_at loc root = Some (JObj d) →
  outcome root (Shape.vertex_label d) (Pydantic.VertexLabel_fields loc d).
Proof.
  intros Hat. unfold Shape.vertex_label, Pydantic.VertexLabel_fields.
  repeat apply outcome_ap; try apply outcome_pure;
    first [ eapply outcome_required | eapply outcome_optional ];
    eauto using decides_str, decides_dict, decides_list.
Qed.

Lemma EdgeLabel_fields_outcome (root : json) (loc : list loc_item) (d : dict) :
  json_at loc root = Some (JObj d) →
  outcome root (Shape.edge_label d) (Pydantic.EdgeLabel_fields loc d).
Proof.
  intros Hat. unfold Shape.edge_label, Pydantic.EdgeLabel_fields.
  repeat apply outcome_ap; try apply outcome_pure;
    first [ eapply outcome_required | eapply outcome_optional ];
    eauto using decides_str, decides_dict, decides_list.
Qed.

Lemma SchemaDefinition_fields_outcome (d : dict) :
  outcome (JObj d) (Shape.schema_definition d) (Pydantic.SchemaDefinition_fields [] d).
Proof.
  unfold Shape.schema_definition, Pydantic.SchemaDefinition_fields.
  repeat apply outcome_ap; try apply outcome_pure;
    eapply outcome_required; try reflexivity;
    apply decides_list, decides_model;
    auto using PropertyKey_fields_outcome, VertexLabel_fields_outcome,
      EdgeLabel_fields_outcome.
Qed.

Example validation_error_located :
  json_to_groovy
    (inl [("property_keys", JArr [JObj [("name", JStr "age")]; JInt 3]);
          ("vertex_labels", JArr [])])
  = Raise (ValidationError
             [([Field "property_keys"; Index 0; Field "type"], Missing);
              ([Field "property_keys"; Index 1], ModelType);
              ([Field "edge_labels"], Missing)]).
Proof. reflexivity. Qed.

(** C6, as stated, fails on an unknown type tag: the tag is a string like any
    other, and the schema is compiled. *)
Lemma unknown_type_tag_accepted :
  json_to_groovy
    (inl [("property_keys", JArr [JObj [("name", JStr "age"); ("type", JStr "foo")]]);
          ("vertex_labels", JArr []); ("edge_labels", JArr [])])
  = Ok ("schema.propertyKey(" +:+ dq +:+ "age" +:+ dq +:+ ").asFoo().ifNotExist().create();"
          +:+ nl +:+ nl) ∧
  ¬ ∃ errors,
      json_to_groovy
        (inl [("property_keys",
               JArr [JObj [("name", JStr "age"); ("type", JStr "foo")]]);
              ("vertex_labels", JArr []); ("edge_labels", JArr [])])
      = Raise (ValidationError errors).
Proof.
  split; [reflexivity|]. intros [errors H]. vm_compute in H. discriminate H.
Qed.

(** ** Dictionaries *)

Lemma dict_get_app {V} (key : string) (pre post : list (string * V)) :
  dict_get key (pre ++ post)
  = match dict_get key pre with Some v => Some v | None => dict_get key post end.
Proof.
  induction pre as [|[k v] pre IH]; [reflexivity|]. cbn [app dict_get].
  destruct (String.eqb k key); [reflexivity | apply IH].
Qed.

(** An assignment to a key of the dictionary changes the value at the place of
    the key and nothing else. *)
Lemma dict_set_present {V} (key : string) (old new : V) (d : list (string * V)) :
  dict_get key d = Some old →
  ∃ pre post, d = (pre ++ (key, old) :: post)%list ∧ dict_get key pre = None ∧
              dict_set key new d = (pre ++ (key, new) :: post)%list.
Proof.
  induction d as [|[k v] d IH]; [done|]. cbn [dict_get dict_set].
  destruct (String.eqb k key) eqn:Hk.
  - apply String.eqb_eq in Hk as ->. intros [= ->]. by exists [], d.
  - intros (pre & post & -> & Hpre & ->)%IH. exists ((k, v) :: pre), post.
    cbn [app dict_get]. by rewrite Hk.
Qed.

Lemma dict_get_set_eq {V} (key : string) (v : V) (d : list (string * V)) :
  dict_get key (dict_set key v d) = Some v.
Proof.
  induction d as [|[k w] d IH]; cbn [dict_get dict_set].
  - by rewrite String.eqb_refl.
  - destruct (String.eqb k key) eqn:Hk; cbn [dict_get]; by rewrite Hk.
Qed.

Lemma dict_get_set_ne {V} (key key' : string) (v : V) (d : list (string * V)) :
  key ≠ key' → dict_get key' (dict_set key v d) = dict_get key' d.
Proof.
  intros Hne. induction d as [|[k w] d IH]; cbn [dict_get dict_set].
  - apply String.eqb_neq in Hne. by rewrite Hne.
  - destruct (String.eqb k key) eqn:Hk; cbn [dict_get].
    + apply String.eqb_eq in Hk as ->. apply String.eqb_neq in Hne. by rewrite Hne.
    + by rewrite IH.
Qed.

Lemma dict_set_keys {V} (key : string) (v : V) (d : list (string * V)) :
  is_Some (dict_get key d) → map fst (dict_set key v d) = map fst d.
Proof.
  intros [old (pre & post & -> & _ & ->)%(dict_set_present _ _ v)].
  by rewrite !map_app.
Qed.

(** ** Resolution of the items *)

Lemma is_file_type (d : dict) :
  is_file (default JNull (dict_get "type" d)) = true ↔
  dict_get "type" d = Some (JStr "file").
Proof.
  destruct (dict_get "type" d) as [[]|]; cbn; try (split; [done | by intros [=]]).
  rewrite String.eqb_eq. split; [by intros -> | by intros [= ->]].
Qed.

(** The loop body on a mapping item of the data model. *)
Lemma update_item_resolved (file_mapping : gmap string string) (item : json) :
  Config.item item = true →
  ∃ item', update_item file_mapping item = Ok item' ∧
           Config.resolved file_mapping item item'.
Proof.
  destruct item as [| | | | | |d]; try done. cbn [Config.item].
  unfold update_item. cbn [py_contains mbind result_bind].
  destruct (dict_get "input" d) as [input|] eqn:Hin.
  2:{ intros _. rewrite bool_decide_eq_false_2 by (by intros [? ?]).
      eexists; split; [reflexivity | by constructor]. }
  rewrite bool_decide_eq_true_2 by eauto.
  destruct input as [| | | | | |i]; try done. cbn [Config.input].
  cbn [py_getitem]. rewrite Hin. cbn [mbind result_bind py_get].
  destruct (is_file (default JNull (dict_get "type" i))) eqn:Hfile.
  2:{ intros _. eexists; split; [reflexivity|].
      eapply Config.resolved_not_file; [done|].
      intros Htype%is_file_type. congruence. }
  apply is_file_type in Hfile.
  destruct (dict_get "path" i) as [[| | | |p| |]|] eqn:Hpath; try done. intros _.
  cbn [py_getitem]. rewrite Hpath. cbn [mbind result_bind os_path_basename].
  destruct (file_mapping !! basename p) as [location|] eqn:Hmap.
  2:{ eexists; split; [reflexivity|]. by eapply Config.resolved_unmapped. }
  cbn [py_setitem mbind result_bind]. eexists; split; [reflexivity|].
  destruct (dict_set_present "input" _
              (JObj (dict_set "path" (JStr location) i)) d Hin)
    as (pre & post & -> & Hpre & ->).
  destruct (dict_set_present "path" _ (JStr location) i Hpath)
    as (ipre & ipost & -> & Hipre & ->).
  by constructor.
Qed.

Lemma mapM_update_item (file_mapping : gmap string string) (items : list json) :
  forallb Config.item items = true →
  ∃ items', mapM (update_item file_mapping) items = Ok items' ∧
            Forall2 (Config.resolved file_mapping) items items'.
Proof.
  induction items as [|item items IH]; cbn [forallb mapM].
  - intros _. exists []. by split.
  - intros [Hitem Hitems]%andb_prop.
    destruct (update_item_resolved file_mapping item Hitem) as (item' & -> & Hres).
    destruct (IH Hitems) as (items' & -> & Hall).
    exists (item' :: items'). split; [reflexivity | by constructor].
Qed.

(** The update of one of the two keys of a configuration of the data model. *)
Lemma update_key_resolved (file_mapping : gmap string string) (key : string) (d : dict) :
  Config.items (dict_get key d) = true →
  ∃ d', update_key file_mapping key (JObj d) = Ok (JObj d') ∧
        map fst d' = map fst d ∧
        (∀ key', key' ≠ key → dict_get key' d' = dict_get key' d) ∧
        match dict_get key d with
        | None => dict_get key d' = None
        | Some v => ∃ items items',
            v = JArr items ∧ dict_get key d' = Some (JArr items') ∧
            Forall2 (Config.resolved file_mapping) items items'
        end.
Proof.
  unfold update_key. cbn [py_contains mbind result_bind].
  destruct (dict_get key d) as [v|] eqn:Hget.
  2:{ intros _. rewrite bool_decide_eq_false_2 by (by intros [? ?]).
      exists d. by rewrite Hget. }
  rewrite bool_decide_eq_true_2 by eauto. cbn [Config.items].
  destruct v as [| | | | |items|]; try done. cbn [is_list_of]. intros Hitems.
  cbn [py_getitem]. rewrite Hget. cbn [mbind result_bind]. unfold update_paths.
  cbn [py_iter mbind result_bind].
  destruct (mapM_update_item file_mapping items Hitems) as (items' & -> & Hall).
  cbn [mbind result_bind py_setitem]. eexists. split; [reflexivity|].
  split; [apply dict_set_keys; by rewrite Hget|].
  split; [intros key' Hne; by apply dict_get_set_ne|].
  exists items, items'. by rewrite dict_get_set_eq.
Qed.

Lemma resolve_well_formed_ok (d : dict) (file_mapping : gmap string string) :
  Config.well_formed (JObj d) = true →
  ∃ d', update_file_paths_in_config (JObj d) file_mapping = Ok (JObj d').
Proof.
  cbn [Config.well_formed]. intros [Hv He]%andb_prop.
  unfold update_file_paths_in_config, deep_copy.
  destruct (update_key_resolved file_mapping "vertices" d Hv)
    as (d1 & -> & _ & Hother1 & _).
  cbn [mbind result_bind]. rewrite <- (Hother1 "edges") in He by done.
  destruct (update_key_resolved file_mapping "edges" d1 He) as (d2 & -> & _).
  by exists d2.
Qed.

(** What resolution makes of a job configuration of the data model. *)
Lemma resolve_items_resolved (config : json) (file_mapping : gmap string string) :
  Config.well_formed config = true →
  ∃ d d', config = JObj d ∧
          update_file_paths_in_config config file_mapping = Ok (JObj d') ∧
          map fst d' = map fst d ∧
          (∀ key, key ≠ "vertices" → key ≠ "edges" → dict_get key d' = dict_get key d) ∧
          (∀ key, key = "vertices" ∨ key = "edges" →
             match dict_get key d with
             | None => dict_get key d' = None
             | Some v => ∃ items items',
                 v = JArr items ∧ dict_get key d' = Some (JArr items') ∧
                 Forall2 (Config.resolved file_mapping) items items'
             end).
Proof.
  destruct config as [| | | | | |d]; try done. cbn [Config.well_formed].
  intros [Hv He]%andb_prop. exists d.
  unfold update_file_paths_in_config, deep_copy.
  destruct (update_key_resolved file_mapping "vertices" d Hv)
    as (d1 & -> & Hkeys1 & Hother1 & Hv1).
  cbn [mbind result_bind].
  assert (dict_get "edges" d1 = dict_get "edges" d) as Hedges
    by (by apply Hother1).
  rewrite <- Hedges in He.
  destruct (update_key_resolved file_mapping "edges" d1 He)
    as (d2 & -> & Hkeys2 & Hother2 & He2).
  exists d2. split; [reflexivity|]. split; [reflexivity|].
  split; [congruence|]. split.
  - intros key H1 H2. rewrite Hother2, Hother1 by done. reflexivity.
  - intros key [-> | ->].
    + rewrite Hother2 by done. exact Hv1.
    + rewrite <- Hedges. exact He2.
Qed.

Example resolve_people_csv :
  update_file_paths_in_config
    (JObj [("vertices",
            JArr [JObj [("label", JStr "person");
                        ("input", JObj [("type", JStr "file");
                                        ("path", JStr "/any/dir/people.csv");
                                        ("format", JStr "CSV")])]])])
    {["people.csv" := "/tmp/jobX/people.csv"]}
  = Ok (JObj [("vertices",
               JArr [JObj [("label", JStr "person");
                           ("input", JObj [("type", JStr "file");
                                           ("path", JStr "/tmp/jobX/people.csv");
                                           ("format", JStr "CSV")])]])]).
Proof. vm_compute. reflexivity. Qed.

(** ** Failures of the resolution *)

Lemma update_item_atom (file_mapping : gmap string string) (item : json) :
  Config.is_atom item = true → update_item file_mapping item = Raise TypeError.
Proof. by destruct item. Qed.

Lemma mapM_update_item_atom (file_mapping : gmap string string) (items : list json) :
  existsb Config.is_atom items = true →
  is_ok (mapM (update_item file_mapping) items) = false.
Proof.
  induction items as [|item items IH]; [done|]. cbn [existsb mapM].
  intros [Hitem|Hitems]%orb_prop.
  - by rewrite update_item_atom.
  - destruct (update_item file_mapping item); [|reflexivity].
    cbn [mbind result_bind].
    destruct (mapM (update_item file_mapping) items); [by apply IH in Hitems | done].
Qed.

Lemma update_paths_atom (file_mapping : gmap string string) (v : json) :
  Config.atom_or_holds_atom v = true → is_ok (update_paths file_mapping v) = false.
Proof.
  unfold update_paths. destruct v; try done. cbn [Config.atom_or_holds_atom py_iter].
  intros H%(mapM_update_item_atom file_mapping). cbn [mbind result_bind].
  by destruct (mapM (update_item file_mapping) items).
Qed.

Lemma update_key_atom (file_mapping : gmap string string) (key : string) (d : dict)
    (v : json) :
  dict_get key d = Some v → Config.atom_or_holds_atom v = true →
  is_ok (update_key file_mapping key (JObj d)) = false.
Proof.
  intros Hget H%(update_paths_atom file_mapping). unfold update_key.
  cbn [py_contains mbind result_bind]. rewrite bool_decide_eq_true_2 by eauto.
  cbn [py_getitem]. rewrite Hget. cbn [mbind result_bind].
  by destruct (update_paths file_mapping v).
Qed.

Lemma update_key_other_keys (file_mapping : gmap string string) (key : string)
    (d : dict) (r : json) :
  update_key file_mapping key (JObj d) = Ok r →
  ∃ d', r = JObj d' ∧ ∀ key', key' ≠ key → dict_get key' d' = dict_get key' d.
Proof.
  unfold update_key. cbn [py_contains mbind result_bind].
  destruct (dict_get key d) as [v|] eqn:Hget.
  - rewrite bool_decide_eq_true_2 by eauto. cbn [py_getitem]. rewrite Hget.
    cbn [mbind result_bind].
    destruct (update_paths file_mapping v) as [items|]; [|done].
    cbn [mbind result_bind py_setitem]. intros [= <-]. eexists. split; [reflexivity|].
    intros key' Hne. by apply dict_get_set_ne.
  - rewrite bool_decide_eq_false_2 by (by intros [? ?]). intros [= <-]. by exists d.
Qed.

(** C7, as stated, fails in both directions. An object in place of the
    sequence is accepted: the loop goes through its keys, which are strings.
    A sequence of objects is rejected when the [input] of one of them is not
    an object. *)
Lemma resolve_shape_not_checked :
  (Config.misshapen "vertices" [("vertices", JObj [("label", JStr "person")])] = true ∧
   update_file_paths_in_config (JObj [("vertices", JObj [("label", JStr "person")])]) ∅
   = Ok (JObj [("vertices", JObj [("label", JStr "person")])])) ∧
  (Config.misshapen "vertices" [("vertices", JArr [JObj [("input", JInt 5)]])] = false ∧
   Config.misshapen "edges" [("vertices", JArr [JObj [("input", JInt 5)]])] = false ∧
   update_file_paths_in_config (JObj [("vertices", JArr [JObj [("input", JInt 5)]])]) ∅
   = Raise AttributeError).
Proof. repeat split; vm_compute; reflexivity. Qed.

(** ** The store *)

Section store.
Import Store.

Lemma json_ind_nested (P : json → Prop) :
  P JNull → (∀ b, P (JBool b)) → (∀ z, P (JInt z)) → (∀ r, P (JFloat r)) →
  (∀ s, P (JStr s)) →
  (∀ items, Forall P items → P (JArr items)) →
  (∀ fields, Forall (λ kv, P (snd kv)) fields → P (JObj fields)) →
  ∀ j, P j.
Proof.
  intros Hnull Hbool Hint Hfloat Hstr Harr Hobj. fix IH 1.
  intros [| b | z | r | s | items | fields].
  - exact Hnull.
  - apply Hbool.
  - apply Hint.
  - apply Hfloat.
  - apply Hstr.
  - apply Harr. induction items as [|j items IHitems]; constructor;
      [apply IH | exact IHitems].
  - apply Hobj. induction fields as [|[k j] fields IHfields]; constructor;
      [apply IH | exact IHfields].
Qed.

Lemma extends_refl (h : heap) : extends h h.
Proof. exists []. by rewrite app_nil_r. Qed.

Variable h0 : heap.

Lemma preserves_ret {A} (P : A → Prop) (a : A) : P a → preserves h0 P (mret a).
Proof. intros Ha h Hh. split; [exact Hh|]. by intros ? [= <-]. Qed.

Lemma preserves_raise {A} (P : A → Prop) (e : exception) : preserves h0 P (raise e).
Proof. intros h Hh. by split. Qed.

Lemma preserves_bind {A B} (P : A → Prop) (Q : B → Prop) (c : M A) (f : A → M B) :
  preserves h0 P c → (∀ a, P a → preserves h0 Q (f a)) → preserves h0 Q (c ≫= f).
Proof.
  intros Hc Hf h Hh. destruct (Hc h Hh) as [Hext HP].
  unfold mbind, M_bind. destruct (c h) as [h' [a|e]]; cbn [fst snd] in *.
  - by apply Hf; [apply HP|].
  - by split.
Qed.

Lemma preserves_weaken {A} (P Q : A → Prop) (c : M A) :
  (∀ a, P a → Q a) → preserves h0 P c → preserves h0 Q c.
Proof. intros HPQ Hc h Hh. destruct (Hc h Hh). split; auto. Qed.

Lemma preserves_alloc (o : object) :
  object_from (List.length h0) o → preserves h0 (value_from (List.length h0)) (alloc o).
Proof.
  intros Ho h (new & -> & Hnew). unfold alloc. cbn [fst snd]. split.
  - exists (new ++ [o])%list. split; [by rewrite app_assoc|].
    apply Forall_app. by split; [|apply Forall_singleton].
  - intros a [= <-]. cbn. rewrite length_app. lia.
Qed.

Lemma preserves_read (l : loc) :
  (List.length h0 ≤ l)%nat → preserves h0 (object_from (List.length h0)) (read l).
Proof.
  intros Hl h (new & -> & Hnew). unfold read. cbv beta.
  destruct ((h0 ++ new)%list !! l) as [o|] eqn:Hlookup; cbn [fst snd].
  - split; [by exists new|]. intros a [= <-].
    rewrite lookup_app_r in Hlookup by done.
    by eapply (Forall_lookup_1 _ _ _ _ Hnew).
  - split; [by exists new | done].
Qed.

Lemma preserves_write (l : loc) (o : object) :
  (List.length h0 ≤ l)%nat → object_from (List.length h0) o →
  preserves h0 (λ _, True) (write l o).
Proof.
  intros Hl Ho h (new & -> & Hnew). unfold write. cbn [fst snd]. split; [|done].
  exists (<[l - List.length h0 := o]> new). split.
  - by rewrite insert_app_r_alt.
  - by apply Forall_insert.
Qed.

Lemma preserves_json_dumps (v : value) : preserves h0 (λ _, True) (json_dumps v).
Proof.
  intros h Hh. unfold json_dumps. cbv beta.
  by destruct (dumps_fuel (List.length h) h v); cbn [fst snd].
Qed.

(** [json.loads] builds its result out of new objects. *)
Lemma preserves_json_loads (j : json) :
  preserves h0 (value_from (List.length h0)) (json_loads j).
Proof.
  induction j as [| b | z | r | s | items IH | fields IH] using json_ind_nested;
    try (by apply preserves_ret).
  - cbn [json_loads].
    eapply (preserves_bind (Forall (value_from (List.length h0))));
      [|intros vs Hvs; by apply preserves_alloc].
    induction IH as [|j items Hj _ IHitems]; [by apply preserves_ret|].
    eapply preserves_bind; [exact Hj|]. intros v Hv.
    eapply preserves_bind; [exact IHitems|]. intros vs Hvs.
    apply preserves_ret. by constructor.
  - cbn [json_loads].
    eapply (preserves_bind (Forall (λ kv, value_from (List.length h0) (snd kv))));
      [|intros kvs Hkvs; by apply preserves_alloc].
    induction IH as [|kv fields Hj _ IHfields]; [by apply preserves_ret|].
    eapply preserves_bind; [exact Hj|]. intros v Hv.
    eapply preserves_bind; [exact IHfields|]. intros kvs Hkvs.
    apply preserves_ret. by constructor.
Qed.

End store.

Section resolver_on_the_store.
Import Store.

Variable h0 : heap.
Variable file_mapping : gmap string string.

Local Abbreviation fresh := (value_from (List.length h0)).

Lemma dict_get_Forall {V} (P : V → Prop) (key : string) (d : list (string * V)) (v : V) :
  Forall (λ kv, P (snd kv)) d → dict_get key d = Some v → P v.
Proof.
  induction 1 as [|[k w] d Hw _ IH]; [done|]. cbn [dict_get].
  destruct (String.eqb k key); [by intros [= <-] | exact IH].
Qed.

Lemma dict_set_Forall {V} (P : V → Prop) (key : string) (v : V) (d : list (string * V)) :
  P v → Forall (λ kv, P (snd kv)) d → Forall (λ kv, P (snd kv)) (dict_set key v d).
Proof.
  intros Hv. induction 1 as [|[k w] d Hw Hd IH]; cbn [dict_set].
  - by constructor.
  - destruct (String.eqb k key); by constructor.
Qed.

Lemma preserves_py_contains (key : string) (container : value) :
  fresh container → preserves h0 (λ _, True) (py_contains key container).
Proof.
  destruct container; intros Hc; try apply preserves_raise; [by apply preserves_ret|].
  cbn [py_contains]. eapply preserves_bind; [by apply preserves_read|].
  intros [items|d] _; by apply preserves_ret.
Qed.

Lemma preserves_py_getitem (container : value) (key : string) :
  fresh container → preserves h0 fresh (py_getitem container key).
Proof.
  destruct container; intros Hc; try apply preserves_raise.
  cbn [py_getitem]. eapply preserves_bind; [by apply preserves_read|].
  intros [items|d] Ho; [apply preserves_raise|].
  destruct (dict_get key d) as [v|] eqn:Hget; [|apply preserves_raise].
  apply preserves_ret. by eapply (dict_get_Forall fresh).
Qed.

Lemma preserves_py_get (container : value) (key : string) :
  fresh container → preserves h0 fresh (py_get container key).
Proof.
  destruct container; intros Hc; try apply preserves_raise.
  cbn [py_get]. eapply preserves_bind; [by apply preserves_read|].
  intros [items|d] Ho; [apply preserves_raise|]. apply preserves_ret.
  destruct (dict_get key d) as [v|] eqn:Hget; [|done].
  by eapply (dict_get_Forall fresh).
Qed.

Lemma preserves_py_setitem (container : value) (key : string) (v : value) :
  fresh container → fresh v → preserves h0 (λ _, True) (py_setitem container key v).
Proof.
  destruct container; intros Hc Hv; try apply preserves_raise.
  cbn [py_setitem]. eapply preserves_bind; [by apply preserves_read|].
  intros [items|d] Ho; [apply preserves_raise|].
  apply preserves_write; [done|]. by apply (dict_set_Forall fresh).
Qed.

Lemma preserves_py_iter (items : value) :
  fresh items → preserves h0 (Forall fresh) (py_iter items).
Proof.
  destruct items; intros Hc; try apply preserves_raise.
  - apply preserves_ret. by apply Forall_fmap, Forall_true.
  - cbn [py_iter]. eapply preserves_bind; [by apply preserves_read|].
    intros [vs|d] Ho; apply preserves_ret; [done|].
    by apply Forall_fmap, Forall_true.
Qed.

Lemma preserves_os_path_basename (p : value) :
  preserves h0 (λ _, True) (os_path_basename p).
Proof. destruct p; try apply preserves_raise. by apply preserves_ret. Qed.

Lemma preserves_update_item (item : value) :
  fresh item → preserves h0 (λ _, True) (update_item file_mapping item).
Proof.
  intros Hitem. unfold update_item.
  eapply preserves_bind; [by apply preserves_py_contains|].
  intros [] _; [|by apply preserves_ret].
  eapply preserves_bind; [by apply preserves_py_getitem|]. intros input Hinput.
  eapply preserves_bind; [by apply preserves_py_get|]. intros type _.
  destruct (is_file type); [|by apply preserves_ret].
  eapply preserves_bind; [by apply preserves_py_getitem|]. intros input' Hinput'.
  eapply preserves_bind; [by apply preserves_py_getitem|]. intros path _.
  eapply preserves_bind; [by apply preserves_os_path_basename|]. intros filename _.
  destruct (file_mapping !! filename) as [location|]; [|by apply preserves_ret].
  eapply preserves_bind; [by apply preserves_py_getitem|]. intros input'' Hinput''.
  by apply preserves_py_setitem.
Qed.

Lemma preserves_for_each {A} (P : A → Prop) (body : A → M unit) (xs : list A) :
  (∀ x, P x → preserves h0 (λ _, True) (body x)) → Forall P xs →
  preserves h0 (λ _, True) (for_each body xs).
Proof.
  intros Hbody. induction 1 as [|x xs Hx _ IH]; cbn [for_each].
  - by apply preserves_ret.
  - eapply preserves_bind; [by apply Hbody|]. by intros _ _.
Qed.

Lemma preserves_update_paths (items : value) :
  fresh items → preserves h0 fresh (update_paths file_mapping items).
Proof.
  intros Hitems. unfold update_paths.
  eapply preserves_bind; [by apply preserves_py_iter|]. intros elems Helems.
  eapply preserves_bind;
    [by eapply preserves_for_each; [apply preserves_update_item|]|].
  intros _ _. by apply preserves_ret.
Qed.

Lemma preserves_update_key (key : string) (updated_config : value) :
  fresh updated_config →
  preserves h0 (λ _, True) (update_key file_mapping key updated_config).
Proof.
  intros Hconfig. unfold update_key.
  eapply preserves_bind; [by apply preserves_py_contains|].
  intros [] _; [|by apply preserves_ret].
  eapply preserves_bind; [by apply preserves_py_getitem|]. intros items Hitems.
  eapply preserves_bind; [by apply preserves_update_paths|]. intros items' Hitems'.
  by apply preserves_py_setitem.
Qed.

Lemma preserves_update_file_paths_in_config (config : value) :
  preserves h0 fresh (Store.update_file_paths_in_config config file_mapping).
Proof.
  unfold Store.update_file_paths_in_config.
  eapply preserves_bind; [apply preserves_json_dumps|]. intros text _.
  eapply preserves_bind; [apply preserves_json_loads|]. intros updated Hupdated.
  eapply preserves_bind; [by apply preserves_update_key|]. intros _ _.
  eapply preserves_bind; [by apply preserves_update_key|]. intros _ _.
  by apply preserves_ret.
Qed.

End resolver_on_the_store.

(** A value stands for the same tree in a store with more objects. *)
Lemma dumps_fuel_app (fuel : nat) (h new : list Store.object) (v : Store.value)
    (j : json) :
  Store.dumps_fuel fuel h v = Some j → Store.dumps_fuel fuel (h ++ new) v = Some j.
Proof.
  revert v j. induction fuel as [|fuel IH]; intros [| | | | |l] j; try done.
  cbn [Store.dumps_fuel].
  destruct (h !! l) as [o|] eqn:Hl; [|done].
  rewrite (lookup_app_l_Some _ _ _ _ Hl). destruct o as [items|fields].
  - intros (js & Hjs & ->)%fmap_Some. apply fmap_Some. exists js. split; [|done].
    apply mapM_Some in Hjs. apply mapM_Some. eapply Forall2_impl; [exact Hjs|].
    intros x y. apply IH.
  - intros (js & Hjs & ->)%fmap_Some. apply fmap_Some. exists js. split; [|done].
    apply mapM_Some in Hjs. apply mapM_Some. eapply Forall2_impl; [exact Hjs|].
    intros [k x] [k' y]. cbn [fst snd].
    intros (y' & Hy & [= -> ->])%fmap_Some. apply fmap_Some. exists y'.
    split; [by apply IH | done].
Qed.

(** C2: whatever the store and the configuration are, and whether the call
    returns or raises, the store after the call has every object that was
    there before, unchanged, and beyond them objects that refer to one another
    only; the configuration returned is made of these new objects; and the
    caller's configuration stands for the same tree as before the call. *)
Theorem resolve_keeps_the_original (h : list Store.object) (config : Store.value)
    (file_mapping : gmap string string) :
  let after := Store.update_file_paths_in_config config file_mapping h in
  (∃ new, fst after = (h ++ new)%list ∧ Forall (object_from (List.length h)) new) ∧
  (∀ updated_config, snd after = Ok updated_config →
                     value_from (List.length h) updated_config) ∧
  (∀ fuel j, Store.dumps_fuel fuel h config = Some j →
             Store.dumps_fuel fuel (fst after) config = Some j).
Proof.
  intros after.
  destruct (preserves_update_file_paths_in_config h file_mapping config h
              (extends_refl h)) as [(new & Hnew & Hall) Hresult].
  fold after in Hnew, Hresult. split; [by exists new|]. split; [exact Hresult|].
  intros fuel j Hj. rewrite Hnew. by apply dumps_fuel_app.
Qed.

Example resolve_on_the_store :
  Store.update_file_paths_in_config (Store.VRef 3)
    {["people.csv" := "/tmp/jobX/people.csv"]}
    [Store.ODict [("type", Store.VStr "file"); ("path", Store.VStr "/in/people.csv")];
     Store.ODict [("label", Store.VStr "person"); ("input", Store.VRef 0)];
     Store.OList [Store.VRef 1];
     Store.ODict [("vertices", Store.VRef 2)]]
  = ([Store.ODict [("type", Store.VStr "file"); ("path", Store.VStr "/in/people.csv")];
      Store.ODict [("label", Store.VStr "person"); ("input", Store.VRef 0)];
      Store.OList [Store.VRef 1];
      Store.ODict [("vertices", Store.VRef 2)];
      Store.ODict [("type", Store.VStr "file");
                   ("path", Store.VStr "/tmp/jobX/people.csv")];
      Store.ODict [("label", Store.VStr "person"); ("input", Store.VRef 4)];
      Store.OList [Store.VRef 5];
      Store.ODict [("vertices", Store.VRef 6)]],
     Ok (Store.VRef 7)).
Proof. vm_compute. reflexivity. Qed.

(** ** The resolver on the store computes the resolver on trees *)

Section layout.
Import Store.

Lemma layout_arr (lo : nat) (items : list json) :
  layout lo (JArr items) = (layout_list lo items ++ [OList (roots lo items)])%list.
Proof.
  cbn [layout]. f_equal.
Qed.

Lemma layout_obj (lo : nat) (fields : dict) :
  layout lo (JObj fields)
  = (layout_fields lo fields ++ [ODict (roots_fields lo fields)])%list.
Proof.
  cbn [layout]. f_equal.
Qed.

Lemma length_layout (lo : nat) (j : json) : List.length (layout lo j) = size j.
Proof.
  revert lo. induction j as [| | | | |items IH|fields IH] using json_ind_nested;
    intros lo; try reflexivity.
  - rewrite layout_arr, length_app. cbn [List.length size].
    rewrite Nat.add_1_r. f_equal. revert lo.
    induction IH as [|j items Hj _ IHitems]; intros lo; [reflexivity|].
    cbn [layout_list foldr]. by rewrite length_app, Hj, IHitems.
  - rewrite layout_obj, length_app. cbn [List.length size].
    rewrite Nat.add_1_r. f_equal. revert lo.
    induction IH as [|kv fields Hj _ IHfields]; intros lo; [reflexivity|].
    cbn [layout_fields foldr]. by rewrite length_app, Hj, IHfields.
Qed.

Lemma length_layout_list (lo : nat) (items : list json) :
  List.length (layout_list lo items) = sizes items.
Proof.
  revert lo. induction items as [|j items IH]; intros lo; [reflexivity|].
  cbn [layout_list sizes foldr]. rewrite length_app, length_layout, IH. reflexivity.
Qed.

Lemma length_layout_fields (lo : nat) (fields : dict) :
  List.length (layout_fields lo fields) = sizes_fields fields.
Proof.
  revert lo. induction fields as [|kv fields IH]; intros lo; [reflexivity|].
  cbn [layout_fields sizes_fields foldr]. rewrite length_app, length_layout, IH.
  reflexivity.
Qed.

(** [json.loads] appends the layout of the tree to the store. *)
Lemma json_loads_layout (j : json) (h : heap) :
  json_loads j h = ((h ++ layout (List.length h) j)%list, Ok (root (List.length h) j)).
Proof.
  revert h. induction j as [| | | | |items IH|fields IH] using json_ind_nested;
    intros h; try (cbn; by rewrite app_nil_r).
  - rewrite layout_arr. cbn [json_loads root].
    unfold mbind at 1, M_bind.
    match goal with |- context [?go items h] =>
      assert (∀ h, go items h = ((h ++ layout_list (List.length h) items)%list,
                                 Ok (roots (List.length h) items))) as ->
    end.
    { clear h. induction IH as [|j items Hj _ IHitems]; intros h.
      - cbn. by rewrite app_nil_r.
      - unfold mbind at 1, M_bind. rewrite Hj. unfold mbind at 1, M_bind.
        rewrite IHitems. cbn [mret M_ret layout_list roots].
        rewrite length_app, length_layout, <- app_assoc. reflexivity. }
    unfold alloc. rewrite length_app, length_layout_list, <- app_assoc. reflexivity.
  - rewrite layout_obj. cbn [json_loads root].
    unfold mbind at 1, M_bind.
    match goal with |- context [?go fields h] =>
      assert (∀ h, go fields h = ((h ++ layout_fields (List.length h) fields)%list,
                                  Ok (roots_fields (List.length h) fields))) as ->
    end.
    { clear h. induction IH as [|kv fields Hj _ IHfields]; intros h.
      - cbn. by rewrite app_nil_r.
      - unfold mbind at 1, M_bind. rewrite Hj. unfold mbind at 1, M_bind.
        rewrite IHfields. cbn [mret M_ret layout_fields roots_fields].
        rewrite length_app, length_layout, <- app_assoc. reflexivity. }
    unfold alloc. rewrite length_app, length_layout_fields, <- app_assoc. reflexivity.
Qed.

End layout.

Section places.
Import Store.
Local Open Scope list_scope.

Lemma sizes_fields_app (pre post : dict) :
  sizes_fields (pre ++ post) = (sizes_fields pre + sizes_fields post)%nat.
Proof. unfold sizes_fields. induction pre as [|kv pre IH]; cbn; [done | lia]. Qed.

Lemma sizes_app (pre post : list json) :
  sizes (pre ++ post) = (sizes pre + sizes post)%nat.
Proof. unfold sizes. induction pre as [|j pre IH]; cbn; [done | lia]. Qed.

Lemma layout_fields_app (lo : nat) (pre post : dict) :
  layout_fields lo (pre ++ post)
  = (layout_fields lo pre ++ layout_fields (lo + sizes_fields pre) post)%list.
Proof.
  revert lo. induction pre as [|kv pre IH]; intros lo.
  - cbn. by rewrite Nat.add_0_r.
  - cbn [app layout_fields]. rewrite IH, <- app_assoc. do 3 f_equal.
    unfold sizes_fields. cbn. lia.
Qed.

Lemma layout_list_app (lo : nat) (pre post : list json) :
  layout_list lo (pre ++ post)
  = (layout_list lo pre ++ layout_list (lo + sizes pre) post)%list.
Proof.
  revert lo. induction pre as [|j pre IH]; intros lo.
  - cbn. by rewrite Nat.add_0_r.
  - cbn [app layout_list]. rewrite IH, <- app_assoc. do 3 f_equal.
    unfold sizes. cbn. lia.
Qed.

Lemma roots_fields_app (lo : nat) (pre post : dict) :
  roots_fields lo (pre ++ post)
  = (roots_fields lo pre ++ roots_fields (lo + sizes_fields pre) post)%list.
Proof.
  revert lo. induction pre as [|kv pre IH]; intros lo.
  - cbn. by rewrite Nat.add_0_r.
  - cbn [app roots_fields]. rewrite IH. do 3 f_equal. unfold sizes_fields. cbn. lia.
Qed.

Lemma roots_app (lo : nat) (pre post : list json) :
  roots lo (pre ++ post) = (roots lo pre ++ roots (lo + sizes pre) post)%list.
Proof.
  revert lo. induction pre as [|j pre IH]; intros lo.
  - cbn. by rewrite Nat.add_0_r.
  - cbn [app roots]. rewrite IH. do 3 f_equal. unfold sizes. cbn. lia.
Qed.

Lemma same_place_refl (j : json) : same_place j j.
Proof. by split. Qed.

Lemma same_place_fields (pre post : dict) (key : string) (x x' : json) :
  same_place x x' →
  sizes_fields (pre ++ (key, x) :: post) = sizes_fields (pre ++ (key, x') :: post) ∧
  ∀ lo, roots_fields lo (pre ++ (key, x) :: post)
        = roots_fields lo (pre ++ (key, x') :: post).
Proof.
  intros [Hsize Hroot]. split.
  - rewrite !sizes_fields_app. unfold sizes_fields. cbn. by rewrite Hsize.
  - intros lo. rewrite !roots_fields_app. cbn [roots_fields fst snd].
    by rewrite Hsize, Hroot.
Qed.

Lemma same_place_obj (pre post : dict) (key : string) (x x' : json) :
  same_place x x' →
  same_place (JObj (pre ++ (key, x) :: post)) (JObj (pre ++ (key, x') :: post)).
Proof.
  intros [Hsizes Hroots]%(same_place_fields pre post key). split.
  - cbn [size]. fold (sizes_fields (pre ++ (key, x) :: post)).
    fold (sizes_fields (pre ++ (key, x') :: post)). by rewrite Hsizes.
  - intros lo. cbn [root]. by rewrite Hsizes.
Qed.

(** A tree in a dictionary has its place in the store; a tree that fills the
    same place can stand there instead. *)
Lemma store_with_field (before after : list object) (pre post : dict) (key : string)
    (x : json) :
  ∃ before' after',
    List.length before' = (List.length before + sizes_fields pre)%nat ∧
    ∀ x', same_place x x' →
          store_with before (JObj (pre ++ (key, x') :: post)) after
          = store_with before' x' after'.
Proof.
  exists (before ++ layout_fields (List.length before) pre)%list.
  exists (layout_fields (List.length before + sizes_fields pre + size x) post
          ++ [ODict (roots_fields (List.length before) (pre ++ (key, x) :: post))]
          ++ after)%list.
  split; [by rewrite length_app, length_layout_fields|].
  intros x' Hx. destruct (same_place_fields pre post key x x' Hx) as [_ Hroots].
  destruct Hx as [Hsize _]. unfold store_with.
  rewrite layout_obj, layout_fields_app. cbn [layout_fields snd].
  rewrite length_app, length_layout_fields, Hroots, Hsize.
  by rewrite <- !app_assoc.
Qed.

Lemma lookup_root_obj (before after : list object) (fields : dict) :
  store_with before (JObj fields) after
    !! (List.length before + sizes_fields fields)%nat
  = Some (ODict (roots_fields (List.length before) fields)).
Proof.
  unfold store_with. rewrite layout_obj.
  rewrite lookup_app_r by lia. rewrite <- app_assoc.
  rewrite lookup_app_r by (rewrite length_layout_fields; lia).
  rewrite length_layout_fields.
  replace (_ - _ - _)%nat with 0%nat by lia. reflexivity.
Qed.

Lemma lookup_root_arr (before after : list object) (items : list json) :
  store_with before (JArr items) after !! (List.length before + sizes items)%nat
  = Some (OList (roots (List.length before) items)).
Proof.
  unfold store_with. rewrite layout_arr.
  rewrite lookup_app_r by lia. rewrite <- app_assoc.
  rewrite lookup_app_r by (rewrite length_layout_list; lia).
  rewrite length_layout_list.
  replace (_ - _ - _)%nat with 0%nat by lia. reflexivity.
Qed.

End places.

Section operations.
Local Open Scope list_scope.

Lemma run_bind {A B} (c : Store.M A) (f : A → Store.M B) (h : list Store.object) :
  (c ≫= f) h = match c h with
               | (h', Ok a) => f a h'
               | (h', Raise e) => (h', Raise e)
               end.
Proof. reflexivity. Qed.

Lemma bool_decide_is_Some {A} (o : option A) :
  bool_decide (is_Some o) = match o with Some _ => true | None => false end.
Proof.
  destruct o; [by apply bool_decide_eq_true_2 | apply bool_decide_eq_false_2].
  by intros [? ?].
Qed.

Lemma dict_set_middle {V} (key : string) (old new : V) (pre post : list (string * V)) :
  dict_get key pre = None →
  dict_set key new (pre ++ (key, old) :: post) = pre ++ (key, new) :: post.
Proof.
  intros Hpre. induction pre as [|[k v] pre IH]; cbn [app dict_set].
  - by rewrite String.eqb_refl.
  - cbn [dict_get] in Hpre. destruct (String.eqb k key); [done|]. by rewrite IH.
Qed.

Lemma dict_get_middle {V} (key : string) (v : V) (pre post : list (string * V)) :
  dict_get key pre = None → dict_get key (pre ++ (key, v) :: post) = Some v.
Proof.
  intros Hpre. rewrite dict_get_app, Hpre. cbn [dict_get]. by rewrite String.eqb_refl.
Qed.

Lemma dict_get_split {V} (key : string) (v : V) (d : list (string * V)) :
  dict_get key d = Some v →
  ∃ pre post, d = pre ++ (key, v) :: post ∧ dict_get key pre = None.
Proof.
  intros (pre & post & ? & ? & _)%(dict_set_present key v v). by exists pre, post.
Qed.

Lemma dict_get_roots_fields (key : string) (lo : nat) (d : dict) :
  ∃ lo', dict_get key (roots_fields lo d) = root lo' <$> dict_get key d.
Proof.
  revert lo. induction d as [|[k v] d IH]; intros lo; [by exists lo|].
  cbn [dict_get roots_fields fst snd]. destruct (String.eqb k key); [by exists lo | apply IH].
Qed.

Lemma dict_get_roots_fields_middle (key : string) (lo : nat) (x : json) (pre post : dict) :
  dict_get key pre = None →
  dict_get key (roots_fields lo (pre ++ (key, x) :: post))
  = Some (root (lo + sizes_fields pre) x).
Proof.
  intros Hpre. rewrite roots_fields_app. cbn [roots_fields fst snd].
  apply dict_get_middle. destruct (dict_get_roots_fields key lo pre) as [lo' ->].
  by rewrite Hpre.
Qed.

Lemma existsb_roots (key : string) (lo : nat) (items : list json) :
  existsb (λ x, match x with Store.VStr s => String.eqb s key | _ => false end)
          (roots lo items)
  = existsb (λ x, match x with JStr s => String.eqb s key | _ => false end) items.
Proof.
  revert lo. induction items as [|j items IH]; intros lo; [done|].
  cbn [roots existsb]. rewrite IH. by destruct j.
Qed.

Lemma is_file_root (lo : nat) (j : json) : Store.is_file (root lo j) = is_file j.
Proof. by destruct j. Qed.

Lemma os_path_basename_root (lo : nat) (p : json) (h : list Store.object) :
  Store.os_path_basename (root lo p) h = (h, os_path_basename p).
Proof. by destruct p. Qed.

(** The operations on a tree laid out in the store. *)
Context (before after : list Store.object).
Local Abbreviation lo := (List.length before).

Lemma py_contains_root (key : string) (j : json) :
  Store.py_contains key (root lo j) (store_with before j after)
  = (store_with before j after, py_contains key j).
Proof.
  destruct j as [| | | | |items|d]; try reflexivity.
  - cbn [root Store.py_contains py_contains]. rewrite run_bind. unfold Store.read.
    rewrite lookup_root_arr. cbn [mret Store.M_ret]. by rewrite existsb_roots.
  - cbn [root Store.py_contains py_contains]. rewrite run_bind. unfold Store.read.
    rewrite lookup_root_obj. cbn [mret Store.M_ret].
    rewrite !bool_decide_is_Some.
    destruct (dict_get_roots_fields key lo d) as [lo' ->]. by destruct (dict_get key d).
Qed.

Lemma py_getitem_root_raise (key : string) (j : json) (e : exception) :
  py_getitem j key = Raise e →
  Store.py_getitem (root lo j) key (store_with before j after)
  = (store_with before j after, Raise e).
Proof.
  destruct j as [| | | | |items|d]; cbn [py_getitem]; try by intros [= <-].
  - intros [= <-]. cbn [root Store.py_getitem]. rewrite run_bind. unfold Store.read.
    by rewrite lookup_root_arr.
  - intros Hget. cbn [root Store.py_getitem]. rewrite run_bind. unfold Store.read.
    rewrite lookup_root_obj. destruct (dict_get_roots_fields key lo d) as [lo' ->].
    destruct (dict_get key d); [done|]. by injection Hget as <-.
Qed.

Lemma py_getitem_root_field (key : string) (x : json) (pre post : dict) :
  dict_get key pre = None →
  Store.py_getitem (root lo (JObj (pre ++ (key, x) :: post))) key
                   (store_with before (JObj (pre ++ (key, x) :: post)) after)
  = (store_with before (JObj (pre ++ (key, x) :: post)) after,
     Ok (root (lo + sizes_fields pre) x)).
Proof.
  intros Hpre. cbn [root Store.py_getitem]. rewrite run_bind. unfold Store.read.
  rewrite lookup_root_obj. by rewrite dict_get_roots_fields_middle.
Qed.

Lemma py_get_root_raise (key : string) (j : json) (e : exception) :
  py_get j key = Raise e →
  Store.py_get (root lo j) key (store_with before j after)
  = (store_with before j after, Raise e).
Proof.
  destruct j as [| | | | |items|d]; cbn [py_get]; try by intros [= <-].
  intros [= <-]. cbn [root Store.py_get]. rewrite run_bind. unfold Store.read.
  by rewrite lookup_root_arr.
Qed.

Lemma py_get_root_obj (key : string) (d : dict) :
  ∃ lo', Store.py_get (root lo (JObj d)) key (store_with before (JObj d) after)
         = (store_with before (JObj d) after,
            Ok (root lo' (default JNull (dict_get key d)))).
Proof.
  destruct (dict_get_roots_fields key lo d) as [lo' Hget]. exists lo'.
  cbn [root Store.py_get]. rewrite run_bind. unfold Store.read.
  rewrite lookup_root_obj. cbn [mret Store.M_ret]. rewrite Hget.
  by destruct (dict_get key d).
Qed.

(** Assigning a string to a key that held a string, a number or [None]
    overwrites the object of the dictionary and nothing else. *)
Lemma py_setitem_root_leaf (key s : string) (old : json) (pre post : dict) :
  dict_get key pre = None → size old = 0%nat →
  Store.py_setitem (root lo (JObj (pre ++ (key, old) :: post))) key (Store.VStr s)
                   (store_with before (JObj (pre ++ (key, old) :: post)) after)
  = (store_with before (JObj (pre ++ (key, JStr s) :: post)) after, Ok tt).
Proof.
  intros Hpre Hold. cbn [root Store.py_setitem]. rewrite run_bind. unfold Store.read.
  rewrite lookup_root_obj. unfold Store.write. f_equal.
  unfold store_with. rewrite !layout_obj, !layout_fields_app.
  cbn [layout_fields snd]. rewrite Hold. cbn [size].
  assert (layout (lo + sizes_fields pre) old = []) as ->.
  { apply length_zero_iff_nil. by rewrite length_layout. }
  cbn [layout app].
  rewrite insert_app_r_alt by lia. f_equal.
  set (objects := layout_fields lo pre ++ layout_fields (lo + sizes_fields pre + 0) post).
  rewrite <- !app_assoc.
  assert (List.length objects = sizes_fields (pre ++ (key, old) :: post)) as Hlen.
  { unfold objects. rewrite length_app, !length_layout_fields, sizes_fields_app.
    change (sizes_fields ((key, old) :: post)) with (size old + sizes_fields post)%nat.
    by rewrite Hold. }
  rewrite insert_app_r_alt by lia.
  replace (_ - _ - _)%nat with 0%nat by lia.
  cbn [insert list_insert app]. do 3 f_equal.
  rewrite !roots_fields_app. cbn [roots_fields fst snd]. rewrite Hold. cbn [size].
  apply dict_set_middle. destruct (dict_get_roots_fields key lo pre) as [lo' ->].
  by rewrite Hpre.
Qed.

(** Assigning to a key the value it holds changes nothing. *)
Lemma py_setitem_root_same (key : string) (x : json) (pre post : dict) :
  dict_get key pre = None →
  Store.py_setitem (root lo (JObj (pre ++ (key, x) :: post))) key
                   (root (lo + sizes_fields pre) x)
                   (store_with before (JObj (pre ++ (key, x) :: post)) after)
  = (store_with before (JObj (pre ++ (key, x) :: post)) after, Ok tt).
Proof.
  intros Hpre. cbn [root Store.py_setitem]. rewrite run_bind. unfold Store.read.
  rewrite lookup_root_obj. unfold Store.write. f_equal.
  apply list_insert_id. rewrite lookup_root_obj. do 2 f_equal.
  rewrite roots_fields_app. cbn [roots_fields fst snd]. symmetry.
  apply dict_set_middle. destruct (dict_get_roots_fields key lo pre) as [lo' ->].
  by rewrite Hpre.
Qed.

End operations.

Section simulation.
Local Open Scope list_scope.
Context (file_mapping : gmap string string).

Lemma ok_bind {A B} (a : A) (f : A → result B) : Ok a ≫= f = f a.
Proof. reflexivity. Qed.

Lemma raise_bind {A B} (e : exception) (f : A → result B) : Raise e ≫= f = Raise e.
Proof. reflexivity. Qed.

Lemma same_place_leaf (pre post : dict) (key : string) (x x' : json) :
  size x = size x' →
  same_place (JObj (pre ++ (key, x) :: post)) (JObj (pre ++ (key, x') :: post)).
Proof.
  intros Hsize.
  assert (sizes_fields (pre ++ (key, x) :: post) = sizes_fields (pre ++ (key, x') :: post))
    as Hsizes.
  { rewrite !sizes_fields_app. unfold sizes_fields. cbn. by rewrite Hsize. }
  split.
  - cbn [size]. fold (sizes_fields (pre ++ (key, x) :: post)).
    fold (sizes_fields (pre ++ (key, x') :: post)). by rewrite Hsizes.
  - intros lo. cbn [root]. by rewrite Hsizes.
Qed.

(** One iteration of the loop, on the store and on the tree. *)
Lemma update_item_root (before after : list Store.object) (item : json) :
  match update_item file_mapping item with
  | Ok item' =>
      Store.update_item file_mapping (root (List.length before) item)
                        (store_with before item after)
      = (store_with before item' after, Ok tt) ∧ same_place item item'
  | Raise e =>
      snd (Store.update_item file_mapping (root (List.length before) item)
                             (store_with before item after)) = Raise e
  end.
Proof.
  unfold update_item, Store.update_item.
  rewrite run_bind, py_contains_root.
  destruct item as [| | | | s |items|d]; try reflexivity.
  - cbn [py_contains]. rewrite ok_bind. destruct (is_substring "input" s); [reflexivity|].
    split; [reflexivity | apply same_place_refl].
  - cbn [py_contains]. rewrite ok_bind.
    destruct (existsb _ items).
    + rewrite run_bind, (py_getitem_root_raise _ _ _ _ TypeError) by reflexivity.
      reflexivity.
    + split; [reflexivity | apply same_place_refl].
  - cbn [py_contains]. rewrite ok_bind, bool_decide_is_Some.
    destruct (dict_get "input" d) as [input|] eqn:Hinput;
      [|split; [reflexivity | apply same_place_refl]].
    destruct (dict_get_split _ _ _ Hinput) as (pre & post & -> & Hpre).
    cbn [py_getitem]. rewrite Hinput, ok_bind.
    rewrite run_bind, py_getitem_root_field by done.
    destruct (store_with_field before after pre post "input" input)
      as (before' & after' & Hlen & Hstore).
    pose proof (Hstore input (same_place_refl input)) as Hitem.
    rewrite <- Hlen, Hitem.
    destruct (py_get input "type") as [type|e] eqn:Htype;
      [|by rewrite raise_bind, run_bind, (py_get_root_raise _ _ _ _ e)].
    destruct input as [| | | | | |fields]; try discriminate Htype.
    injection Htype as <-. rewrite ok_bind, run_bind.
    destruct (py_get_root_obj before' after' "type" fields) as [lo' ->].
    rewrite is_file_root.
    destruct (is_file _); [|split; [by rewrite Hitem | apply same_place_refl]].
    rewrite <- Hitem, run_bind, py_getitem_root_field, Hitem, <- Hlen by done.
    destruct (py_getitem (JObj fields) "path") as [original_path|e] eqn:Hpath;
      [|by rewrite raise_bind, run_bind, (py_getitem_root_raise _ _ _ _ e)].
    cbn [py_getitem] in Hpath.
    destruct (dict_get "path" fields) as [p|] eqn:Hp; [|discriminate Hpath].
    injection Hpath as <-.
    destruct (dict_get_split _ _ _ Hp) as (pre' & post' & -> & Hpre').
    rewrite ok_bind, run_bind, py_getitem_root_field by done.
    rewrite run_bind, os_path_basename_root.
    destruct p as [| | | | path | |]; try reflexivity.
    cbn [os_path_basename]. rewrite ok_bind.
    destruct (file_mapping !! basename path) as [location|];
      [|split; [by rewrite Hitem | apply same_place_refl]].
    rewrite <- Hitem, run_bind, py_getitem_root_field, Hitem, <- Hlen by done.
    rewrite py_setitem_root_leaf by done.
    cbn [py_setitem]. rewrite ok_bind, !dict_set_middle by done.
    assert (same_place (JObj (pre' ++ ("path", JStr path) :: post'))
                       (JObj (pre' ++ ("path", JStr location) :: post'))) as Hsame.
    { by apply same_place_leaf. }
    split; [by rewrite (Hstore _ Hsame) | by apply same_place_obj].
Qed.

Lemma snd_run_raise {A B} (c : Store.M A) (f : A → Store.M B) (h : list Store.object)
    (e : exception) :
  snd (c h) = Raise e → snd ((c ≫= f) h) = Raise e.
Proof. rewrite run_bind. destruct (c h) as [h' [a|e']]; [done|]. by intros [= ->]. Qed.

(** The loop over the items of a list. *)
Lemma for_each_roots (items : list json) (before after : list Store.object) :
  match mapM (update_item file_mapping) items with
  | Ok items' =>
      Store.for_each (Store.update_item file_mapping) (roots (List.length before) items)
                     (before ++ layout_list (List.length before) items ++ after)
      = (before ++ layout_list (List.length before) items' ++ after, Ok tt) ∧
      sizes items = sizes items' ∧ ∀ lo, roots lo items = roots lo items'
  | Raise e =>
      snd (Store.for_each (Store.update_item file_mapping)
                          (roots (List.length before) items)
                          (before ++ layout_list (List.length before) items ++ after))
      = Raise e
  end.
Proof.
  revert before. induction items as [|item items IH]; intros before; [done|].
  cbn [mapM roots layout_list Store.for_each]. rewrite <- app_assoc.
  pose proof (update_item_root before
                (layout_list (List.length before + size item) items ++ after) item) as Hitem.
  unfold store_with in Hitem.
  destruct (update_item file_mapping item) as [item'|e];
    [|rewrite raise_bind; by apply snd_run_raise].
  destruct Hitem as [Hrun [Hsize Hroot]]. rewrite ok_bind, run_bind, Hrun.
  specialize (IH (before ++ layout (List.length before) item')).
  rewrite length_app, length_layout, <- Hsize, <- app_assoc in IH.
  destruct (mapM (update_item file_mapping) items) as [items'|e];
    [|by rewrite raise_bind].
  destruct IH as [-> [Hsizes Hroots]]. rewrite ok_bind.
  split; [|split].
  - cbn [layout_list]. by rewrite <- Hsize, <- !app_assoc.
  - unfold sizes in *. cbn [foldr]. by rewrite Hsize, Hsizes.
  - intros lo. cbn [roots]. by rewrite Hroot, Hsize, Hroots.
Qed.

Lemma update_item_str (s : string) :
  update_item file_mapping (JStr s)
  = if is_substring "input" s then Raise TypeError else Ok (JStr s).
Proof. unfold update_item. cbn [py_contains]. rewrite ok_bind. by destruct (is_substring _ _). Qed.

Lemma update_item_root_str (s : string) (h : list Store.object) :
  Store.update_item file_mapping (Store.VStr s) h
  = (h, if is_substring "input" s then Raise TypeError else Ok tt).
Proof.
  unfold Store.update_item. rewrite run_bind. cbn [Store.py_contains mret Store.M_ret].
  by destruct (is_substring _ _).
Qed.

(** The loop over strings: the keys of a dictionary or the characters of a
    string. *)
Lemma for_each_strings (strs : list string) (h : list Store.object) :
  match mapM (update_item file_mapping) (map JStr strs) with
  | Ok items' =>
      Store.for_each (Store.update_item file_mapping) (map Store.VStr strs) h = (h, Ok tt) ∧
      items' = map JStr strs
  | Raise e =>
      snd (Store.for_each (Store.update_item file_mapping) (map Store.VStr strs) h) = Raise e
  end.
Proof.
  induction strs as [|s strs IH]; [done|].
  cbn [map mapM Store.for_each].
  rewrite update_item_str, run_bind, update_item_root_str.
  destruct (is_substring "input" s); [reflexivity|]. rewrite ok_bind.
  destruct (mapM (update_item file_mapping) (map JStr strs)) as [items'|e];
    [|by rewrite raise_bind].
  destruct IH as [-> ->]. by rewrite ok_bind.
Qed.

Lemma keys_roots_fields (lo : nat) (d : dict) :
  map (λ kv, Store.VStr (fst kv)) (roots_fields lo d) = map Store.VStr (map fst d).
Proof.
  revert lo. induction d as [|kv d IH]; intros lo; [done|].
  cbn [roots_fields map fst]. f_equal. apply IH.
Qed.

End simulation.

Section refinement.
Local Open Scope list_scope.
Context (file_mapping : gmap string string).

Lemma same_place_arr (items items' : list json) :
  sizes items = sizes items' → same_place (JArr items) (JArr items').
Proof.
  intros Hsizes. split.
  - cbn [size]. fold (sizes items). fold (sizes items'). by rewrite Hsizes.
  - intros lo. cbn [root]. by rewrite Hsizes.
Qed.

(** [update_paths] on the store and on the tree: it returns the value it was
    given. *)
Lemma update_paths_root (before after : list Store.object) (items : json) :
  match update_paths file_mapping items with
  | Ok items' =>
      Store.update_paths file_mapping (root (List.length before) items)
                         (store_with before items after)
      = (store_with before items' after, Ok (root (List.length before) items)) ∧
      same_place items items'
  | Raise e =>
      snd (Store.update_paths file_mapping (root (List.length before) items)
                              (store_with before items after)) = Raise e
  end.
Proof.
  unfold update_paths, Store.update_paths.
  destruct items as [| | | | s |items|d]; try reflexivity.
  - cbn [py_iter root Store.py_iter]. rewrite ok_bind, run_bind. cbn [mret Store.M_ret].
    rewrite <- (map_map (λ c, String c EmptyString) JStr).
    rewrite <- (map_map (λ c, String c EmptyString) Store.VStr).
    pose proof (for_each_strings file_mapping
                  (map (λ c, String c EmptyString) (list_ascii_of_string s))
                  (store_with before (JStr s) after)) as Hloop.
    destruct (mapM _ _) as [items'|e]; [|rewrite raise_bind; by apply snd_run_raise].
    destruct Hloop as [Hrun _]. rewrite ok_bind, run_bind, Hrun.
    split; [reflexivity | apply same_place_refl].
  - cbn [py_iter root Store.py_iter]. rewrite ok_bind, !run_bind. unfold Store.read.
    rewrite lookup_root_arr. cbn [mret Store.M_ret].
    pose proof (for_each_roots file_mapping items before
                  ([Store.OList (roots (List.length before) items)] ++ after)) as Hloop.
    unfold store_with. rewrite layout_arr, <- !app_assoc.
    destruct (mapM _ _) as [items'|e]; [|rewrite raise_bind; by apply snd_run_raise].
    destruct Hloop as [Hrun [Hsizes Hroots]]. rewrite ok_bind, run_bind, Hrun.
    split; [|by apply same_place_arr].
    by rewrite layout_arr, <- !app_assoc, Hroots.
  - cbn [py_iter root Store.py_iter]. rewrite ok_bind, !run_bind. unfold Store.read.
    rewrite lookup_root_obj. cbn [mret Store.M_ret]. rewrite keys_roots_fields.
    rewrite <- (map_map fst JStr).
    pose proof (for_each_strings file_mapping (map fst d)
                  (store_with before (JObj d) after)) as Hloop.
    destruct (mapM _ _) as [items'|e]; [|rewrite raise_bind; by apply snd_run_raise].
    destruct Hloop as [Hrun _]. rewrite ok_bind, run_bind, Hrun.
    split; [reflexivity | apply same_place_refl].
Qed.

Lemma update_key_root (key : string) (before after : list Store.object)
    (updated_config : json) :
  match update_key file_mapping key updated_config with
  | Ok updated_config' =>
      Store.update_key file_mapping key (root (List.length before) updated_config)
                       (store_with before updated_config after)
      = (store_with before updated_config' after, Ok tt) ∧
      same_place updated_config updated_config'
  | Raise e =>
      snd (Store.update_key file_mapping key (root (List.length before) updated_config)
                            (store_with before updated_config after)) = Raise e
  end.
Proof.
  unfold update_key, Store.update_key.
  rewrite run_bind, py_contains_root.
  destruct updated_config as [| | | | s |items|d]; try reflexivity.
  - cbn [py_contains]. rewrite ok_bind. destruct (is_substring key s); [reflexivity|].
    split; [reflexivity | apply same_place_refl].
  - cbn [py_contains]. rewrite ok_bind.
    destruct (existsb _ items).
    + rewrite run_bind, (py_getitem_root_raise _ _ _ _ TypeError) by reflexivity.
      reflexivity.
    + split; [reflexivity | apply same_place_refl].
  - cbn [py_contains]. rewrite ok_bind, bool_decide_is_Some.
    destruct (dict_get key d) as [items|] eqn:Hitems;
      [|split; [reflexivity | apply same_place_refl]].
    destruct (dict_get_split _ _ _ Hitems) as (pre & post & -> & Hpre).
    cbn [py_getitem]. rewrite Hitems, ok_bind.
    rewrite run_bind, py_getitem_root_field by done.
    destruct (store_with_field before after pre post key items)
      as (before' & after' & Hlen & Hstore).
    rewrite <- Hlen, (Hstore items (same_place_refl items)).
    pose proof (update_paths_root before' after' items) as Hpaths.
    destruct (update_paths file_mapping items) as [items'|e];
      [|rewrite raise_bind; by apply snd_run_raise].
    destruct Hpaths as [Hrun Hsame]. rewrite ok_bind, run_bind, Hrun.
    rewrite <- (Hstore items' Hsame).
    pose proof (same_place_obj pre post key items items' Hsame) as Hobj.
    destruct Hsame as [_ Hroot].
    rewrite (proj2 Hobj), Hroot, Hlen, py_setitem_root_same by done.
    cbn [py_setitem]. by rewrite dict_set_middle.
Qed.

(** [json.dumps] reads a laid out tree back. *)
Lemma dumps_fuel_layout (j : json) :
  ∀ fuel before after,
    (size j ≤ fuel)%nat →
    Store.dumps_fuel fuel (store_with before j after) (root (List.length before) j)
    = Some j.
Proof.
  induction j as [| | | | |items IH|fields IH] using json_ind_nested;
    intros fuel before after Hfuel; try by destruct fuel.
  - destruct fuel as [|fuel]; [cbn [size] in Hfuel; lia|].
    cbn [root Store.dumps_fuel]. rewrite lookup_root_arr.
    cbn [size] in Hfuel. fold (sizes items) in Hfuel.
    unfold store_with. rewrite layout_arr, <- !app_assoc.
    set (after' := [Store.OList (roots (List.length before) items)] ++ after).
    assert (sizes items ≤ fuel)%nat as Hitems by lia. clear Hfuel.
    enough (mapM (Store.dumps_fuel fuel
                    (before ++ layout_list (List.length before) items ++ after'))
                 (roots (List.length before) items) = Some items) as -> by done.
    clearbody after'. revert before.
    induction IH as [|j items Hj _ IHitems]; intros before; [done|].
    unfold sizes in Hitems. cbn [foldr] in Hitems. fold (sizes items) in Hitems.
    cbn [roots layout_list mapM]. rewrite <- app_assoc.
    pose proof (Hj fuel before
                  (layout_list (List.length before + size j) items ++ after')) as Hhead.
    unfold store_with in Hhead. rewrite Hhead by lia. cbn [mbind option_bind].
    specialize (IHitems ltac:(lia) (before ++ layout (List.length before) j)).
    rewrite length_app, length_layout, <- app_assoc in IHitems.
    by rewrite IHitems.
  - destruct fuel as [|fuel]; [cbn [size] in Hfuel; lia|].
    cbn [root Store.dumps_fuel]. rewrite lookup_root_obj.
    cbn [size] in Hfuel. fold (sizes_fields fields) in Hfuel.
    unfold store_with. rewrite layout_obj, <- !app_assoc.
    set (after' := [Store.ODict (roots_fields (List.length before) fields)] ++ after).
    assert (sizes_fields fields ≤ fuel)%nat as Hfields by lia. clear Hfuel.
    enough (mapM (λ kv, pair (fst kv) <$>
                          Store.dumps_fuel fuel
                            (before ++ layout_fields (List.length before) fields ++ after')
                            (snd kv))
                 (roots_fields (List.length before) fields) = Some fields) as -> by done.
    clearbody after'. revert before.
    induction IH as [|[k j] fields Hj _ IHfields]; intros before; [done|].
    unfold sizes_fields in Hfields. cbn [foldr snd] in Hfields.
    fold (sizes_fields fields) in Hfields. cbn [snd] in Hj.
    cbn [roots_fields layout_fields mapM fst snd]. rewrite <- app_assoc.
    pose proof (Hj fuel before
                  (layout_fields (List.length before + size j) fields ++ after')) as Hhead.
    unfold store_with in Hhead. rewrite Hhead by lia. cbn [fmap option_fmap option_map mbind option_bind].
    specialize (IHfields ltac:(lia) (before ++ layout (List.length before) j)).
    rewrite length_app, length_layout, <- app_assoc in IHfields.
    by rewrite IHfields.
Qed.

End refinement.

(** X1: on the store, [update_file_paths_in_config] computes what it computes
    on trees.  When [json.dumps] reads the tree [j] from [config], the call
    raises the exception the function on trees raises on [j], or it returns a
    value that [json.dumps] reads as the tree the function on trees returns;
    it raises [ValueError] when [config] contains itself. *)
Theorem resolve_on_the_store_refines (h : list Store.object) (config : Store.value)
    (file_mapping : gmap string string) :
  match Store.dumps_fuel (List.length h) h config with
  | None => Store.update_file_paths_in_config config file_mapping h = (h, Raise ValueError)
  | Some j =>
      match update_file_paths_in_config j file_mapping with
      | Ok j' =>
          ∃ new updated_config,
            Store.update_file_paths_in_config config file_mapping h
            = ((h ++ new)%list, Ok updated_config) ∧
            Store.json_dumps updated_config (h ++ new)%list = ((h ++ new)%list, Ok j')
      | Raise e =>
          snd (Store.update_file_paths_in_config config file_mapping h) = Raise e
      end
  end.
Proof.
  assert (Store.json_dumps config h
          = (h, match Store.dumps_fuel (List.length h) h config with
                | Some j => Ok j
                | None => Raise ValueError
                end)) as Hdumps.
  { unfold Store.json_dumps. by destruct (Store.dumps_fuel _ h config). }
  unfold Store.update_file_paths_in_config. rewrite run_bind, Hdumps. clear Hdumps.
  destruct (Store.dumps_fuel (List.length h) h config) as [j|]; [|reflexivity].
  rewrite run_bind, json_loads_layout.
  unfold update_file_paths_in_config, deep_copy.
  pose proof (update_key_root file_mapping "vertices" h [] j) as Hvertices.
  unfold store_with in Hvertices. rewrite !app_nil_r in Hvertices.
  destruct (update_key file_mapping "vertices" j) as [j1|e];
    [|rewrite raise_bind; by apply snd_run_raise].
  destruct Hvertices as [Hrun1 [Hsize1 Hroot1]]. rewrite app_nil_r in Hrun1.
  rewrite ok_bind, run_bind, Hrun1.
  pose proof (update_key_root file_mapping "edges" h [] j1) as Hedges.
  unfold store_with in Hedges. rewrite !app_nil_r in Hedges.
  rewrite Hroot1.
  destruct (update_key file_mapping "edges" j1) as [j2|e];
    [|by apply snd_run_raise].
  destruct Hedges as [Hrun2 [Hsize2 Hroot2]]. rewrite app_nil_r in Hrun2.
  rewrite run_bind, Hrun2.
  exists (layout (List.length h) j2), (root (List.length h) j1).
  split; [reflexivity|]. unfold Store.json_dumps.
  pose proof (dumps_fuel_layout j2 (List.length (h ++ layout (List.length h) j2)) h []) as Hdumps.
  unfold store_with in Hdumps. rewrite app_nil_r, <- Hroot2 in Hdumps.
  rewrite Hdumps; [done|]. rewrite length_app, length_layout. lia.
Qed.

(** * Further properties of the resolution *)

Section resolution.
Local Open Scope list_scope.

Lemma bind_ext {A B} (f g : A → result B) (r : result A) :
  (∀ a, f a = g a) → r ≫= f = r ≫= g.
Proof. intros Hfg. destruct r; [apply Hfg | reflexivity]. Qed.

Lemma raised_bind {A B} (f g : A → result B) (r r' : result A) :
  raised r = raised r' →
  (∀ a a', r = Ok a → r' = Ok a' → raised (f a) = raised (g a')) →
  raised (r ≫= f) = raised (r' ≫= g).
Proof.
  destruct r as [a|e], r' as [a'|e']; cbn [raised]; try done.
  intros _ Hfg. by apply Hfg.
Qed.

Lemma dict_set_same {V} (key : string) (v : V) (d : list (string * V)) :
  dict_get key d = Some v → dict_set key v d = d.
Proof.
  intros (pre & post & -> & Hpre)%dict_get_split. by apply dict_set_middle.
Qed.

Lemma dict_set_twice {V} (key : string) (v w : V) (d : list (string * V)) :
  dict_set key w (dict_set key v d) = dict_set key w d.
Proof.
  induction d as [|[k x] d IH]; cbn [dict_set].
  - by rewrite String.eqb_refl.
  - destruct (String.eqb k key) eqn:Hk; cbn [dict_set]; rewrite Hk; [done | by rewrite IH].
Qed.

(** *** The failures do not depend on the mapping *)

Lemma update_item_raised (m m' : gmap string string) (item : json) :
  raised (update_item m item) = raised (update_item m' item).
Proof.
  unfold update_item.
  destruct item as [| | | | | |d]; try reflexivity.
  cbn [py_contains mbind result_bind]. rewrite bool_decide_is_Some.
  destruct (dict_get "input" d) as [input|] eqn:Hinput; [|reflexivity].
  cbn [py_getitem]. rewrite Hinput. cbn [mbind result_bind].
  destruct input as [| | | | | |i]; try reflexivity.
  cbn [py_get mbind result_bind]. destruct (is_file _); [|reflexivity].
  cbn [py_getitem]. destruct (dict_get "path" i) as [p|]; [|reflexivity].
  cbn [mbind result_bind]. destruct p as [| | | | p | |]; try reflexivity.
  cbn [os_path_basename mbind result_bind].
  by destruct (m !! basename p), (m' !! basename p).
Qed.

Lemma mapM_update_item_raised (m m' : gmap string string) (items : list json) :
  raised (mapM (update_item m) items) = raised (mapM (update_item m') items).
Proof.
  induction items as [|item items IH]; [reflexivity|]. cbn [mapM].
  apply raised_bind; [apply update_item_raised|]. intros a a' _ _.
  apply raised_bind; [apply IH | reflexivity].
Qed.

Lemma update_paths_raised (m m' : gmap string string) (items : json) :
  raised (update_paths m items) = raised (update_paths m' items).
Proof.
  unfold update_paths. destruct (py_iter items) as [elems|]; [|reflexivity].
  cbn [mbind result_bind]. apply raised_bind; [apply mapM_update_item_raised | done].
Qed.

Lemma update_key_raised (m m' : gmap string string) (key : string) (d d' : dict) :
  dict_get key d = dict_get key d' →
  raised (update_key m key (JObj d)) = raised (update_key m' key (JObj d')).
Proof.
  intros Hget. unfold update_key. cbn [py_contains py_getitem mbind result_bind].
  rewrite <- Hget. destruct (bool_decide _); [|reflexivity].
  destruct (dict_get key d) as [items|]; [|reflexivity]. cbn [mbind result_bind].
  apply raised_bind; [apply update_paths_raised | done].
Qed.

Lemma update_key_not_dict (m : gmap string string) (key : string) (config : json) :
  is_dict config = false →
  update_key m key config = Ok config ∨ update_key m key config = Raise TypeError.
Proof.
  unfold update_key. destruct config as [| | | | s |items|]; try done; intros _;
    try by right.
  - cbn [py_contains mbind result_bind]. destruct (is_substring key s); [by right | by left].
  - cbn [py_contains mbind result_bind]. destruct (existsb _ items); [by right | by left].
Qed.

Lemma resolve_not_dict (m m' : gmap string string) (config : json) :
  is_dict config = false →
  update_file_paths_in_config config m = update_file_paths_in_config config m'.
Proof.
  unfold update_file_paths_in_config, deep_copy, update_key.
  destruct config as [| | | | s |items|]; try done; intros _.
  - cbn [py_contains mbind result_bind].
    destruct (is_substring "vertices" s); reflexivity.
  - cbn [py_contains mbind result_bind].
    destruct (existsb _ items); reflexivity.
Qed.

(** X2: whether [update_file_paths_in_config] fails, and with which
    exception, does not depend on the files of the mapping. *)
Theorem resolve_failure_whatever_the_mapping (config : json)
    (file_mapping file_mapping' : gmap string string) :
  raised (update_file_paths_in_config config file_mapping)
  = raised (update_file_paths_in_config config file_mapping').
Proof.
  destruct (is_dict config) eqn:Hdict;
    [|by rewrite (resolve_not_dict file_mapping file_mapping')].
  destruct config as [| | | | | |d]; try done.
  unfold update_file_paths_in_config, deep_copy.
  apply raised_bind; [by apply update_key_raised|].
  intros a a' (d1 & -> & H1)%update_key_other_keys (d1' & -> & H1')%update_key_other_keys.
  apply update_key_raised. by rewrite H1, H1'.
Qed.

(** *** The mapping is looked up by base name *)

Lemma basename_no_slash (p : string) : mem_char "/" (basename p) = false.
Proof.
  induction p as [|c p IH]; [reflexivity|]. cbn [basename].
  destruct (mem_char "/" p) eqn:Hp; [exact IH|].
  destruct (Ascii.eqb c "/") eqn:Hc; [exact Hp|].
  cbn [mem_char]. rewrite Hp, Ascii.eqb_sym, Hc. reflexivity.
Qed.

Lemma update_item_ext (m m' : gmap string string) (item : json) :
  (∀ p, m !! basename p = m' !! basename p) →
  update_item m item = update_item m' item.
Proof.
  intros Hm. unfold update_item.
  apply bind_ext. intros [|]; [|reflexivity].
  apply bind_ext. intros input. apply bind_ext. intros type.
  destruct (is_file type); [|reflexivity].
  apply bind_ext. intros [| | | | p | |]; try reflexivity.
  cbn [os_path_basename mbind result_bind]. by rewrite Hm.
Qed.

Lemma mapM_update_item_ext (m m' : gmap string string) (items : list json) :
  (∀ p, m !! basename p = m' !! basename p) →
  mapM (update_item m) items = mapM (update_item m') items.
Proof.
  intros Hm. induction items as [|item items IH]; [reflexivity|]. cbn [mapM].
  by rewrite IH, (update_item_ext m m').
Qed.

Lemma resolve_ext (m m' : gmap string string) (config : json) :
  (∀ p, m !! basename p = m' !! basename p) →
  update_file_paths_in_config config m = update_file_paths_in_config config m'.
Proof.
  intros Hm.
  assert (∀ key j, update_key m key j = update_key m' key j) as Hkey.
  { intros key j. unfold update_key. apply bind_ext. intros [|]; [|reflexivity].
    apply bind_ext. intros items. unfold update_paths.
    f_equal. apply bind_ext. intros elems. by rewrite (mapM_update_item_ext m m'). }
  unfold update_file_paths_in_config. rewrite Hkey. apply bind_ext. intros j. apply Hkey.
Qed.

(** X3: the mapping is looked up by the base name of a path, which holds no
    slash: an entry for a file name that holds a slash changes nothing. *)
Theorem resolve_ignores_names_with_slash (config : json)
    (file_mapping : gmap string string) (filename location : string) :
  mem_char "/" filename = true →
  update_file_paths_in_config config (<[filename := location]> file_mapping)
  = update_file_paths_in_config config file_mapping.
Proof.
  intros Hslash. apply resolve_ext. intros p. apply lookup_insert_ne.
  intros ->. by rewrite basename_no_slash in Hslash.
Qed.

Lemma resolve_ignores_names_with_slash_witness :
  update_file_paths_in_config
    (JObj [("vertices", JArr [JObj [("input", JObj [("type", JStr "file");
                                                    ("path", JStr "data/people.csv")])]])])
    (<["data/people.csv" := "/tmp/job/data/people.csv"]> ∅)
  = update_file_paths_in_config
      (JObj [("vertices", JArr [JObj [("input", JObj [("type", JStr "file");
                                                      ("path", JStr "data/people.csv")])]])])
      ∅.
Proof. apply resolve_ignores_names_with_slash. reflexivity. Defined.

(** *** Without files *)

Lemma update_item_empty (item item' : json) :
  update_item ∅ item = Ok item' → item' = item.
Proof.
  unfold update_item. destruct item as [| | | | s |items|d]; try done.
  - cbn [py_contains mbind result_bind].
    destruct (is_substring _ s); [done | by intros [= <-]].
  - cbn [py_contains mbind result_bind].
    destruct (existsb _ items); [done | by intros [= <-]].
  - cbn [py_contains mbind result_bind]. rewrite bool_decide_is_Some.
    destruct (dict_get "input" d) as [input|] eqn:Hinput; [|by intros [= <-]].
    cbn [py_getitem]. rewrite Hinput. cbn [mbind result_bind].
    destruct input as [| | | | | |i]; try done.
    cbn [py_get mbind result_bind]. destruct (is_file _); [|by intros [= <-]].
    cbn [py_getitem]. destruct (dict_get "path" i) as [p|]; [|done].
    cbn [mbind result_bind]. destruct p as [| | | | p | |]; try done.
    cbn [os_path_basename mbind result_bind]. rewrite lookup_empty. by intros [= <-].
Qed.

Lemma mapM_update_item_empty (items items' : list json) :
  mapM (update_item ∅) items = Ok items' → items' = items.
Proof.
  revert items'. induction items as [|item items IH]; intros items'; cbn [mapM].
  - by intros [= <-].
  - destruct (update_item ∅ item) as [item1|] eqn:Hitem; [|done].
    apply update_item_empty in Hitem as ->. cbn [mbind result_bind].
    destruct (mapM (update_item ∅) items) as [items1|]; [|done].
    rewrite (IH items1 eq_refl). by intros [= <-].
Qed.

Lemma update_key_empty (key : string) (config config' : json) :
  update_key ∅ key config = Ok config' → config' = config.
Proof.
  destruct (is_dict config) eqn:Hdict.
  - destruct config as [| | | | | |d]; try done. unfold update_key.
    cbn [py_contains py_getitem mbind result_bind]. rewrite bool_decide_is_Some.
    destruct (dict_get key d) as [items|] eqn:Hitems; [|by intros [= <-]].
    cbn [mbind result_bind]. unfold update_paths.
    destruct (py_iter items) as [elems|] eqn:Helems; [|done]. cbn [mbind result_bind].
    destruct (mapM (update_item ∅) elems) as [elems'|] eqn:Hmap; [|done].
    apply mapM_update_item_empty in Hmap as ->. cbn [mbind result_bind py_setitem].
    intros [= <-]. f_equal. apply dict_set_same. rewrite Hitems. f_equal.
    destruct items; try done. cbn [py_iter] in Helems. by injection Helems as ->.
  - destruct (update_key_not_dict ∅ key config Hdict) as [-> | ->]; [by intros [= <-] | done].
Qed.

(** X4: without any file in the mapping, the configuration comes back as it
    is, when the call returns. *)
Theorem resolve_without_files (config updated_config : json) :
  update_file_paths_in_config config ∅ = Ok updated_config →
  updated_config = config.
Proof.
  unfold update_file_paths_in_config, deep_copy.
  destruct (update_key ∅ "vertices" config) as [config1|] eqn:Hvertices; [|done].
  apply update_key_empty in Hvertices as ->. cbn [mbind result_bind].
  apply update_key_empty.
Qed.

Lemma resolve_without_files_witness :
  let config :=
    JObj [("vertices", JArr [JObj [("input", JObj [("type", JStr "file");
                                                   ("path", JStr "people.csv")])]]);
          ("edges", JObj [("label", JStr "knows")])] in
  update_file_paths_in_config config ∅ = Ok config ∧ config = config.
Proof.
  intros config. split; [reflexivity|].
  apply (resolve_without_files config config). reflexivity.
Defined.

(** *** Resolving twice *)

Section twice.
Context (m : gmap string string).
Hypothesis keeps_name : ∀ p location,
  m !! basename p = Some location → basename location = basename p.

Lemma update_item_twice (item item' : json) :
  update_item m item = Ok item' → update_item m item' = Ok item'.
Proof.
  unfold update_item at 1. destruct item as [| | | | s |items|d]; try done.
  - cbn [py_contains mbind result_bind].
    destruct (is_substring _ s) eqn:Hs; [done|]. intros [= <-].
    unfold update_item. cbn [py_contains mbind result_bind]. by rewrite Hs.
  - cbn [py_contains mbind result_bind].
    destruct (existsb _ items) eqn:Hitems; [done|]. intros [= <-].
    unfold update_item. cbn [py_contains mbind result_bind]. by rewrite Hitems.
  - cbn [py_contains mbind result_bind]. rewrite bool_decide_is_Some.
    destruct (dict_get "input" d) as [input|] eqn:Hinput.
    2:{ intros [= <-]. unfold update_item. cbn [py_contains mbind result_bind].
        by rewrite bool_decide_is_Some, Hinput. }
    cbn [py_getitem]. rewrite Hinput. cbn [mbind result_bind].
    destruct input as [| | | | | |i]; try done.
    cbn [py_get mbind result_bind].
    destruct (is_file (default JNull (dict_get "type" i))) eqn:Hfile.
    2:{ intros [= <-]. unfold update_item. cbn [py_contains py_getitem mbind result_bind].
        rewrite bool_decide_is_Some, Hinput. cbn [py_get mbind result_bind].
        by rewrite Hfile. }
    cbn [py_getitem]. destruct (dict_get "path" i) as [p|] eqn:Hpath; [|done].
    cbn [mbind result_bind]. destruct p as [| | | | p | |]; try done.
    cbn [os_path_basename mbind result_bind].
    destruct (m !! basename p) as [location|] eqn:Hmap.
    2:{ intros [= <-]. unfold update_item. cbn [py_contains py_getitem mbind result_bind].
        rewrite bool_decide_is_Some, Hinput. cbn [py_get mbind result_bind].
        rewrite Hfile. cbn [py_getitem]. rewrite Hpath.
        cbn [os_path_basename mbind result_bind]. by rewrite Hmap. }
    cbn [py_setitem mbind result_bind]. intros [= <-].
    unfold update_item. cbn [py_contains py_getitem mbind result_bind].
    rewrite bool_decide_is_Some, dict_get_set_eq. cbn [py_get mbind result_bind].
    rewrite dict_get_set_ne, Hfile by done.
    cbn [py_getitem]. rewrite dict_get_set_eq. cbn [os_path_basename mbind result_bind].
    rewrite (keeps_name _ _ Hmap), Hmap. cbn [py_setitem mbind result_bind].
    by rewrite !dict_set_twice.
Qed.

Lemma mapM_update_item_twice (items items' : list json) :
  mapM (update_item m) items = Ok items' → mapM (update_item m) items' = Ok items'.
Proof.
  revert items'. induction items as [|item items IH]; intros items'; cbn [mapM].
  - by intros [= <-].
  - destruct (update_item m item) as [item1|] eqn:Hitem; [|done].
    cbn [mbind result_bind].
    destruct (mapM (update_item m) items) as [items1|]; [|done].
    intros [= <-]. cbn [mapM mbind result_bind].
    by rewrite (update_item_twice _ _ Hitem), (IH items1 eq_refl).
Qed.

Lemma update_paths_twice (items items' : json) :
  update_paths m items = Ok items' → update_paths m items' = Ok items'.
Proof.
  unfold update_paths at 1.
  destruct (py_iter items) as [elems|] eqn:Helems; [|done]. cbn [mbind result_bind].
  destruct (mapM (update_item m) elems) as [elems'|] eqn:Hmap; [|done].
  cbn [mbind result_bind]. intros [= <-]. unfold update_paths.
  destruct items as [| | | | | |]; try done.
  - by rewrite Helems; cbn [mbind result_bind]; rewrite Hmap.
  - cbn [py_iter] in Helems. injection Helems as <-. cbn [py_iter mbind result_bind].
    by rewrite (mapM_update_item_twice _ _ Hmap).
  - by rewrite Helems; cbn [mbind result_bind]; rewrite Hmap.
Qed.

Lemma update_key_settles (key : string) (config config' : json) :
  update_key m key config = Ok config' → update_key m key config' = Ok config'.
Proof.
  destruct (is_dict config) eqn:Hdict.
  - destruct config as [| | | | | |d]; try done. unfold update_key at 1.
    cbn [py_contains py_getitem mbind result_bind]. rewrite bool_decide_is_Some.
    destruct (dict_get key d) as [items|] eqn:Hitems.
    2:{ intros [= <-]. unfold update_key. cbn [py_contains mbind result_bind].
        by rewrite bool_decide_is_Some, Hitems. }
    cbn [mbind result_bind].
    destruct (update_paths m items) as [items'|] eqn:Hpaths; [|done].
    cbn [py_setitem mbind result_bind]. intros [= <-].
    unfold update_key. cbn [py_contains py_getitem mbind result_bind].
    rewrite bool_decide_is_Some, dict_get_set_eq. cbn [mbind result_bind].
    rewrite (update_paths_twice _ _ Hpaths). cbn [py_setitem mbind result_bind].
    by rewrite dict_set_twice.
  - destruct (update_key_not_dict m key config Hdict) as [H | H]; rewrite H; [|done].
    by intros [= <-].
Qed.

Lemma update_key_keeps_settled (key key' : string) (config config' : json) :
  key ≠ key' → update_key m key config = Ok config →
  update_key m key' config = Ok config' → update_key m key config' = Ok config'.
Proof.
  intros Hne Hsettled. destruct (is_dict config) eqn:Hdict.
  2:{ destruct (update_key_not_dict m key' config Hdict) as [H | H]; rewrite H; [|done].
      by intros [= <-]. }
  destruct config as [| | | | | |d]; try done.
  intros (d' & -> & Hother)%update_key_other_keys.
  revert Hsettled. unfold update_key.
  cbn [py_contains py_getitem mbind result_bind].
  rewrite !bool_decide_is_Some, Hother by done.
  destruct (dict_get key d) as [items|] eqn:Hitems; [|done].
  cbn [mbind result_bind].
  destruct (update_paths m items) as [items'|]; [|done].
  cbn [py_setitem mbind result_bind]. intros [= Hd]. do 2 f_equal.
  apply dict_set_same. rewrite Hother, Hitems by done. f_equal.
  apply (f_equal (dict_get key)) in Hd. rewrite dict_get_set_eq, Hitems in Hd.
  by injection Hd.
Qed.

Lemma resolve_twice_settled (config updated_config : json) :
  update_file_paths_in_config config m = Ok updated_config →
  update_file_paths_in_config updated_config m = Ok updated_config.
Proof.
  unfold update_file_paths_in_config, deep_copy.
  destruct (update_key m "vertices" config) as [config1|] eqn:Hvertices; [|done].
  cbn [mbind result_bind]. intros Hedges.
  pose proof (update_key_settles _ _ _ Hvertices) as H1.
  pose proof (update_key_keeps_settled "vertices" "edges" _ _ ltac:(done) H1 Hedges) as H2.
  pose proof (update_key_settles _ _ _ Hedges) as H3.
  by rewrite H2; cbn [mbind result_bind].
Qed.

End twice.

(** X5: when every file is mapped to a location that keeps its name, as the
    copies in a directory do, resolving a resolved configuration changes
    nothing. *)
Theorem resolve_twice (config updated_config : json)
    (file_mapping : gmap string string) :
  (∀ p location, file_mapping !! basename p = Some location →
                 basename location = basename p) →
  update_file_paths_in_config config file_mapping = Ok updated_config →
  update_file_paths_in_config updated_config file_mapping = Ok updated_config.
Proof. intros Hnames. by apply resolve_twice_settled. Qed.

Lemma resolve_twice_witness :
  let file_mapping : gmap string string := {["people.csv" := "/tmp/job/people.csv"]} in
  let config :=
    JObj [("vertices", JArr [JObj [("input", JObj [("type", JStr "file");
                                                   ("path", JStr "data/people.csv")])]])] in
  let updated_config :=
    JObj [("vertices", JArr [JObj [("input", JObj [("type", JStr "file");
                                                   ("path", JStr "/tmp/job/people.csv")])]])] in
  update_file_paths_in_config config file_mapping = Ok updated_config ∧
  update_file_paths_in_config updated_config file_mapping = Ok updated_config.
Proof.
  intros file_mapping config updated_config. split; [reflexivity|].
  apply (resolve_twice config updated_config file_mapping); [|reflexivity].
  intros p location [<- <-]%lookup_singleton_Some. reflexivity.
Defined.

(** *** A file input without a path *)

Lemma mapM_update_item_raise (m : gmap string string) (pre post : list json)
    (item : json) (e : exception) :
  forallb Config.item pre = true → update_item m item = Raise e →
  mapM (update_item m) (pre ++ item :: post) = Raise e.
Proof.
  intros Hpre Hitem. induction pre as [|x pre IH]; cbn [app mapM].
  - by rewrite Hitem.
  - cbn [forallb] in Hpre. apply andb_prop in Hpre as [Hx Hpre].
    destruct (update_item_resolved m x Hx) as (x' & -> & _).
    cbn [mbind result_bind]. by rewrite IH.
Qed.

Lemma update_key_raise (m : gmap string string) (key : string) (d : dict)
    (pre post : list json) (item : json) (e : exception) :
  dict_get key d = Some (JArr (pre ++ item :: post)) →
  forallb Config.item pre = true → update_item m item = Raise e →
  update_key m key (JObj d) = Raise e.
Proof.
  intros Hget Hpre Hitem. unfold update_key.
  cbn [py_contains py_getitem mbind result_bind]. rewrite bool_decide_is_Some, Hget.
  cbn [mbind result_bind]. unfold update_paths. cbn [py_iter mbind result_bind].
  by rewrite (mapM_update_item_raise m pre post item e).
Qed.

Lemma update_item_without_path (m : gmap string string) (item input : dict) :
  dict_get "input" item = Some (JObj input) →
  dict_get "type" input = Some (JStr "file") →
  update_item m (JObj item)
  = match dict_get "path" input with
    | None => Raise KeyError
    | Some (JStr p) => update_item m (JObj item)
    | Some _ => Raise TypeError
    end.
Proof.
  intros Hinput Htype%is_file_type.
  destruct (dict_get "path" input) as [p|] eqn:Hpath.
  - destruct (is_str p) eqn:Hstr; [by destruct p|].
    transitivity (Raise (A:=json) TypeError); [|by destruct p].
    unfold update_item. cbn [py_contains py_getitem mbind result_bind].
    rewrite bool_decide_is_Some, Hinput. cbn [py_get mbind result_bind].
    rewrite Htype. cbn [py_getitem]. rewrite Hpath.
    cbn [mbind result_bind]. by destruct p.
  - unfold update_item. cbn [py_contains py_getitem mbind result_bind].
    rewrite bool_decide_is_Some, Hinput. cbn [py_get mbind result_bind].
    rewrite Htype. cbn [py_getitem]. by rewrite Hpath.
Qed.

Lemma resolve_raise (d : dict) (m : gmap string string) (key : string)
    (pre post : list json) (item : json) (e : exception) :
  key = "vertices" ∨ key = "edges" ∧ Config.items (dict_get "vertices" d) = true →
  dict_get key d = Some (JArr (pre ++ item :: post)) →
  forallb Config.item pre = true → update_item m item = Raise e →
  update_file_paths_in_config (JObj d) m = Raise e.
Proof.
  intros Hkey Hget Hpre Hitem. unfold update_file_paths_in_config, deep_copy.
  destruct Hkey as [-> | [-> Hvertices]].
  - by rewrite (update_key_raise _ _ _ _ _ _ _ Hget Hpre Hitem).
  - destruct (update_key_resolved m "vertices" d Hvertices)
      as (d1 & -> & _ & Hother & _).
    cbn [mbind result_bind]. rewrite <- (Hother "edges") in Hget by done.
    by rewrite (update_key_raise _ _ _ _ _ _ _ Hget Hpre Hitem).
Qed.

(** X6: an input of type ["file"] needs a string for [path], whatever the
    mapping holds: the first item of [vertices] (or of [edges], when
    [vertices] is as the data model has it) whose file input has no [path]
    makes the call raise [KeyError], and one whose [path] is not a string
    makes it raise [TypeError]. *)
Theorem resolve_file_input_without_path (d : dict) (file_mapping : gmap string string)
    (key : string) (pre post : list json) (item input : dict) :
  key = "vertices" ∨ key = "edges" ∧ Config.items (dict_get "vertices" d) = true →
  dict_get key d = Some (JArr (pre ++ JObj item :: post)) →
  forallb Config.item pre = true →
  dict_get "input" item = Some (JObj input) →
  dict_get "type" input = Some (JStr "file") →
  (dict_get "path" input = None →
   update_file_paths_in_config (JObj d) file_mapping = Raise KeyError) ∧
  (∀ v, dict_get "path" input = Some v → is_str v = false →
        update_file_paths_in_config (JObj d) file_mapping = Raise TypeError).
Proof.
  intros Hkey Hget Hpre Hinput Htype.
  pose proof (update_item_without_path file_mapping item input Hinput Htype) as Hitem.
  split.
  - intros Hpath. rewrite Hpath in Hitem. by eapply resolve_raise.
  - intros v Hpath Hstr. rewrite Hpath in Hitem.
    eapply resolve_raise; [done.. |]. by destruct v.
Qed.

Lemma resolve_file_input_without_path_witness :
  update_file_paths_in_config
    (JObj [("vertices", JArr []);
           ("edges", JArr [JObj [("label", JStr "knows")];
                           JObj [("input", JObj [("type", JStr "file")])]])])
    {["knows.csv" := "/tmp/job/knows.csv"]}
  = Raise KeyError ∧
  update_file_paths_in_config
    (JObj [("vertices", JArr [JObj [("input", JObj [("type", JStr "file");
                                                    ("path", JInt 7)])]])])
    ∅
  = Raise TypeError.
Proof.
  split.
  - apply (proj1 (resolve_file_input_without_path
                    [("vertices", JArr []);
                     ("edges", JArr [JObj [("label", JStr "knows")];
                                     JObj [("input", JObj [("type", JStr "file")])]])]
                    {["knows.csv" := "/tmp/job/knows.csv"]} "edges"
                    [JObj [("label", JStr "knows")]] []
                    [("input", JObj [("type", JStr "file")])] [("type", JStr "file")]
                    (or_intror (conj eq_refl eq_refl)) eq_refl eq_refl eq_refl eq_refl)).
    reflexivity.
  - apply (proj2 (resolve_file_input_without_path
                    [("vertices", JArr [JObj [("input", JObj [("type", JStr "file");
                                                              ("path", JInt 7)])]])]
                    ∅ "vertices" [] []
                    [("input", JObj [("type", JStr "file"); ("path", JInt 7)])]
                    [("type", JStr "file"); ("path", JInt 7)]
                    (or_introl eq_refl) eq_refl eq_refl eq_refl eq_refl)
             (JInt 7)); reflexivity.
Defined.

End resolution.

(** * Further properties of the schema compiler *)

Section statements.
Local Open Scope list_scope.

(** X7: the lines of the script. Every element has its statement on a line
    of its own, in the order of the schema: the property keys first, an empty
    line, the vertex labels, an empty line, the edge labels. *)
Theorem statements_in_order (schema : SchemaDefinition.t) :
  let property_keys := SchemaDefinition.property_keys schema in
  let vertex_labels := SchemaDefinition.vertex_labels schema in
  let edge_labels := SchemaDefinition.edge_labels schema in
  let n := List.length property_keys in
  let m := List.length vertex_labels in
  json_to_groovy (inr schema) = Ok (join nl (groovy_lines schema)) ∧
  List.length (groovy_lines schema) = (n + m + List.length edge_labels + 2)%nat ∧
  (∀ i, (i < n)%nat →
        groovy_lines schema !! i = property_key_line <$> property_keys !! i) ∧
  groovy_lines schema !! n = Some "" ∧
  (∀ i, (i < m)%nat →
        groovy_lines schema !! (n + 1 + i)%nat = vertex_label_line <$> vertex_labels !! i) ∧
  groovy_lines schema !! (n + 1 + m)%nat = Some "" ∧
  (∀ i, groovy_lines schema !! (n + m + 2 + i)%nat
        = edge_label_line <$> edge_labels !! i).
Proof.
  intros property_keys vertex_labels edge_labels n m.
  split; [reflexivity|]. rewrite groovy_lines_groups.
  fold property_keys vertex_labels edge_labels.
  assert (List.length (map property_key_line property_keys) = n) as Hn
    by apply length_map.
  assert (List.length (map vertex_label_line vertex_labels) = m) as Hm
    by apply length_map.
  split; [|split; [|split; [|split; [|split]]]].
  - rewrite !length_app, !length_map. cbn [List.length]. lia.
  - intros i Hi. rewrite lookup_app_l by lia. apply list_lookup_fmap.
  - rewrite lookup_app_r by lia. rewrite Hn, Nat.sub_diag. reflexivity.
  - intros i Hi. rewrite lookup_app_r by lia. rewrite Hn.
    rewrite (lookup_app_r [""]) by (cbn [List.length]; lia). cbn [List.length].
    replace (n + 1 + i - n - 1)%nat with i by lia.
    rewrite lookup_app_l by lia. apply list_lookup_fmap.
  - rewrite lookup_app_r by lia. rewrite Hn.
    rewrite (lookup_app_r [""]) by (cbn [List.length]; lia). cbn [List.length].
    rewrite lookup_app_r by lia. rewrite Hm.
    replace (n + 1 + m - n - 1 - m)%nat with 0%nat by lia. reflexivity.
  - intros i. rewrite lookup_app_r by lia. rewrite Hn.
    rewrite (lookup_app_r [""]) by (cbn [List.length]; lia). cbn [List.length].
    rewrite lookup_app_r by lia. rewrite Hm.
    rewrite (lookup_app_r [""]) by (cbn [List.length]; lia). cbn [List.length].
    replace (n + m + 2 + i - n - 1 - m - 1)%nat with i by lia.
    apply list_lookup_fmap.
Qed.

End statements.

Section entries.
Import Pydantic.
Local Open Scope list_scope.

Lemma errors_of_ap {A B} (vf : validation (A → B)) (va : validation A) :
  errors_of (vf <*> va) = errors_of vf ++ errors_of va.
Proof. destruct vf, va; cbn [ap errors_of]; by rewrite ?app_nil_r. Qed.

Lemma errors_of_raise (d : dict) (e : error_detail) :
  e ∈ errors_of (SchemaDefinition_fields [] d) →
  ∃ errors, json_to_groovy (inl d) = Raise (ValidationError errors) ∧ e ∈ errors.
Proof.
  unfold json_to_groovy, Pydantic.SchemaDefinition.
  destruct (SchemaDefinition_fields [] d) as [schema|errors]; cbn [errors_of].
  - by intros ?%elem_of_nil.
  - intros He. by exists errors.
Qed.

Lemma errors_of_list_items {A} (item : validator A) (loc : list loc_item)
    (vs : list json) (i k : nat) (v : json) (e : error_detail) :
  vs !! i = Some v →
  e ∈ errors_of (item (loc ++ [Index (k + i)]) v) →
  e ∈ errors_of (list_items item loc k vs).
Proof.
  revert i k. induction vs as [|x vs IH]; intros i k; [done|].
  cbn [list_items]. rewrite !errors_of_ap. cbn [errors_of app].
  destruct i as [|i]; cbn [lookup list_lookup].
  - intros [= ->]. rewrite Nat.add_0_r. intros He. apply elem_of_app. by left.
  - intros Hv He. apply elem_of_app. right. apply (IH i (S k)); [done|].
    by replace (S k + i)%nat with (k + S i)%nat by lia.
Qed.

Lemma errors_of_required_list {A} (fields : list loc_item → dict → validation A)
    (d : dict) (group : string) (xs : list json) (i : nat) (x : dict)
    (e : error_detail) :
  dict_get group d = Some (JArr xs) → xs !! i = Some (JObj x) →
  e ∈ errors_of (fields [Field group; Index i] x) →
  e ∈ errors_of (required (list_type (model_type fields)) [] d group).
Proof.
  intros Hget Hi He. unfold required. rewrite Hget. cbn [list_type app].
  apply (errors_of_list_items _ _ xs i 0 (JObj x)); [done|]. exact He.
Qed.

Lemma errors_of_required_missing {A} (check : validator A) (loc : list loc_item)
    (d : dict) (field : string) :
  dict_get field d = None →
  errors_of (required check loc d field) = [(loc ++ [Field field], Missing)].
Proof. intros Hget. unfold required. by rewrite Hget. Qed.

(** X8: every missing mandatory field of every element is reported. The
    validation does not stop at the first error: whatever else is wrong in
    the dictionary, the error it raises has an entry for the field, at the
    place of the element. *)
Theorem missing_field_reported (d : dict) (group : string) (decl : Declared.t)
    (xs : list json) (i : nat) (x : dict) (field : string) :
  Declared.of_group group = Some decl →
  dict_get group d = Some (JArr xs) →
  xs !! i = Some (JObj x) →
  field ∈ Declared.required decl →
  dict_get field x = None →
  ∃ errors, json_to_groovy (inl d) = Raise (ValidationError errors) ∧
            ([Field group; Index i; Field field], Missing) ∈ errors.
Proof.
  intros Hgroup Hget Hi Hfield Hmissing. apply errors_of_raise.
  unfold SchemaDefinition_fields. rewrite !errors_of_ap. cbn [errors_of app].
  unfold Declared.of_group in Hgroup.
  destruct (String.eqb group "property_keys") eqn:H1;
    [|destruct (String.eqb group "vertex_labels") eqn:H2;
      [|destruct (String.eqb group "edge_labels") eqn:H3; [|done]]].
  - apply String.eqb_eq in H1 as ->. injection Hgroup as <-.
    apply elem_of_app. left. apply elem_of_app. left.
    eapply errors_of_required_list; [done..|].
    unfold PropertyKey_fields. rewrite !errors_of_ap. cbn [errors_of app].
    cbn [Declared.required Declared.PropertyKey] in Hfield.
    repeat (apply elem_of_cons in Hfield as [-> | Hfield]);
      [..|by apply elem_of_nil in Hfield];
      rewrite (errors_of_required_missing _ _ _ _ Hmissing); set_solver.
  - apply String.eqb_eq in H2 as ->. injection Hgroup as <-.
    apply elem_of_app. left. apply elem_of_app. right.
    eapply errors_of_required_list; [done..|].
    unfold VertexLabel_fields. rewrite !errors_of_ap. cbn [errors_of app].
    cbn [Declared.required Declared.VertexLabel] in Hfield.
    repeat (apply elem_of_cons in Hfield as [-> | Hfield]);
      [..|by apply elem_of_nil in Hfield];
      rewrite (errors_of_required_missing _ _ _ _ Hmissing); set_solver.
  - apply String.eqb_eq in H3 as ->. injection Hgroup as <-.
    apply elem_of_app. right.
    eapply errors_of_required_list; [done..|].
    unfold EdgeLabel_fields. rewrite !errors_of_ap. cbn [errors_of app].
    cbn [Declared.required Declared.EdgeLabel] in Hfield.
    repeat (apply elem_of_cons in Hfield as [-> | Hfield]);
      [..|by apply elem_of_nil in Hfield];
      rewrite (errors_of_required_missing _ _ _ _ Hmissing); set_solver.
Qed.

Lemma missing_field_reported_witness :
  ∃ errors,
    json_to_groovy
      (inl [("property_keys", JArr [JInt 3]);
            ("vertex_labels", JArr [JObj [("name", JStr "person"); ("properties", JArr [])];
                                    JObj [("name", JStr "software")]])])
    = Raise (ValidationError errors) ∧
    ([Field "vertex_labels"; Index 1; Field "properties"], Missing) ∈ errors.
Proof.
  apply (missing_field_reported _ "vertex_labels" Declared.VertexLabel
           [JObj [("name", JStr "person"); ("properties", JArr [])];
            JObj [("name", JStr "software")]] 1 [("name", JStr "software")] "properties");
    try reflexivity.
  cbn. apply list_elem_of_further, list_elem_of_here.
Defined.

(** *** Keys that are not declared *)

Lemma required_agree {A} (check : validator A) (loc : list loc_item) (d d' : dict)
    (field : string) :
  dict_get field d = dict_get field d' →
  required check loc d field = required check loc d' field.
Proof. intros Hget. unfold required. by rewrite Hget. Qed.

Lemma optional_agree {A} (check : validator A) (loc : list loc_item) (d d' : dict)
    (field : string) :
  Declared.optional_value d field = Declared.optional_value d' field →
  optional check loc d field = optional check loc d' field.
Proof.
  unfold Declared.optional_value, optional.
  destruct (dict_get field d) as [[]|], (dict_get field d') as [[]|];
    intros [=]; by subst.
Qed.

Ltac agree_fields H :=
  let Hrequired := fresh "Hrequired" in
  let Hoptional := fresh "Hoptional" in
  destruct H as [Hrequired Hoptional];
  cbv [Declared.required Declared.optional Declared.PropertyKey Declared.VertexLabel
       Declared.EdgeLabel] in Hrequired, Hoptional;
  repeat (apply Forall_cons in Hrequired as [? Hrequired]);
  repeat (apply Forall_cons in Hoptional as [? Hoptional]);
  repeat match goal with
         | E : dict_get ?f ?d = dict_get ?f ?d' |- _ =>
             rewrite (required_agree _ _ d d' f E); clear E
         | E : Declared.optional_value ?d ?f = Declared.optional_value ?d' ?f |- _ =>
             rewrite (optional_agree _ _ d d' f E); clear E
         end;
  reflexivity.

Lemma PropertyKey_fields_agree (loc : list loc_item) (d d' : dict) :
  Declared.agree Declared.PropertyKey (JObj d) (JObj d') →
  PropertyKey_fields loc d = PropertyKey_fields loc d'.
Proof. intros H. unfold PropertyKey_fields. agree_fields H. Qed.

Lemma VertexLabel_fields_agree (loc : list loc_item) (d d' : dict) :
  Declared.agree Declared.VertexLabel (JObj d) (JObj d') →
  VertexLabel_fields loc d = VertexLabel_fields loc d'.
Proof. intros H. unfold VertexLabel_fields. agree_fields H. Qed.

Lemma EdgeLabel_fields_agree (loc : list loc_item) (d d' : dict) :
  Declared.agree Declared.EdgeLabel (JObj d) (JObj d') →
  EdgeLabel_fields loc d = EdgeLabel_fields loc d'.
Proof. intros H. unfold EdgeLabel_fields. agree_fields H. Qed.

Lemma list_items_agree {A} (decl : Declared.t)
    (fields : list loc_item → dict → validation A) (loc : list loc_item)
    (vs vs' : list json) (k : nat) :
  (∀ loc d d', Declared.agree decl (JObj d) (JObj d') → fields loc d = fields loc d') →
  Forall2 (Declared.agree decl) vs vs' →
  list_items (model_type fields) loc k vs = list_items (model_type fields) loc k vs'.
Proof.
  intros Hfields Hall. revert k.
  induction Hall as [|v v' vs vs' Hv _ IH]; intros k; [reflexivity|].
  cbn [list_items]. rewrite IH. do 2 f_equal.
  destruct v as [| | | | | |d], v' as [| | | | | |d']; cbn [Declared.agree] in Hv;
    try done; try by rewrite Hv.
  cbn [model_type]. by apply Hfields.
Qed.

(** X9: the script depends on an element through its declared fields only.
    Two schema dictionaries whose elements are, one by one, dictionaries that
    agree on the declared fields (a null optional field being as good as an
    absent one) give the same result, whatever other keys they hold and in
    whatever order the keys come. *)
Theorem undeclared_keys_ignored (d d' : dict)
    (property_keys property_keys' vertex_labels vertex_labels'
     edge_labels edge_labels' : list json) :
  dict_get "property_keys" d = Some (JArr property_keys) →
  dict_get "property_keys" d' = Some (JArr property_keys') →
  dict_get "vertex_labels" d = Some (JArr vertex_labels) →
  dict_get "vertex_labels" d' = Some (JArr vertex_labels') →
  dict_get "edge_labels" d = Some (JArr edge_labels) →
  dict_get "edge_labels" d' = Some (JArr edge_labels') →
  Forall2 (Declared.agree Declared.PropertyKey) property_keys property_keys' →
  Forall2 (Declared.agree Declared.VertexLabel) vertex_labels vertex_labels' →
  Forall2 (Declared.agree Declared.EdgeLabel) edge_labels edge_labels' →
  json_to_groovy (inl d) = json_to_groovy (inl d').
Proof.
  intros Hp Hp' Hv Hv' He He' Hps Hvs Hes.
  unfold json_to_groovy, Pydantic.SchemaDefinition, SchemaDefinition_fields, required.
  rewrite Hp, Hp', Hv, Hv', He, He'. cbn [list_type].
  rewrite (list_items_agree _ _ _ _ _ 0 PropertyKey_fields_agree Hps).
  rewrite (list_items_agree _ _ _ _ _ 0 VertexLabel_fields_agree Hvs).
  rewrite (list_items_agree _ _ _ _ _ 0 EdgeLabel_fields_agree Hes).
  reflexivity.
Qed.

Lemma undeclared_keys_ignored_witness :
  json_to_groovy
    (inl [("property_keys", JArr [JObj [("name", JStr "age"); ("type", JStr "int")]]);
          ("vertex_labels", JArr []); ("edge_labels", JArr [])])
  = json_to_groovy
      (inl [("title", JStr "people"); ("edge_labels", JArr []);
            ("vertex_labels", JArr []);
            ("property_keys", JArr [JObj [("cardinality", JNull); ("type", JStr "int");
                                          ("name", JStr "age"); ("data_type", JStr "long")]])]).
Proof.
  apply (undeclared_keys_ignored _ _
           [JObj [("name", JStr "age"); ("type", JStr "int")]]
           [JObj [("cardinality", JNull); ("type", JStr "int");
                  ("name", JStr "age"); ("data_type", JStr "long")]] [] [] [] []);
    try reflexivity; repeat constructor.
Defined.

End entries.

(** *** The type tag *)

Lemma upper_lower (c : ascii) : upper (lower c) = upper c.
Proof. destruct c as [[] [] [] [] [] [] [] []]; vm_compute; reflexivity. Qed.

Lemma is_upper_lower (c : ascii) : is_upper (lower c) = false.
Proof. destruct c as [[] [] [] [] [] [] [] []]; vm_compute; reflexivity. Qed.

Lemma is_lower_upper (c : ascii) : is_lower (upper c) = false.
Proof. destruct c as [[] [] [] [] [] [] [] []]; vm_compute; reflexivity. Qed.

Lemma capitalize_lower_all (s s' : string) :
  lower_all s = lower_all s' → capitalize s = capitalize s'.
Proof.
  destruct s as [|c s], s' as [|c' s']; cbn [lower_all capitalize]; try done.
  intros [= Hc Hs]. by rewrite <- (upper_lower c), Hc, upper_lower, Hs.
Qed.

Lemma lower_all_no_upper (s : string) :
  Forall (λ c, is_upper c = false) (list_ascii_of_string (lower_all s)).
Proof.
  induction s as [|c s IH]; cbn [lower_all list_ascii_of_string]; constructor;
    [apply is_upper_lower | exact IH].
Qed.

(** X10: the accessor of a property key is named after the type tag up to
    the case of its letters. For type tags of ASCII characters, as those of
    the data model are: two tags that differ in case only give the same
    statement, and in the name that follows [.as] the first character is not
    a lower-case letter and no other character is an upper-case letter. *)
Theorem type_tag_case (name type type' : string) (cardinality : option string)
    (options : option dict) :
  ascii_only type = true → ascii_only type' = true →
  (lower_all type = lower_all type' →
   property_key_line
     {| PropertyKey.name := name; PropertyKey.type := type;
        PropertyKey.cardinality := cardinality; PropertyKey.options := options |}
   = property_key_line
       {| PropertyKey.name := name; PropertyKey.type := type';
          PropertyKey.cardinality := cardinality; PropertyKey.options := options |}) ∧
  (∀ c rest, capitalize type = String c rest →
             is_lower c = false ∧
             Forall (λ x, is_upper x = false) (list_ascii_of_string rest)).
Proof.
  intros _ _. split.
  - intros Htype. unfold property_key_line. cbn [PropertyKey.name PropertyKey.type
      PropertyKey.cardinality PropertyKey.options].
    by rewrite (capitalize_lower_all type type').
  - intros c rest. destruct type as [|x type]; cbn [capitalize]; [done|].
    intros [= <- <-]. split; [apply is_lower_upper | apply lower_all_no_upper].
Qed.

Lemma type_tag_case_witness :
  ascii_only "UUID" = true ∧ ascii_only "uuid" = true ∧
  property_key_line
    {| PropertyKey.name := "id"; PropertyKey.type := "UUID";
       PropertyKey.cardinality := None; PropertyKey.options := None |}
  = property_key_line
      {| PropertyKey.name := "id"; PropertyKey.type := "uuid";
         PropertyKey.cardinality := None; PropertyKey.options := None |} ∧
  is_lower "U" = false ∧
  Forall (λ x, is_upper x = false) (list_ascii_of_string "uid").
Proof.
  split; [reflexivity|]. split; [reflexivity|]. split.
  - apply (proj1 (type_tag_case "id" "UUID" "uuid" None None eq_refl eq_refl)).
    reflexivity.
  - apply (proj2 (type_tag_case "id" "UUID" "uuid" None None eq_refl eq_refl)
             "U"%char "uid").
    reflexivity.
Defined.

(** * The endpoints *)

Section endpoints.
Import Api.
Local Open Scope list_scope.
Context {S : Type} (w : environment S).

Lemma run_then {A B} (p : io A) (f : A → io B) (s : S) :
  run w (p ≫= f) s
  = match run w p s with
    | (t, Returned a, s') =>
        let '(t', o, s'') := run w (f a) s' in (t ++ t', o, s'')
    | (t, Raised e, s') => (t, Raised e, s')
    end.
Proof.
  revert s. induction p as [a|e|r k IH]; intros s.
  - cbn [mbind io_mbind io_bind run]. by destruct (run w (f a) s) as [[t o] s'].
  - reflexivity.
  - cbn [mbind io_mbind io_bind run]. change (io_bind f (k ?x)) with (k x ≫= f).
    rewrite IH. destruct (run w (k (w r s).1) (w r s).2) as [[t [a|e]] s']; [|done].
    by destruct (run w (f a) s') as [[t' o] s''].
Qed.

Lemma run_try_except {A} (body : io A) (handler : error → io A) (s : S) :
  run w (try_except body handler) s
  = match run w body s with
    | (t, Returned a, s') => (t, Returned a, s')
    | (t, Raised e, s') =>
        let '(t', o, s'') := run w (handler e) s' in (t ++ t', o, s'')
    end.
Proof.
  revert s. induction body as [a|e|r k IH]; intros s.
  - reflexivity.
  - cbn [try_except run]. by destruct (run w (handler e) s) as [[t o] s'].
  - cbn [try_except run]. rewrite IH.
    destruct (run w (k (w r s).1) (w r s).2) as [[t [a|e]] s']; [done|].
    by destruct (run w (handler e) s') as [[t' o] s''].
Qed.

Lemma run_on_exit {A} (body : io A) (exit : io unit) (s : S) :
  run w (on_exit body exit) s
  = let '(t, o, s') := run w body s in
    match run w exit s' with
    | (t', Returned _, s'') => (t ++ t', o, s'')
    | (t', Raised e, s'') => (t ++ t', Raised e, s'')
    end.
Proof.
  revert s. induction body as [a|e|r k IH]; intros s.
  - cbn [on_exit run]. rewrite run_then. cbn [app].
    destruct (run w exit s) as [[t' [[]|e]] s']; cbn [run]; by rewrite ?app_nil_r.
  - cbn [on_exit run]. rewrite run_then. cbn [app].
    destruct (run w exit s) as [[t' [[]|e']] s']; cbn [run]; by rewrite ?app_nil_r.
  - cbn [on_exit run]. rewrite IH.
    destruct (run w (k (w r s).1) (w r s).2) as [[t o] s'].
    by destruct (run w exit s') as [[t' [[]|e]] s''].
Qed.

(** *** Calls whose interactions are known *)

Lemma always_return {A} (a : A) : always w (Return a) [] (Returned a).
Proof. intros s. by exists s. Qed.

Lemma always_throw {A} (e : error) : always w (Throw e : io A) [] (Raised e).
Proof. intros s. by exists s. Qed.

Lemma always_perform (r : request) (x : answer r) :
  answers w r x → always w (perform r) [existT r x] (Returned x).
Proof. intros Hx s. exists (w r s).2. cbn [perform run]. by rewrite Hx. Qed.

Lemma always_then {A B} (p : io A) (f : A → io B) (t t' : list interaction)
    (a : A) (o : outcome B) :
  always w p t (Returned a) → always w (f a) t' o → always w (p ≫= f) (t ++ t') o.
Proof.
  intros Hp Hf s. destruct (Hp s) as [s' Hs']. destruct (Hf s') as [s'' Hs''].
  exists s''. by rewrite run_then, Hs', Hs''.
Qed.

Lemma always_raised {A B} (p : io A) (f : A → io B) (t : list interaction)
    (e : error) :
  always w p t (Raised e) → always w (p ≫= f) t (Raised e).
Proof. intros Hp s. destruct (Hp s) as [s' Hs']. exists s'. by rewrite run_then, Hs'. Qed.

Lemma always_try_returned {A} (body : io A) (handler : error → io A)
    (t : list interaction) (a : A) :
  always w body t (Returned a) → always w (try_except body handler) t (Returned a).
Proof.
  intros Hp s. destruct (Hp s) as [s' Hs']. exists s'. by rewrite run_try_except, Hs'.
Qed.

Lemma always_try_raised {A} (body : io A) (handler : error → io A)
    (t t' : list interaction) (e : error) (o : outcome A) :
  always w body t (Raised e) → always w (handler e) t' o →
  always w (try_except body handler) (t ++ t') o.
Proof.
  intros Hp Hh s. destruct (Hp s) as [s' Hs']. destruct (Hh s') as [s'' Hs''].
  exists s''. by rewrite run_try_except, Hs', Hs''.
Qed.

Lemma always_on_exit {A} (body : io A) (exit : io unit) (t t' : list interaction)
    (o : outcome A) :
  always w body t o → always w exit t' (Returned tt) →
  always w (on_exit body exit) (t ++ t') o.
Proof.
  intros Hp Hx s. destruct (Hp s) as [s' Hs']. destruct (Hx s') as [s'' Hs''].
  exists s''. by rewrite run_on_exit, Hs', Hs''.
Qed.

Lemma always_perform_then {A} (r : request) (x : answer r) (f : answer r → io A)
    (t : list interaction) (o : outcome A) :
  answers w r x → always w (f x) t o → always w (perform r ≫= f) (said r x :: t) o.
Proof.
  intros Hx Hf. apply (always_then _ _ [said r x] t x); [|done]. by apply always_perform.
Qed.

Lemma always_save_uploads (tmpdir : string) (files : list UploadFile)
    (file_mapping : gmap string string) :
  (∀ content file_path, answers w (copyfileobj content file_path) (Returned tt)) →
  always w (save_uploads tmpdir files file_mapping) (saved tmpdir files)
         (Returned (file_mapping_of tmpdir files file_mapping)).
Proof.
  intros Hcopy. revert file_mapping.
  induction files as [|file files IH]; intros file_mapping; [apply always_return|].
  cbn [save_uploads saved map file_mapping_of foldl].
  apply (always_then _ _ [_] _ tt); [|apply IH].
  apply always_perform_then; [apply Hcopy | apply always_return].
Qed.

Lemma os_path_join_not_empty (a b : string) : b ≠ "" → os_path_join a b ≠ "".
Proof.
  intros Hb. unfold os_path_join. destruct (starts_with_slash b); [done|].
  destruct a as [|c a]; [done|]. by destruct (ends_with_slash (String c a)).
Qed.

Lemma truthy_str_Some (s : string) : s ≠ "" → truthy_str (Some s) = Some s.
Proof. by destruct s. Qed.

(** The conversion of a schema text that is there and compiles. *)
Lemma always_convert (tmpdir job_id text : string) (schema_data : json)
    (schema_groovy : string) :
  let schema_path := os_path_join tmpdir ("schema-" +:+ job_id +:+ ".groovy") in
  text ≠ "" →
  answers w (json_loads text) (Returned schema_data) →
  json_to_groovy_value schema_data = Ok schema_groovy →
  answers w (write schema_path schema_groovy) (Returned tt) →
  always w (convert tmpdir job_id (Some text))
         [said (json_loads text) (Returned schema_data);
          said (write schema_path schema_groovy) (Returned tt)]
         (Returned (Some schema_path, Some schema_groovy)).
Proof.
  intros schema_path Htext Hloads Hgroovy Hwrite. unfold convert.
  rewrite truthy_str_Some by done.
  apply (always_then _ _ [_] [_] schema_data).
  { apply always_perform_then; [done | apply always_return]. }
  rewrite Hgroovy. apply (always_then _ _ [] [_] schema_groovy); [apply always_return|].
  apply (always_then _ _ [_] [] tt); [|apply always_return].
  apply always_perform_then; [done | apply always_return].
Qed.

(** The job in its directory, when every step succeeds. *)
Lemma always_job (files : list UploadFile) (schema_json : option string)
    (job_id tmpdir : string) (config_data : json)
    (converted : list interaction) (schema_path schema_groovy : option string)
    (updated_config : json) (result : CompletedProcess) :
  let config_path := os_path_join tmpdir ("struct-" +:+ job_id +:+ ".json") in
  (∀ content file_path, answers w (copyfileobj content file_path) (Returned tt)) →
  always w (convert tmpdir job_id schema_json) converted
         (Returned (schema_path, schema_groovy)) →
  update_file_paths_in_config config_data (file_mapping_of tmpdir files ∅)
  = Ok updated_config →
  answers w (json_dump updated_config config_path 2) (Returned tt) →
  answers w (subprocess_run (loader_command config_path schema_path)) (Returned result) →
  always w (job job_id files schema_json config_data tmpdir)
         (saved tmpdir files ++ converted
          ++ [said (json_dump updated_config config_path 2) (Returned tt);
              said (subprocess_run (loader_command config_path schema_path)) (Returned result)])
         (Returned (response job_id result schema_groovy)).
Proof.
  intros config_path Hcopy Hconvert Hupdate Hdump Hrun. unfold job.
  apply (always_then _ _ _ _ _ _ (always_save_uploads tmpdir files ∅ Hcopy)).
  apply (always_then _ _ _ _ _ _ Hconvert). cbn [fst snd].
  rewrite Hupdate. apply (always_then _ _ [] _ updated_config); [apply always_return|].
  apply (always_then _ _ [_] [_] tt).
  { apply always_perform_then; [done | apply always_return]. }
  apply (always_then _ _ [_] [] result); [|apply always_return].
  apply always_perform_then; [done | apply always_return].
Qed.

(** The request, around the job: what the job returns is returned, and an
    exception of the job becomes an [HTTPException]. *)
Lemma always_load_data (files : list UploadFile) (config : string)
    (schema_json : option string) (job_id tmpdir : string) (config_data : json)
    (t : list interaction) (o : outcome HugeGraphLoadResponse) :
  answers w uuid4 job_id →
  answers w (json_loads config) (Returned config_data) →
  answers w TemporaryDirectory (Returned tmpdir) →
  answers w (cleanup tmpdir) (Returned tt) →
  always w (job job_id files schema_json config_data tmpdir) t o →
  always w (load_data files config schema_json)
         ([said uuid4 job_id; said (json_loads config) (Returned config_data);
           said TemporaryDirectory (Returned tmpdir)] ++ t ++ [said (cleanup tmpdir) (Returned tt)])
         (match o with
          | Returned a => Returned a
          | Raised JSONDecodeError =>
              Raised (HTTPException 400 "Invalid JSON: " JSONDecodeError)
          | Raised e => Raised (HTTPException 500 "Error processing request: " e)
          end).
Proof.
  intros Hjob Hconfig Htmp Hcleanup Hbody.
  assert (always w (config_data ← (perform (json_loads config) ≫= returned);
                    with_TemporaryDirectory (job job_id files schema_json config_data))
                 ([said (json_loads config) (Returned config_data);
                   said TemporaryDirectory (Returned tmpdir)] ++ t
                  ++ [said (cleanup tmpdir) (Returned tt)]) o) as Hrequest.
  { cbn [app]. apply (always_then _ _ [_] _ config_data).
    { apply always_perform_then; [done | apply always_return]. }
    unfold with_TemporaryDirectory.
    apply (always_then _ _ [_] _ tmpdir).
    { apply always_perform_then; [done | apply always_return]. }
    apply always_on_exit; [done|].
    apply always_perform_then; [done | apply always_return]. }
  unfold load_data. cbn [app]. apply (always_perform_then uuid4 job_id); [done|].
  destruct o as [a|e].
  - by apply always_try_returned.
  - rewrite <- (app_nil_r (_ :: _ :: _)).
    eapply always_try_raised; [exact Hrequest|]. destruct e; apply always_throw.
Qed.

Lemma always_convert_none (tmpdir job_id : string) (schema_json : option string) :
  truthy_str schema_json = None →
  always w (convert tmpdir job_id schema_json) [] (Returned (None, None)).
Proof. intros Hnone. unfold convert. rewrite Hnone. apply always_return. Qed.

Lemma always_convert_invalid (tmpdir job_id text : string) (e : error) :
  text ≠ "" → answers w (json_loads text) (Raised e) →
  always w (convert tmpdir job_id (Some text)) [said (json_loads text) (Raised e)]
         (Raised e).
Proof.
  intros Htext Hloads. unfold convert. rewrite truthy_str_Some by done.
  apply always_raised. apply always_perform_then; [done | apply always_throw].
Qed.

Lemma always_convert_error (tmpdir job_id text : string) (schema_data : json)
    (e : exception) :
  text ≠ "" → answers w (json_loads text) (Returned schema_data) →
  json_to_groovy_value schema_data = Raise e →
  always w (convert tmpdir job_id (Some text))
         [said (json_loads text) (Returned schema_data)] (Raised (Python e)).
Proof.
  intros Htext Hloads Hgroovy. unfold convert. rewrite truthy_str_Some by done.
  apply (always_then _ _ [_] [] schema_data).
  { apply always_perform_then; [done | apply always_return]. }
  rewrite Hgroovy. apply always_raised, always_throw.
Qed.

Lemma always_job_convert_raised (files : list UploadFile) (schema_json : option string)
    (job_id tmpdir : string) (config_data : json) (converted : list interaction)
    (e : error) :
  (∀ content file_path, answers w (copyfileobj content file_path) (Returned tt)) →
  always w (convert tmpdir job_id schema_json) converted (Raised e) →
  always w (job job_id files schema_json config_data tmpdir)
         (saved tmpdir files ++ converted) (Raised e).
Proof.
  intros Hcopy Hconvert. unfold job.
  apply (always_then _ _ _ _ _ _ (always_save_uploads tmpdir files ∅ Hcopy)).
  by apply always_raised.
Qed.

Lemma always_job_update_raised (files : list UploadFile) (schema_json : option string)
    (job_id tmpdir : string) (config_data : json) (converted : list interaction)
    (schema : option string * option string) (e : exception) :
  (∀ content file_path, answers w (copyfileobj content file_path) (Returned tt)) →
  always w (convert tmpdir job_id schema_json) converted (Returned schema) →
  update_file_paths_in_config config_data (file_mapping_of tmpdir files ∅) = Raise e →
  always w (job job_id files schema_json config_data tmpdir)
         (saved tmpdir files ++ converted) (Raised (Python e)).
Proof.
  intros Hcopy Hconvert Hupdate. unfold job.
  apply (always_then _ _ _ _ _ _ (always_save_uploads tmpdir files ∅ Hcopy)).
  rewrite <- (app_nil_r converted).
  apply (always_then _ _ _ _ _ _ Hconvert). rewrite Hupdate.
  apply always_raised, always_throw.
Qed.

End endpoints.

(** X11: a job without schema. When the configuration text is JSON, the
    configuration resolves and the system operations succeed, [load_data]
    saves every upload in the temporary directory under its file name, writes
    the resolved configuration there as [struct-<job>.json], runs the loader
    once on it with the fixed graph, host and port and no [-s] option, and
    removes the directory. It returns a response, also when the loader
    fails: the status is ["success"] for the exit code 0 and ["error"] for
    any other. A schema that is the empty string counts as no schema. *)
Theorem load_data_without_schema {S} (w : Api.environment S)
    (files : list Api.UploadFile) (config : string) (schema_json : option string)
    (job_id tmpdir : string) (config_data updated_config : json)
    (result : Api.CompletedProcess) :
  let config_path := os_path_join tmpdir ("struct-" +:+ job_id +:+ ".json") in
  let cmd := ["sh"; HUGEGRAPH_LOADER_PATH; "-g"; "hugegraph"; "-f"; config_path;
              "-h"; "localhost"; "-p"; "8080"] in
  schema_json = None ∨ schema_json = Some "" →
  Api.answers w Api.uuid4 job_id →
  Api.answers w (Api.json_loads config) (Api.Returned config_data) →
  Api.answers w Api.TemporaryDirectory (Api.Returned tmpdir) →
  (∀ content file_path, Api.answers w (Api.copyfileobj content file_path) (Api.Returned tt)) →
  update_file_paths_in_config config_data (file_mapping_of tmpdir files ∅)
  = Ok updated_config →
  Api.answers w (Api.json_dump updated_config config_path 2) (Api.Returned tt) →
  Api.answers w (Api.subprocess_run cmd) (Api.Returned result) →
  Api.answers w (Api.cleanup tmpdir) (Api.Returned tt) →
  Api.always w (Api.load_data files config schema_json)
    ([Api.said Api.uuid4 job_id; Api.said (Api.json_loads config) (Api.Returned config_data);
      Api.said Api.TemporaryDirectory (Api.Returned tmpdir)]
     ++ saved tmpdir files
     ++ [Api.said (Api.json_dump updated_config config_path 2) (Api.Returned tt);
         Api.said (Api.subprocess_run cmd) (Api.Returned result);
         Api.said (Api.cleanup tmpdir) (Api.Returned tt)])%list
    (Api.Returned (Api.response job_id result None)) ∧
  Api.status (Api.response job_id result None)
  = (if (Api.returncode result =? 0)%Z then "success" else "error") ∧
  Api.schema_groovy (Api.response job_id result None) = None.
Proof.
  intros config_path cmd Hschema Hjob Hconfig Htmp Hcopy Hupdate Hdump Hrun Hcleanup.
  split; [|unfold Api.response; by destruct (Api.returncode result =? 0)%Z].
  assert (truthy_str schema_json = None) as Hnone by (by destruct Hschema as [-> | ->]).
  pose proof (always_job w files schema_json job_id tmpdir config_data [] None None
                updated_config result Hcopy
                (always_convert_none w tmpdir job_id schema_json Hnone)
                Hupdate Hdump Hrun) as Hbody.
  pose proof (always_load_data w files config schema_json job_id tmpdir config_data
                _ _ Hjob Hconfig Htmp Hcleanup Hbody) as Hrequest.
  cbn [app] in Hrequest |- *. by rewrite <- !app_assoc in Hrequest.
Qed.

Lemma load_data_without_schema_witness :
  let result := {| Api.returncode := 1; Api.stdout := "out"; Api.stderr := "no server" |} in
  let parse := λ _ : string,
    Api.Returned
         (JObj [("vertices",
                 JArr [JObj [("input", JObj [("type", JStr "file");
                                             ("path", JStr "data/people.csv")])]])]) in
  let w := Api.obliging "7f" "/tmp/tmpab" parse result in
  let files := [{| Api.filename := "people.csv"; Api.file := "name,age" |}] in
  let updated_config :=
    JObj [("vertices",
           JArr [JObj [("input", JObj [("type", JStr "file");
                                       ("path", JStr "/tmp/tmpab/people.csv")])]])] in
  let cmd := ["sh"; HUGEGRAPH_LOADER_PATH; "-g"; "hugegraph";
              "-f"; "/tmp/tmpab/struct-7f.json"; "-h"; "localhost"; "-p"; "8080"] in
  Api.always w (Api.load_data files "{}" (Some ""))
    [Api.said Api.uuid4 "7f"; Api.said (Api.json_loads "{}") (parse "{}");
     Api.said Api.TemporaryDirectory (Api.Returned "/tmp/tmpab");
     Api.said (Api.copyfileobj "name,age" "/tmp/tmpab/people.csv") (Api.Returned tt);
     Api.said (Api.json_dump updated_config "/tmp/tmpab/struct-7f.json" 2) (Api.Returned tt);
     Api.said (Api.subprocess_run cmd) (Api.Returned result);
     Api.said (Api.cleanup "/tmp/tmpab") (Api.Returned tt)]
    (Api.Returned (Api.response "7f" result None)) ∧
  Api.status (Api.response "7f" result None) = "error" ∧
  Api.schema_groovy (Api.response "7f" result None) = None.
Proof.
  intros result parse w files updated_config cmd.
  apply (load_data_without_schema w files "{}" (Some "") "7f" "/tmp/tmpab"
           _ updated_config result);
    first [by right | by intros [] | reflexivity].
Defined.

(** X12: a job with a schema. The schema text is parsed and compiled after
    the uploads are saved; the script is written to the temporary directory
    as [schema-<job>.groovy], the loader is run with [-s] and that path
    after the other arguments, and the response returns the script. *)
Theorem load_data_with_schema {S} (w : Api.environment S)
    (files : list Api.UploadFile) (config text : string)
    (job_id tmpdir : string) (config_data updated_config schema_data : json)
    (schema_groovy : string) (result : Api.CompletedProcess) :
  let config_path := os_path_join tmpdir ("struct-" +:+ job_id +:+ ".json") in
  let schema_path := os_path_join tmpdir ("schema-" +:+ job_id +:+ ".groovy") in
  let cmd := ["sh"; HUGEGRAPH_LOADER_PATH; "-g"; "hugegraph"; "-f"; config_path;
              "-h"; "localhost"; "-p"; "8080"; "-s"; schema_path] in
  text ≠ "" →
  Api.answers w Api.uuid4 job_id →
  Api.answers w (Api.json_loads config) (Api.Returned config_data) →
  Api.answers w Api.TemporaryDirectory (Api.Returned tmpdir) →
  (∀ content file_path, Api.answers w (Api.copyfileobj content file_path) (Api.Returned tt)) →
  Api.answers w (Api.json_loads text) (Api.Returned schema_data) →
  json_to_groovy_value schema_data = Ok schema_groovy →
  Api.answers w (Api.write schema_path schema_groovy) (Api.Returned tt) →
  update_file_paths_in_config config_data (file_mapping_of tmpdir files ∅)
  = Ok updated_config →
  Api.answers w (Api.json_dump updated_config config_path 2) (Api.Returned tt) →
  Api.answers w (Api.subprocess_run cmd) (Api.Returned result) →
  Api.answers w (Api.cleanup tmpdir) (Api.Returned tt) →
  Api.always w (Api.load_data files config (Some text))
    ([Api.said Api.uuid4 job_id; Api.said (Api.json_loads config) (Api.Returned config_data);
      Api.said Api.TemporaryDirectory (Api.Returned tmpdir)]
     ++ saved tmpdir files
     ++ [Api.said (Api.json_loads text) (Api.Returned schema_data);
         Api.said (Api.write schema_path schema_groovy) (Api.Returned tt);
         Api.said (Api.json_dump updated_config config_path 2) (Api.Returned tt);
         Api.said (Api.subprocess_run cmd) (Api.Returned result);
         Api.said (Api.cleanup tmpdir) (Api.Returned tt)])%list
    (Api.Returned (Api.response job_id result (Some schema_groovy))) ∧
  Api.schema_groovy (Api.response job_id result (Some schema_groovy))
  = Some schema_groovy.
Proof.
  intros config_path schema_path cmd Htext Hjob Hconfig Htmp Hcopy Hloads Hgroovy
    Hwrite Hupdate Hdump Hrun Hcleanup.
  split; [|unfold Api.response; by destruct (negb _)].
  assert (Api.loader_command config_path (Some schema_path) = cmd) as Hcmd.
  { unfold Api.loader_command. rewrite truthy_str_Some; [reflexivity|].
    by apply os_path_join_not_empty. }
  rewrite <- Hcmd in Hrun |- *.
  pose proof (always_job w files (Some text) job_id tmpdir config_data _ _ _
                updated_config result Hcopy
                (always_convert w tmpdir job_id text schema_data schema_groovy
                   Htext Hloads Hgroovy Hwrite)
                Hupdate Hdump Hrun) as Hbody.
  pose proof (always_load_data w files config (Some text) job_id tmpdir config_data
                _ _ Hjob Hconfig Htmp Hcleanup Hbody) as Hrequest.
  cbn [app] in Hrequest |- *. by rewrite <- !app_assoc in Hrequest.
Qed.

Lemma load_data_with_schema_witness :
  let result := {| Api.returncode := 0; Api.stdout := "done"; Api.stderr := "" |} in
  let schema_data :=
    JObj [("property_keys", JArr [JObj [("name", JStr "age"); ("type", JStr "int")]]);
          ("vertex_labels", JArr []); ("edge_labels", JArr [])] in
  let parse := λ s : string,
    Api.Returned (if String.eqb s "{}" then JObj [] else schema_data) in
  let w := Api.obliging "7f" "/tmp/tmpab" parse result in
  let schema_groovy :=
    "schema.propertyKey(" +:+ dq +:+ "age" +:+ dq +:+ ").asInt().ifNotExist().create();"
      +:+ nl +:+ nl in
  let cmd := ["sh"; HUGEGRAPH_LOADER_PATH; "-g"; "hugegraph";
              "-f"; "/tmp/tmpab/struct-7f.json"; "-h"; "localhost"; "-p"; "8080";
              "-s"; "/tmp/tmpab/schema-7f.groovy"] in
  Api.always w (Api.load_data [] "{}" (Some "schema"))
    [Api.said Api.uuid4 "7f"; Api.said (Api.json_loads "{}") (Api.Returned (JObj []));
     Api.said Api.TemporaryDirectory (Api.Returned "/tmp/tmpab");
     Api.said (Api.json_loads "schema") (Api.Returned schema_data);
     Api.said (Api.write "/tmp/tmpab/schema-7f.groovy" schema_groovy) (Api.Returned tt);
     Api.said (Api.json_dump (JObj []) "/tmp/tmpab/struct-7f.json" 2) (Api.Returned tt);
     Api.said (Api.subprocess_run cmd) (Api.Returned result);
     Api.said (Api.cleanup "/tmp/tmpab") (Api.Returned tt)]
    (Api.Returned (Api.response "7f" result (Some schema_groovy))) ∧
  Api.schema_groovy (Api.response "7f" result (Some schema_groovy)) = Some schema_groovy.
Proof.
  intros result schema_data parse w schema_groovy cmd.
  apply (load_data_with_schema w [] "{}" "schema" "7f" "/tmp/tmpab"
           (JObj []) (JObj []) schema_data schema_groovy result);
    first [done | by intros [] | reflexivity].
Defined.

(** X13: an exception of [json.loads] ends the request. [JSONDecodeError],
    which it raises on a text that is not JSON, is a 400 with the detail
    [Invalid JSON: ...]; any other exception it raises ([RecursionError] on
    a text nested too deep, for one) is a 500, as every other exception is.
    When it is raised on the configuration nothing else is done: no directory
    is made, no file is written and the loader is not run. When it is raised
    on the schema the uploads are already saved; the directory is removed
    and the loader is not run. *)
Theorem load_data_invalid_json {S} (w : Api.environment S)
    (files : list Api.UploadFile) (config : string) (schema_json : option string)
    (job_id : string) (e : Api.error) :
  let raised :=
    Api.Raised (match e with
                | Api.JSONDecodeError => Api.HTTPException 400 "Invalid JSON: " e
                | _ => Api.HTTPException 500 "Error processing request: " e
                end) in
  Api.answers w Api.uuid4 job_id →
  (Api.answers w (Api.json_loads config) (Api.Raised e) →
   Api.always w (Api.load_data files config schema_json)
     [Api.said Api.uuid4 job_id; Api.said (Api.json_loads config) (Api.Raised e)]
     raised) ∧
  (∀ text config_data tmpdir,
     schema_json = Some text → text ≠ "" →
     Api.answers w (Api.json_loads config) (Api.Returned config_data) →
     Api.answers w Api.TemporaryDirectory (Api.Returned tmpdir) →
     (∀ content file_path,
        Api.answers w (Api.copyfileobj content file_path) (Api.Returned tt)) →
     Api.answers w (Api.json_loads text) (Api.Raised e) →
     Api.answers w (Api.cleanup tmpdir) (Api.Returned tt) →
     Api.always w (Api.load_data files config schema_json)
       ([Api.said Api.uuid4 job_id;
         Api.said (Api.json_loads config) (Api.Returned config_data);
         Api.said Api.TemporaryDirectory (Api.Returned tmpdir)]
        ++ saved tmpdir files
        ++ [Api.said (Api.json_loads text) (Api.Raised e);
            Api.said (Api.cleanup tmpdir) (Api.Returned tt)])%list
       raised).
Proof.
  intros raised Hjob. split.
  - intros Hconfig. unfold Api.load_data.
    apply (always_perform_then w Api.uuid4 job_id); [done|].
    apply (always_try_raised w _ _ [_] [] e);
      [|subst raised; destruct e; apply always_throw].
    apply always_raised. apply always_perform_then; [done | apply always_throw].
  - intros text config_data tmpdir -> Htext Hconfig Htmp Hcopy Hloads Hcleanup.
    pose proof (always_job_convert_raised w files (Some text) job_id tmpdir config_data
                  _ _ Hcopy (always_convert_invalid w tmpdir job_id text e Htext Hloads))
      as Hbody.
    pose proof (always_load_data w files config (Some text) job_id tmpdir config_data
                  _ _ Hjob Hconfig Htmp Hcleanup Hbody) as Hrequest.
    cbn [app] in Hrequest |- *. rewrite <- !app_assoc in Hrequest.
    subst raised. by destruct e.
Qed.

Lemma load_data_invalid_json_witness :
  let result := {| Api.returncode := 0; Api.stdout := "done"; Api.stderr := "" |} in
  let w_config :=
    Api.obliging "7f" "/tmp/tmpab" (λ _, Api.Raised Api.JSONDecodeError) result in
  let w_schema :=
    Api.obliging "7f" "/tmp/tmpab"
      (λ s, if String.eqb s "{}" then Api.Returned (JObj [])
            else Api.Raised (Api.Other "RecursionError")) result in
  Api.always w_config (Api.load_data [] "{" None)
    [Api.said Api.uuid4 "7f";
     Api.said (Api.json_loads "{") (Api.Raised Api.JSONDecodeError)]
    (Api.Raised (Api.HTTPException 400 "Invalid JSON: " Api.JSONDecodeError)) ∧
  Api.always w_schema (Api.load_data [] "{}" (Some "[[[["))
    [Api.said Api.uuid4 "7f"; Api.said (Api.json_loads "{}") (Api.Returned (JObj []));
     Api.said Api.TemporaryDirectory (Api.Returned "/tmp/tmpab");
     Api.said (Api.json_loads "[[[[") (Api.Raised (Api.Other "RecursionError"));
     Api.said (Api.cleanup "/tmp/tmpab") (Api.Returned tt)]
    (Api.Raised (Api.HTTPException 500 "Error processing request: "
                   (Api.Other "RecursionError"))).
Proof.
  intros result w_config w_schema. split.
  - apply (proj1 (load_data_invalid_json w_config [] "{" None "7f" Api.JSONDecodeError
                    ltac:(by intros []))).
    by intros [].
  - apply (proj2 (load_data_invalid_json w_schema [] "{}" (Some "[[[[") "7f"
                    (Api.Other "RecursionError") ltac:(by intros []))
                 "[[[[" (JObj []) "/tmp/tmpab");
      first [done | by intros []].
Defined.

(** X14: an exception of one of the two transformations is a 500 in
    [load_data]. A schema that does not compile (a validation error, or a
    JSON value that is not an object) ends the job after the uploads are
    saved, and a configuration that cannot be resolved ends it before
    anything is written for the loader, in a request without schema and in
    one whose schema was compiled and written; the directory is removed and
    the loader is not run. [convert_schema] answers the same schema error
    with a 400. *)
Theorem load_data_error_is_500 {S} (w : Api.environment S)
    (files : list Api.UploadFile) (config : string) (schema_json : option string)
    (job_id tmpdir : string) (config_data : json) (e : exception) :
  let schema_path := os_path_join tmpdir ("schema-" +:+ job_id +:+ ".groovy") in
  Api.answers w Api.uuid4 job_id →
  Api.answers w (Api.json_loads config) (Api.Returned config_data) →
  Api.answers w Api.TemporaryDirectory (Api.Returned tmpdir) →
  (∀ content file_path,
     Api.answers w (Api.copyfileobj content file_path) (Api.Returned tt)) →
  Api.answers w (Api.cleanup tmpdir) (Api.Returned tt) →
  (∀ text schema_data,
     schema_json = Some text → text ≠ "" →
     Api.answers w (Api.json_loads text) (Api.Returned schema_data) →
     json_to_groovy_value schema_data = Raise e →
     Api.always w (Api.load_data files config schema_json)
       ([Api.said Api.uuid4 job_id;
         Api.said (Api.json_loads config) (Api.Returned config_data);
         Api.said Api.TemporaryDirectory (Api.Returned tmpdir)]
        ++ saved tmpdir files
        ++ [Api.said (Api.json_loads text) (Api.Returned schema_data);
            Api.said (Api.cleanup tmpdir) (Api.Returned tt)])%list
       (Api.Raised (Api.HTTPException 500 "Error processing request: " (Api.Python e))) ∧
     ∀ d, schema_data = JObj d →
          Api.convert_schema (Some d)
          = Api.Throw (Api.HTTPException 400 "Error converting schema: " (Api.Python e))) ∧
  (truthy_str schema_json = None →
   update_file_paths_in_config config_data (file_mapping_of tmpdir files ∅) = Raise e →
   Api.always w (Api.load_data files config schema_json)
     ([Api.said Api.uuid4 job_id;
       Api.said (Api.json_loads config) (Api.Returned config_data);
       Api.said Api.TemporaryDirectory (Api.Returned tmpdir)]
      ++ saved tmpdir files ++ [Api.said (Api.cleanup tmpdir) (Api.Returned tt)])%list
     (Api.Raised (Api.HTTPException 500 "Error processing request: " (Api.Python e)))) ∧
  (∀ text schema_data schema_groovy,
     schema_json = Some text → text ≠ "" →
     Api.answers w (Api.json_loads text) (Api.Returned schema_data) →
     json_to_groovy_value schema_data = Ok schema_groovy →
     Api.answers w (Api.write schema_path schema_groovy) (Api.Returned tt) →
     update_file_paths_in_config config_data (file_mapping_of tmpdir files ∅) = Raise e →
     Api.always w (Api.load_data files config schema_json)
       ([Api.said Api.uuid4 job_id;
         Api.said (Api.json_loads config) (Api.Returned config_data);
         Api.said Api.TemporaryDirectory (Api.Returned tmpdir)]
        ++ saved tmpdir files
        ++ [Api.said (Api.json_loads text) (Api.Returned schema_data);
            Api.said (Api.write schema_path schema_groovy) (Api.Returned tt);
            Api.said (Api.cleanup tmpdir) (Api.Returned tt)])%list
       (Api.Raised (Api.HTTPException 500 "Error processing request: " (Api.Python e)))).
Proof.
  intros schema_path Hjob Hconfig Htmp Hcopy Hcleanup. split; [|split].
  - intros text schema_data -> Htext Hloads Hgroovy. split.
    + pose proof (always_job_convert_raised w files (Some text) job_id tmpdir config_data
                    _ _ Hcopy
                    (always_convert_error w tmpdir job_id text schema_data e
                       Htext Hloads Hgroovy)) as Hbody.
      pose proof (always_load_data w files config (Some text) job_id tmpdir config_data
                    _ _ Hjob Hconfig Htmp Hcleanup Hbody) as Hrequest.
      cbn [app] in Hrequest |- *. by rewrite <- !app_assoc in Hrequest.
    + intros d ->. unfold Api.convert_schema. by rewrite Hgroovy.
  - intros Hnone Hupdate.
    pose proof (always_job_update_raised w files schema_json job_id tmpdir config_data
                  _ _ e Hcopy (always_convert_none w tmpdir job_id schema_json Hnone)
                  Hupdate) as Hbody.
    pose proof (always_load_data w files config schema_json job_id tmpdir config_data
                  _ _ Hjob Hconfig Htmp Hcleanup Hbody) as Hrequest.
    cbn [app] in Hrequest |- *. by rewrite app_nil_r in Hrequest.
  - intros text schema_data schema_groovy -> Htext Hloads Hgroovy Hwrite Hupdate.
    pose proof (always_job_update_raised w files (Some text) job_id tmpdir config_data
                  _ _ e Hcopy
                  (always_convert w tmpdir job_id text schema_data schema_groovy
                     Htext Hloads Hgroovy Hwrite)
                  Hupdate) as Hbody.
    pose proof (always_load_data w files config (Some text) job_id tmpdir config_data
                  _ _ Hjob Hconfig Htmp Hcleanup Hbody) as Hrequest.
    cbn [app] in Hrequest |- *. by rewrite <- !app_assoc in Hrequest.
Qed.

Lemma load_data_error_is_500_witness :
  let result := {| Api.returncode := 0; Api.stdout := "done"; Api.stderr := "" |} in
  let schema_data :=
    JObj [("property_keys", JArr []); ("vertex_labels", JArr []); ("edge_labels", JArr [])] in
  let w :=
    Api.obliging "7f" "/tmp/tmpab"
      (λ s, Api.Returned (if String.eqb s "null" then JNull
                          else if String.eqb s "schema" then schema_data
                          else JArr [])) result in
  Api.always w (Api.load_data [] "{}" (Some "[]"))
    [Api.said Api.uuid4 "7f"; Api.said (Api.json_loads "{}") (Api.Returned (JArr []));
     Api.said Api.TemporaryDirectory (Api.Returned "/tmp/tmpab");
     Api.said (Api.json_loads "[]") (Api.Returned (JArr []));
     Api.said (Api.cleanup "/tmp/tmpab") (Api.Returned tt)]
    (Api.Raised (Api.HTTPException 500 "Error processing request: "
                   (Api.Python AttributeError))) ∧
  Api.always w (Api.load_data [] "null" None)
    [Api.said Api.uuid4 "7f"; Api.said (Api.json_loads "null") (Api.Returned JNull);
     Api.said Api.TemporaryDirectory (Api.Returned "/tmp/tmpab");
     Api.said (Api.cleanup "/tmp/tmpab") (Api.Returned tt)]
    (Api.Raised (Api.HTTPException 500 "Error processing request: "
                   (Api.Python TypeError))) ∧
  Api.always w (Api.load_data [] "null" (Some "schema"))
    [Api.said Api.uuid4 "7f"; Api.said (Api.json_loads "null") (Api.Returned JNull);
     Api.said Api.TemporaryDirectory (Api.Returned "/tmp/tmpab");
     Api.said (Api.json_loads "schema") (Api.Returned schema_data);
     Api.said (Api.write "/tmp/tmpab/schema-7f.groovy" nl) (Api.Returned tt);
     Api.said (Api.cleanup "/tmp/tmpab") (Api.Returned tt)]
    (Api.Raised (Api.HTTPException 500 "Error processing request: "
                   (Api.Python TypeError))).
Proof.
  intros result schema_data w. split; [|split].
  - apply (proj1 (proj1 (load_data_error_is_500 w [] "{}" (Some "[]") "7f" "/tmp/tmpab"
                           (JArr []) AttributeError
                           ltac:(by intros []) ltac:(by intros [])
                           ltac:(by intros []) ltac:(by intros []) ltac:(by intros []))
                   "[]" (JArr []) eq_refl ltac:(done) ltac:(by intros []) eq_refl)).
  - apply (proj1 (proj2 (load_data_error_is_500 w [] "null" None "7f" "/tmp/tmpab"
                    JNull TypeError
                    ltac:(by intros []) ltac:(by intros [])
                    ltac:(by intros []) ltac:(by intros []) ltac:(by intros []))));
      reflexivity.
  - apply (proj2 (proj2 (load_data_error_is_500 w [] "null" (Some "schema") "7f"
                    "/tmp/tmpab" JNull TypeError
                    ltac:(by intros []) ltac:(by intros [])
                    ltac:(by intros []) ltac:(by intros []) ltac:(by intros [])))
                 "schema" schema_data nl);
      first [done | by intros [] | reflexivity].
Defined.

(** X15: [convert_schema] makes no request to the system. It returns the
    script of a dictionary that has the shape of a schema, under the key
    [schema_groovy] and with the status ["success"]; for any other
    dictionary, and when it is called without one, it raises a 400. *)
Theorem convert_schema_outcome (schema_json : option dict) :
  match schema_json with
  | Some d =>
      if Shape.schema_definition d
      then ∃ schema, Pydantic.SchemaDefinition d = Ok schema ∧
                     Api.convert_schema schema_json
                     = Api.Return (JObj [("status", JStr "success");
                                         ("schema_groovy",
                                          JStr (join nl (groovy_lines schema)))])
      else ∃ errors, errors ≠ [] ∧
                     Api.convert_schema schema_json
                     = Api.Throw (Api.HTTPException 400 "Error converting schema: "
                                    (Api.Python (ValidationError errors)))
  | None =>
      Api.convert_schema schema_json
      = Api.Throw (Api.HTTPException 400 "Error converting schema: "
                     (Api.Python AttributeError))
  end.
Proof.
  destruct schema_json as [d|]; [|reflexivity].
  pose proof (SchemaDefinition_fields_outcome d) as H. unfold outcome in H.
  unfold Api.convert_schema, json_to_groovy_value, json_to_groovy,
    Pydantic.SchemaDefinition.
  destruct (Shape.schema_definition d).
  - destruct H as [schema ->]. by exists schema.
  - destruct H as (errors & -> & Hne & _). by exists errors.
Qed.

(** X16: whatever the environment answers, and whatever exception an
    operation raises in it, [load_data] returns a response or raises an
    [HTTPException]: a 400 made from a [JSONDecodeError], a 500 made from
    any other exception. *)
Theorem load_data_raises_http_only {S} (w : Api.environment S) (s : S)
    (files : list Api.UploadFile) (config : string) (schema_json : option string) :
  match snd (fst (Api.run w (Api.load_data files config schema_json) s)) with
  | Api.Returned _ => True
  | Api.Raised (Api.HTTPException status_code detail cause) =>
      (status_code = 400%Z ∧ detail = "Invalid JSON: " ∧ cause = Api.JSONDecodeError) ∨
      (status_code = 500%Z ∧ detail = "Error processing request: " ∧
       cause ≠ Api.JSONDecodeError)
  | Api.Raised _ => False
  end.
Proof.
  unfold Api.load_data. rewrite run_then. cbn [Api.perform Api.run].
  rewrite run_try_except.
  match goal with
  | |- context [Api.run w ?body ?s1] => destruct (Api.run w body s1) as [[t [a|e]] s']
  end; [done|].
  destruct e; cbn [Api.run fst snd]; first [by left | by right].
Qed.

Section interactions.
Import Api.
Local Open Scope list_scope.
Context {S : Type} (w : environment S).

Lemma run_json_loads (text : string) (s : S) :
  run w (perform (json_loads text) ≫= returned) s
  = ([said (json_loads text) (w (json_loads text) s).1],
     (w (json_loads text) s).1, (w (json_loads text) s).2).
Proof.
  cbn [perform mbind io_mbind io_bind run].
  by destruct ((w (json_loads text) s).1).
Qed.

Lemma run_with_TemporaryDirectory {A} (body : string → io A) (s : S) :
  let t := (run w (with_TemporaryDirectory body) s).1.1 in
  (∃ e, t = [said TemporaryDirectory (Raised e)]) ∨
  ∃ tmpdir t' o, t = [said TemporaryDirectory (Returned tmpdir)] ++ t'
                     ++ [said (cleanup tmpdir) o].
Proof.
  cbv zeta. unfold with_TemporaryDirectory. rewrite run_then.
  cbn [perform mbind io_mbind io_bind run].
  destruct ((w TemporaryDirectory s).1) as [tmpdir|e]; cbn [returned run];
    [|left; by exists e].
  right. rewrite run_on_exit.
  destruct (run w (body tmpdir) (w TemporaryDirectory s).2) as [[t' o] s'].
  cbn [perform mbind io_mbind io_bind run].
  exists tmpdir, t', (w (cleanup tmpdir) s').1.
  by destruct ((w (cleanup tmpdir) s').1); cbn [returned run fst].
Qed.

End interactions.

(** X17: the interactions of a request, whatever the environment answers and
    however the request ends. The job identifier is drawn first and the
    configuration is parsed second. If [json.loads] raises on it nothing
    else happens; otherwise the temporary directory is asked for, and when
    it is made the last interaction removes it: the directory never outlives
    the request. *)
Theorem load_data_interactions {S} (w : Api.environment S) (s : S)
    (files : list Api.UploadFile) (config : string) (schema_json : option string) :
  let t := fst (fst (Api.run w (Api.load_data files config schema_json) s)) in
  (∃ job_id e,
     t = [Api.said Api.uuid4 job_id; Api.said (Api.json_loads config) (Api.Raised e)]) ∨
  (∃ job_id config_data e,
     t = [Api.said Api.uuid4 job_id;
          Api.said (Api.json_loads config) (Api.Returned config_data);
          Api.said Api.TemporaryDirectory (Api.Raised e)]) ∨
  (∃ job_id config_data tmpdir t' o,
     t = ([Api.said Api.uuid4 job_id;
           Api.said (Api.json_loads config) (Api.Returned config_data);
           Api.said Api.TemporaryDirectory (Api.Returned tmpdir)]
          ++ t' ++ [Api.said (Api.cleanup tmpdir) o])%list).
Proof.
  cbv zeta. unfold Api.load_data. rewrite run_then. cbn [Api.perform Api.run].
  rewrite run_try_except, run_then, run_json_loads.
  destruct ((w (Api.json_loads config) (w Api.uuid4 s).2).1) as [config_data|e].
  - pose proof (run_with_TemporaryDirectory w
                  (Api.job (w Api.uuid4 s).1 files schema_json config_data)
                  (w (Api.json_loads config) (w Api.uuid4 s).2).2) as Hwith.
    cbv zeta in Hwith.
    destruct (Api.run w (Api.with_TemporaryDirectory _) _) as [[t [a|e]] s'];
      cbn [fst snd app] in Hwith |- *.
    + destruct Hwith as [[e ->] | (tmpdir & t' & o & ->)]; right; [left | right];
        eauto 10.
    + destruct e; cbn [Api.run fst snd]; rewrite app_nil_r;
        (destruct Hwith as [[e' ->] | (tmpdir & t' & o & ->)]; right; [left | right];
         eauto 10).
  - left. exists (w Api.uuid4 s).1, e. by destruct e.
Qed.

(** *** The names of the uploads *)

Lemma mem_char_app (c : ascii) (a b : string) :
  mem_char c (a +:+ b) = mem_char c a || mem_char c b.
Proof.
  induction a as [|x a IH]; [reflexivity|].
  change (String x a +:+ b) with (String x (a +:+ b)). cbn [mem_char].
  by rewrite IH, orb_assoc.
Qed.

Lemma ends_with_slash_mem (a : string) : ends_with_slash a = true → mem_char "/" a = true.
Proof.
  induction a as [|c a IH]; [done|]. cbn [ends_with_slash mem_char].
  destruct a as [|c' a].
  - intros Hc. apply Ascii.eqb_eq in Hc as ->. reflexivity.
  - intros Ha. rewrite (IH Ha). apply orb_true_r.
Qed.

Lemma basename_slash_free (b : string) : mem_char "/" b = false → basename b = b.
Proof.
  destruct b as [|c b]; [reflexivity|]. cbn [mem_char basename].
  intros [Hc Hb]%orb_false_elim. rewrite Hb. rewrite Ascii.eqb_sym in Hc. by rewrite Hc.
Qed.

Lemma basename_app_slash (a b : string) :
  ends_with_slash a = true → mem_char "/" b = false → basename (a +:+ b) = b.
Proof.
  intros Ha Hb. induction a as [|c a IH]; [done|].
  change (String c a +:+ b) with (String c (a +:+ b)). cbn [basename].
  rewrite mem_char_app, Hb, orb_false_r.
  destruct a as [|c' a].
  - cbn [ends_with_slash] in Ha. apply Ascii.eqb_eq in Ha as ->.
    cbn [mem_char]. reflexivity.
  - rewrite (ends_with_slash_mem (String c' a)) by exact Ha. by apply IH.
Qed.

Lemma ends_with_slash_app (a : string) : ends_with_slash (a +:+ "/") = true.
Proof.
  induction a as [|c a IH]; [reflexivity|].
  change (String c a +:+ "/") with (String c (a +:+ "/")). cbn [ends_with_slash].
  destruct (a +:+ "/") eqn:Ha; [by destruct a | exact IH].
Qed.

Lemma basename_os_path_join (tmpdir name : string) :
  mem_char "/" name = false → basename (os_path_join tmpdir name) = name.
Proof.
  intros Hname. unfold os_path_join.
  assert (starts_with_slash name = false) as ->.
  { destruct name as [|c name]; [done|]. cbn [mem_char starts_with_slash] in *.
    apply orb_false_elim in Hname as [Hc _]. by rewrite Ascii.eqb_sym. }
  destruct tmpdir as [|c tmpdir]; [by apply basename_slash_free|].
  destruct (ends_with_slash (String c tmpdir)) eqn:Hends.
  - by apply basename_app_slash.
  - rewrite <- append_assoc. apply basename_app_slash; [apply ends_with_slash_app | done].
Qed.

Lemma file_mapping_of_lookup (tmpdir : string) (files : list Api.UploadFile)
    (file_mapping : gmap string string) (name location : string) :
  file_mapping_of tmpdir files file_mapping !! name = Some location →
  (location = os_path_join tmpdir name ∧ ∃ file, file ∈ files ∧ Api.filename file = name) ∨
  file_mapping !! name = Some location.
Proof.
  revert file_mapping. induction files as [|file files IH]; intros file_mapping;
    cbn [file_mapping_of foldl]; [by right|].
  intros [[-> [f [Hf Hname]]] | Hlookup]%IH.
  - left. split; [done|]. exists f. split; [by apply list_elem_of_further | done].
  - destruct (decide (Api.filename file = name)) as [<- | Hne].
    + rewrite lookup_insert_eq in Hlookup. injection Hlookup as <-. left. split; [done|].
      exists file. split; [apply list_elem_of_here | done].
    + rewrite lookup_insert_ne in Hlookup by done. by right.
Qed.

Lemma file_mapping_of_elem (tmpdir : string) (files : list Api.UploadFile)
    (file_mapping : gmap string string) (file : Api.UploadFile) :
  file ∈ files ∨
  file_mapping !! Api.filename file = Some (os_path_join tmpdir (Api.filename file)) →
  file_mapping_of tmpdir files file_mapping !! Api.filename file
  = Some (os_path_join tmpdir (Api.filename file)).
Proof.
  revert file_mapping. induction files as [|g files IH]; intros file_mapping.
  - by intros [?%elem_of_nil | ?].
  - cbn [file_mapping_of foldl]. intros Hfile. apply IH.
    destruct (decide (Api.filename g = Api.filename file)) as [Heq | Hne].
    + right. rewrite Heq. apply lookup_insert_eq.
    + destruct Hfile as [[-> | Hfile]%elem_of_cons | Hfile]; [done | by left |].
      right. by rewrite lookup_insert_ne.
Qed.

(** X18: the mapping [load_data] builds. Every uploaded file is mapped,
    under its file name, to the path it is saved at, which is
    [os.path.join] of the directory and the name; so a file whose name
    starts with a slash is saved at that very path, outside the directory.
    The mapped location of a name without slash keeps the name, and
    resolving a configuration that this mapping has resolved changes
    nothing. *)
Theorem load_data_file_mapping (tmpdir : string) (files : list Api.UploadFile) :
  let file_mapping := file_mapping_of tmpdir files ∅ in
  (∀ file, file ∈ files →
     file_mapping !! Api.filename file = Some (os_path_join tmpdir (Api.filename file)) ∧
     Api.said (Api.copyfileobj (Api.file file) (os_path_join tmpdir (Api.filename file)))
              (Api.Returned tt) ∈ saved tmpdir files ∧
     (starts_with_slash (Api.filename file) = true →
      os_path_join tmpdir (Api.filename file) = Api.filename file)) ∧
  (∀ name location, file_mapping !! name = Some location →
     location = os_path_join tmpdir name ∧
     (∃ file, file ∈ files ∧ Api.filename file = name) ∧
     (mem_char "/" name = false → basename location = name)) ∧
  (∀ config updated_config,
     update_file_paths_in_config config file_mapping = Ok updated_config →
     update_file_paths_in_config updated_config file_mapping = Ok updated_config).
Proof.
  intros file_mapping.
  assert (∀ name location, file_mapping !! name = Some location →
            location = os_path_join tmpdir name ∧
            (∃ file, file ∈ files ∧ Api.filename file = name) ∧
            (mem_char "/" name = false → basename location = name)) as Hlookup.
  { intros name location [[-> Hfile] | Hempty]%file_mapping_of_lookup.
    - split; [done|]. split; [done|]. apply basename_os_path_join.
    - by rewrite lookup_empty in Hempty. }
  split; [|split; [exact Hlookup|]].
  - intros file Hfile. split; [|split].
    + apply file_mapping_of_elem. by left.
    + unfold saved. apply list_elem_of_fmap. by exists file.
    + intros Hslash. unfold os_path_join. by rewrite Hslash.
  - intros config updated_config. apply resolve_twice_settled.
    intros p location (_ & _ & Hname)%Hlookup. apply Hname, basename_no_slash.
Qed.

Lemma load_data_file_mapping_witness :
  let file := {| Api.filename := "/etc/people.csv"; Api.file := "name,age" |} in
  file_mapping_of "/tmp/tmpab" [file] ∅ !! "/etc/people.csv" = Some "/etc/people.csv" ∧
  Api.said (Api.copyfileobj "name,age" "/etc/people.csv") (Api.Returned tt)
  ∈ saved "/tmp/tmpab" [file].
Proof.
  intros file.
  destruct (proj1 (load_data_file_mapping "/tmp/tmpab" [file]) file
              ltac:(apply list_elem_of_here)) as (Hmapped & Hsaved & _).
  split; [exact Hmapped | exact Hsaved].
Defined.

(** * The statements of the labels *)

(** X19: the clauses of the statement of a vertex label and of an edge
    label, in their order. A vertex label has its name, the ID strategy
    clause, then the properties, the primary keys and the nullable keys,
    then the option clauses; an edge label has its name, the source and the
    target label, then the properties and the sort keys, then the option
    clauses; both end with the create-if-absent clause. A list clause is
    there for a list that is not empty and holds the items in double quotes,
    in their order, separated by a comma and a space. *)
Theorem label_statements :
  (∀ vertex,
     vertex_label_line vertex
     = "schema.vertexLabel(" +:+ dq +:+ VertexLabel.name vertex +:+ dq +:+ ")"
       +:+ id_strategy_clause "" (VertexLabel.id_strategy vertex)
       +:+ list_clause "" ".properties" (Some (VertexLabel.properties vertex))
       +:+ list_clause "" ".primaryKeys" (VertexLabel.primary_keys vertex)
       +:+ list_clause "" ".nullableKeys" (VertexLabel.nullable_keys vertex)
       +:+ options_text (VertexLabel.options vertex)
       +:+ ".ifNotExist().create();") ∧
  (∀ edge,
     edge_label_line edge
     = "schema.edgeLabel(" +:+ dq +:+ EdgeLabel.name edge +:+ dq +:+ ")"
       +:+ ".sourceLabel(" +:+ dq +:+ EdgeLabel.source_label edge +:+ dq +:+ ")"
       +:+ ".targetLabel(" +:+ dq +:+ EdgeLabel.target_label edge +:+ dq +:+ ")"
       +:+ list_clause "" ".properties" (EdgeLabel.properties edge)
       +:+ list_clause "" ".sortKeys" (EdgeLabel.sort_keys edge)
       +:+ options_text (EdgeLabel.options edge)
       +:+ ".ifNotExist().create();") ∧
  (∀ clause,
     list_clause "" clause None = "" ∧ list_clause "" clause (Some []) = "" ∧
     ∀ x xs, list_clause "" clause (Some (x :: xs))
             = clause +:+ "(" +:+ dq +:+ x +:+ dq
               +:+ String.concat "" (map (λ y, ", " +:+ dq +:+ y +:+ dq) xs) +:+ ")").
Proof.
  split; [|split].
  - intros vertex. unfold vertex_label_line, create_if_absent, quoted.
    rewrite add_options_text.
    rewrite (list_clause_append _ ".nullableKeys"), (list_clause_append _ ".primaryKeys"),
      (list_clause_append _ ".properties"), id_strategy_clause_append.
    by rewrite !append_assoc.
  - intros edge. unfold edge_label_line, create_if_absent, quoted.
    rewrite add_options_text.
    rewrite (list_clause_append _ ".sortKeys"), (list_clause_append _ ".properties").
    by rewrite !append_assoc.
  - intros clause. split; [reflexivity|]. split; [reflexivity|]. intros x xs.
    unfold list_clause. cbn [truthy_list]. rewrite quoted_list_cons.
    by rewrite !append_assoc.
Qed.

(** * The copy of the configuration *)

Lemma dumps_fuel_mono (fuel fuel' : nat) (h : list Store.object) (v : Store.value)
    (j : json) :
  (fuel ≤ fuel')%nat →
  Store.dumps_fuel fuel h v = Some j → Store.dumps_fuel fuel' h v = Some j.
Proof.
  revert fuel' v j. induction fuel as [|fuel IH]; intros fuel' [| | | | |l] j Hle;
    try done; try by destruct fuel'.
  destruct fuel' as [|fuel']; [lia|]. cbn [Store.dumps_fuel].
  destruct (h !! l) as [[items|fields]|]; [| |done].
  - intros (js & Hjs & ->)%fmap_Some. apply fmap_Some. exists js. split; [|done].
    apply mapM_Some in Hjs. apply mapM_Some. eapply Forall2_impl; [exact Hjs|].
    intros x y. apply IH. lia.
  - intros (js & Hjs & ->)%fmap_Some. apply fmap_Some. exists js. split; [|done].
    apply mapM_Some in Hjs. apply mapM_Some. eapply Forall2_impl; [exact Hjs|].
    intros [k x] [k' y]. cbn [fst snd].
    intros (y' & Hy & [= -> ->])%fmap_Some. apply fmap_Some. exists y'.
    split; [apply (IH fuel'); [lia | done] | done].
Qed.

(** X20: [json.loads] and [json.dumps] are inverse to each other on trees.
    Loading a tree adds one object for each list and each dictionary of the
    tree to the store and changes none, and the value it returns is dumped
    as the tree again. So the copy [json.loads(json.dumps(config))] of a
    configuration that is dumped as [j] is dumped as [j] too, and so is
    the configuration still. *)
Theorem loads_dumps_round_trip (h : list Store.object) :
  (∀ j, ∃ new v,
     Store.json_loads j h = ((h ++ new)%list, Ok v) ∧
     List.length new = size j ∧
     Store.json_dumps v (h ++ new)%list = ((h ++ new)%list, Ok j)) ∧
  (∀ config j,
     Store.json_dumps config h = (h, Ok j) →
     ∃ new updated_config,
       (Store.json_dumps config ≫= Store.json_loads) h
       = ((h ++ new)%list, Ok updated_config) ∧
       Store.json_dumps updated_config (h ++ new)%list = ((h ++ new)%list, Ok j) ∧
       Store.json_dumps config (h ++ new)%list = ((h ++ new)%list, Ok j)).
Proof.
  assert (∀ j, Store.json_dumps (root (List.length h) j) (h ++ layout (List.length h) j)%list
               = ((h ++ layout (List.length h) j)%list, Ok j)) as Hdumps.
  { intros j. unfold Store.json_dumps.
    pose proof (dumps_fuel_layout j (List.length (h ++ layout (List.length h) j)) h [])
      as Hj.
    unfold store_with in Hj. rewrite app_nil_r in Hj.
    rewrite Hj; [done|]. rewrite length_app, length_layout. lia. }
  split.
  - intros j. exists (layout (List.length h) j), (root (List.length h) j).
    split; [apply json_loads_layout|]. split; [apply length_layout | apply Hdumps].
  - intros config j Hconfig.
    exists (layout (List.length h) j), (root (List.length h) j).
    rewrite run_bind, Hconfig. split; [apply json_loads_layout|].
    split; [apply Hdumps|].
    unfold Store.json_dumps in Hconfig |- *.
    destruct (Store.dumps_fuel (List.length h) h config) as [j'|] eqn:Hj; [|done].
    injection Hconfig as ->.
    rewrite (dumps_fuel_mono (List.length h) _ _ _ j); [done | |].
    + rewrite length_app. lia.
    + by apply dumps_fuel_app.
Qed.

Lemma loads_dumps_round_trip_witness :
  let h := [Store.ODict [("vertices", Store.VRef 1)]; Store.OList []] in
  let config := Store.VRef 0 in
  let j := JObj [("vertices", JArr [])] in
  ∃ new updated_config,
    (Store.json_dumps config ≫= Store.json_loads) h
    = ((h ++ new)%list, Ok updated_config) ∧
    Store.json_dumps updated_config (h ++ new)%list = ((h ++ new)%list, Ok j) ∧
    Store.json_dumps config (h ++ new)%list = ((h ++ new)%list, Ok j).
Proof.
  intros h config j. apply (proj2 (loads_dumps_round_trip h) config j).
  reflexivity.
Defined.

(** * The entries of a validation error *)

Section offences.
Import Pydantic.
Local Open Scope list_scope.

Lemma elem_of_errors_str (loc : list loc_item) (v : json) (e : error_detail) :
  e ∈ errors_of (str_type loc v) ↔ e = (loc, StringType) ∧ is_str v = false.
Proof.
  destruct v; cbn [str_type errors_of is_str]; rewrite ?list_elem_of_singleton;
    try (split; [by intros ->|by intros [-> _]]).
  split; [by intros ?%elem_of_nil | by intros [_ ?]].
Qed.

Lemma elem_of_errors_dict (loc : list loc_item) (v : json) (e : error_detail) :
  e ∈ errors_of (dict_type loc v) ↔ e = (loc, DictType) ∧ is_dict v = false.
Proof.
  destruct v; cbn [dict_type errors_of is_dict]; rewrite ?list_elem_of_singleton;
    try (split; [by intros ->|by intros [-> _]]).
  split; [by intros ?%elem_of_nil | by intros [_ ?]].
Qed.

(** The entries of a list are those of its items. *)
Lemma elem_of_errors_list_items {A} (item : validator A) (loc : list loc_item)
    (vs : list json) (k : nat) (e : error_detail) :
  e ∈ errors_of (list_items item loc k vs)
  ↔ ∃ i v, vs !! i = Some v ∧ e ∈ errors_of (item (loc ++ [Index (k + i)]) v).
Proof.
  split.
  - revert k. induction vs as [|x vs IH]; intros k; [by intros ?%elem_of_nil|].
    cbn [list_items]. rewrite !errors_of_ap. cbn [errors_of app].
    intros [He|He]%elem_of_app.
    + exists 0%nat, x. by rewrite Nat.add_0_r.
    + apply IH in He as (i & v & Hi & He). exists (S i), v. split; [done|].
      by replace (k + S i)%nat with (S k + i)%nat by lia.
  - intros (i & v & Hi & He). by apply (errors_of_list_items _ _ vs i k v).
Qed.

Lemma elem_of_errors_list {A} (item : validator A) (loc : list loc_item) (v : json)
    (e : error_detail) :
  e ∈ errors_of (list_type item loc v)
  ↔ (e = (loc, ListType) ∧ is_list v = false) ∨
    ∃ vs i x, v = JArr vs ∧ vs !! i = Some x ∧ e ∈ errors_of (item (loc ++ [Index i]) x).
Proof.
  destruct v as [| | | | |vs|]; cbn [list_type errors_of is_list];
    rewrite ?list_elem_of_singleton;
    try (split; [intros ->; by left | by intros [[-> _]|(? & ? & ? & ? & _)]]).
  rewrite elem_of_errors_list_items. split.
  - intros (i & x & Hi & He). right. by exists vs, i, x.
  - intros [[_ ?]|(vs' & i & x & [= <-] & Hi & He)]; [done|]. by exists i, x.
Qed.

Lemma elem_of_errors_model {A} (fields : list loc_item → dict → validation A)
    (loc : list loc_item) (v : json) (e : error_detail) :
  e ∈ errors_of (model_type fields loc v)
  ↔ (e = (loc, ModelType) ∧ is_dict v = false) ∨
    ∃ d, v = JObj d ∧ e ∈ errors_of (fields loc d).
Proof.
  destruct v as [| | | | | |d]; cbn [model_type errors_of is_dict];
    rewrite ?list_elem_of_singleton;
    try (split; [intros ->; by left | by intros [[-> _]|(? & ? & _)]]).
  split; [intros He; right; by exists d|].
  by intros [[_ ?]|(d' & [= <-] & He)].
Qed.

Lemma elem_of_errors_required {A} (check : validator A) (loc : list loc_item) (d : dict)
    (field : string) (e : error_detail) :
  e ∈ errors_of (required check loc d field)
  ↔ (dict_get field d = None ∧ e = (loc ++ [Field field], Missing)) ∨
    ∃ v, dict_get field d = Some v ∧ e ∈ errors_of (check (loc ++ [Field field]) v).
Proof.
  unfold required. destruct (dict_get field d) as [v|]; cbn [errors_of].
  - split; [intros He; right; by exists v|]. by intros [[? _]|(v' & [= <-] & He)].
  - rewrite list_elem_of_singleton. split; [intros ->; by left|].
    by intros [[_ ->]|(v & ? & _)].
Qed.

Lemma elem_of_errors_optional {A} (check : validator A) (loc : list loc_item) (d : dict)
    (field : string) (e : error_detail) :
  e ∈ errors_of (optional check loc d field)
  ↔ ∃ v, dict_get field d = Some v ∧ v ≠ JNull ∧
         e ∈ errors_of (check (loc ++ [Field field]) v).
Proof.
  unfold optional.
  destruct (dict_get field d) as [v|]; [|split; [by intros ?%elem_of_nil|]].
  2:{ by intros (v & ? & _). }
  destruct v; rewrite ?errors_of_ap; cbn [errors_of app];
    try (split; [intros He; eexists; by repeat split|by intros (v' & [= <-] & _ & He)]).
  split; [by intros ?%elem_of_nil | by intros (v' & [= <-] & ? & _)].
Qed.

(** The entries of a value checked as a string, as a list of strings or as a
    dictionary are the places where it is not of this type. *)
Lemma elem_of_errors_ill_typed_str (loc : list loc_item) (v : json) (e : error_detail) :
  e ∈ errors_of (str_type loc v)
  ↔ ∃ l kind, Offence.ill_typed Offence.Str v l kind ∧ e = (loc ++ l, kind).
Proof.
  rewrite elem_of_errors_str. split.
  - intros [-> Hv]. exists [], StringType. rewrite app_nil_r. split; [by constructor|done].
  - intros (l & kind & Hill & ->). inversion Hill; subst. by rewrite app_nil_r.
Qed.

Lemma elem_of_errors_ill_typed_dict (loc : list loc_item) (v : json) (e : error_detail) :
  e ∈ errors_of (dict_type loc v)
  ↔ ∃ l kind, Offence.ill_typed Offence.Dict v l kind ∧ e = (loc ++ l, kind).
Proof.
  rewrite elem_of_errors_dict. split.
  - intros [-> Hv]. exists [], DictType. rewrite app_nil_r. split; [by constructor|done].
  - intros (l & kind & Hill & ->). inversion Hill; subst. by rewrite app_nil_r.
Qed.

Lemma elem_of_errors_ill_typed_list (loc : list loc_item) (v : json) (e : error_detail) :
  e ∈ errors_of (list_type str_type loc v)
  ↔ ∃ l kind, Offence.ill_typed Offence.StrList v l kind ∧ e = (loc ++ l, kind).
Proof.
  rewrite elem_of_errors_list. split.
  - intros [[-> Hv]|(vs & i & x & -> & Hi & [-> Hx]%elem_of_errors_str)].
    + exists [], ListType. rewrite app_nil_r. split; [by constructor|done].
    + exists [Index i], StringType. split; [by econstructor|done].
  - intros (l & kind & Hill & ->). inversion Hill; subst.
    + left. by rewrite app_nil_r.
    + right. eexists _, _, _. split; [done|]. split; [done|].
      by apply elem_of_errors_str.
Qed.

(** The entries of an element are its offences against its class. *)
Ltac element_entries :=
  rewrite !errors_of_ap; cbn [errors_of app]; rewrite !elem_of_app;
  rewrite ?elem_of_errors_required, ?elem_of_errors_optional;
  setoid_rewrite elem_of_errors_ill_typed_str;
  try setoid_rewrite elem_of_errors_ill_typed_list;
  try setoid_rewrite elem_of_errors_ill_typed_dict.

Ltac offence_found :=
  match goal with
  | H : dict_get ?f _ = None |- _ =>
      exists [Field f], Missing; split; [|done];
      apply Offence.field_missing; [set_solver | done]
  | H : dict_get ?f _ = Some ?v, N : ?v ≠ JNull, I : Offence.ill_typed _ ?v ?l ?k |- _ =>
      exists (Field f :: l), k; split; [|by rewrite <- app_assoc];
      apply (Offence.optional_field_ill_typed _ _ f v); [set_solver | done..]
  | H : dict_get ?f _ = Some ?v, I : Offence.ill_typed _ ?v ?l ?k |- _ =>
      exists (Field f :: l), k; split; [|by rewrite <- app_assoc];
      apply (Offence.required_field_ill_typed _ _ f v); [set_solver | done..]
  end.

Ltac entry_found :=
  first
    [ solve [split; [eassumption | reflexivity]]
    | solve [eexists; split; [eassumption|]; eexists _, _;
             split; [eassumption | by rewrite <- app_assoc]]
    | solve [eexists; split; [eassumption|]; split; [assumption|]; eexists _, _;
             split; [eassumption | by rewrite <- app_assoc]]
    | left; entry_found
    | right; entry_found ].

Ltac element_offences decl :=
  element_entries; split;
  [ intros H; repeat destruct H as [H|H]; try (by apply elem_of_nil in H);
    repeat match goal with
           | H : _ ∨ _ |- _ => destruct H
           | H : ∃ _, _ |- _ => destruct H
           | H : _ ∧ _ |- _ => destruct H
           end; subst; offence_found
  | let Hoff := fresh "Hoff" in
    let Hf := fresh "Hf" in
    let Hill := fresh "Hill" in
    intros (? & ? & Hoff & ->);
    inversion Hoff as [? Hf ?|? ? ? ? Hf ? Hill|? ? ? ? Hf ? ? Hill]; subst;
    cbn [Declared.required Declared.optional decl] in Hf;
    repeat (apply elem_of_cons in Hf as [-> | Hf]); try (by apply elem_of_nil in Hf);
    try (vm_compute Offence.type_of in Hill); entry_found ].

Lemma elem_of_errors_PropertyKey (loc : list loc_item) (fields : dict)
    (e : error_detail) :
  e ∈ errors_of (PropertyKey_fields loc fields)
  ↔ ∃ l kind, Offence.of_element Declared.PropertyKey fields (l, kind) ∧
              e = (loc ++ l, kind).
Proof. unfold PropertyKey_fields. element_offences Declared.PropertyKey. Qed.

Lemma elem_of_errors_VertexLabel (loc : list loc_item) (fields : dict)
    (e : error_detail) :
  e ∈ errors_of (VertexLabel_fields loc fields)
  ↔ ∃ l kind, Offence.of_element Declared.VertexLabel fields (l, kind) ∧
              e = (loc ++ l, kind).
Proof. unfold VertexLabel_fields. element_offences Declared.VertexLabel. Qed.

Lemma elem_of_errors_EdgeLabel (loc : list loc_item) (fields : dict)
    (e : error_detail) :
  e ∈ errors_of (EdgeLabel_fields loc fields)
  ↔ ∃ l kind, Offence.of_element Declared.EdgeLabel fields (l, kind) ∧
              e = (loc ++ l, kind).
Proof. unfold EdgeLabel_fields. element_offences Declared.EdgeLabel. Qed.

(** The entries of a list of elements: the list is missing or is no list,
    an element is no object, or an element offends its class. *)
Lemma elem_of_errors_group {A} (fields_of : list loc_item → dict → validation A)
    (decl : Declared.t) (group : string) (d : dict) (e : error_detail) :
  (∀ loc fields e,
     e ∈ errors_of (fields_of loc fields)
     ↔ ∃ l kind, Offence.of_element decl fields (l, kind) ∧ e = (loc ++ l, kind)) →
  e ∈ errors_of (required (list_type (model_type fields_of)) [] d group)
  ↔ (dict_get group d = None ∧ e = ([Field group], Missing)) ∨
    (∃ v, dict_get group d = Some v ∧ is_list v = false ∧ e = ([Field group], ListType)) ∨
    (∃ elements i v,
       dict_get group d = Some (JArr elements) ∧ elements !! i = Some v ∧
       is_dict v = false ∧ e = ([Field group; Index i], ModelType)) ∨
    (∃ elements i fields l kind,
       dict_get group d = Some (JArr elements) ∧ elements !! i = Some (JObj fields) ∧
       Offence.of_element decl fields (l, kind) ∧
       e = (Field group :: Index i :: l, kind)).
Proof.
  intros Hfields. rewrite elem_of_errors_required. cbn [app]. split.
  - intros [[Hget ->]|(v & Hget & He)]; [by left|]. right.
    apply elem_of_errors_list in He
      as [[-> Hv]|(vs & i & x & -> & Hi & He)]; [left; by exists v|]. right.
    apply elem_of_errors_model in He as [[-> Hx]|(fields & -> & He)].
    + left. by exists vs, i, x.
    + right. apply Hfields in He as (l & kind & Hoff & ->).
      by exists vs, i, fields, l, kind.
  - intros [[Hget ->]|[(v & Hget & Hv & ->)|
                       [(vs & i & x & Hget & Hi & Hx & ->)|
                        (vs & i & fields & l & kind & Hget & Hi & Hoff & ->)]]].
    + by left.
    + right. exists v. split; [done|]. apply elem_of_errors_list. by left.
    + right. exists (JArr vs). split; [done|]. apply elem_of_errors_list. right.
      exists vs, i, x. split; [done|]. split; [done|].
      apply elem_of_errors_model. by left.
    + right. exists (JArr vs). split; [done|]. apply elem_of_errors_list. right.
      exists vs, i, (JObj fields). split; [done|]. split; [done|].
      apply elem_of_errors_model. right. exists fields. split; [done|].
      apply Hfields. by exists l, kind.
Qed.

Lemma of_group_cases (group : string) (decl : Declared.t) :
  Declared.of_group group = Some decl →
  (group = "property_keys" ∧ decl = Declared.PropertyKey) ∨
  (group = "vertex_labels" ∧ decl = Declared.VertexLabel) ∨
  (group = "edge_labels" ∧ decl = Declared.EdgeLabel).
Proof.
  unfold Declared.of_group.
  destruct (String.eqb group "property_keys") eqn:H1;
    [|destruct (String.eqb group "vertex_labels") eqn:H2;
      [|destruct (String.eqb group "edge_labels") eqn:H3; [|done]]];
    intros [= <-].
  - apply String.eqb_eq in H1. by left.
  - apply String.eqb_eq in H2. right. by left.
  - apply String.eqb_eq in H3. right. by right.
Qed.

Ltac group_entry_found :=
  solve [ by left
        | right; left; by eexists
        | right; right; left; by eexists _, _, _
        | right; right; right; by eexists _, _, _, _, _ ].

(** The entries of the validation of a schema dictionary are its offences:
    every entry reports one, and every offence has its entry. *)
Lemma elem_of_errors_schema (d : dict) (e : error_detail) :
  e ∈ errors_of (SchemaDefinition_fields [] d) ↔ Offence.t d e.
Proof.
  unfold SchemaDefinition_fields. rewrite !errors_of_ap. cbn [errors_of app].
  rewrite !elem_of_app.
  rewrite (elem_of_errors_group _ _ _ _ _ elem_of_errors_PropertyKey),
    (elem_of_errors_group _ _ _ _ _ elem_of_errors_VertexLabel),
    (elem_of_errors_group _ _ _ _ _ elem_of_errors_EdgeLabel).
  split.
  - intros H. repeat destruct H as [H|H]; try (by apply elem_of_nil in H).
    all: repeat match goal with
           | H : ∃ _, _ |- _ => destruct H
           | H : _ ∧ _ |- _ => destruct H
           end; subst.
    all: first [ eapply Offence.group_missing; [reflexivity | eassumption]
               | eapply Offence.group_not_a_list; [reflexivity | eassumption..]
               | eapply Offence.element_not_an_object; [reflexivity | eassumption..]
               | eapply Offence.in_element; [reflexivity | eassumption..] ].
  - intros Hoff.
    inversion Hoff as [group decl Hgroup Hget|group decl v Hgroup Hget Hv|
                       group decl vs i v Hgroup Hget Hi Hv|
                       group decl vs i fields l kind Hgroup Hget Hi Helem]; subst;
      apply of_group_cases in Hgroup as [[-> ->]|[[-> ->]|[-> ->]]].
    all: solve [ left; left; group_entry_found
               | left; right; group_entry_found
               | right; group_entry_found ].
Qed.

End offences.

(** C6, without its clause on field values. A dictionary in which a list of
    the schema or a mandatory field of an element is missing, or in which a
    value has not the declared type, makes [json_to_groovy] raise a
    validation error and return no text. The error is not empty, each of its
    entries names an offending element of the dictionary, and its entries are
    the offences of the dictionary against the data model: every offence has
    an entry, with its location and kind, and there is no other entry. Every
    other dictionary is compiled and has no offence, whatever strings its
    type tags are: an unknown tag is capitalised like any other. *)
Theorem validation_error_on_malformed (d : dict) :
  (if Shape.schema_definition d
   then (∃ schema, Pydantic.SchemaDefinition d = Ok schema ∧
                   json_to_groovy (inl d) = Ok (join nl (groovy_lines schema))) ∧
        ∀ e, ¬ Offence.t d e
   else ∃ errors, json_to_groovy (inl d) = Raise (ValidationError errors) ∧
                  errors ≠ [] ∧ Forall (offending (JObj d)) errors ∧
                  ∀ e, e ∈ errors ↔ Offence.t d e) ∧
  ∀ name type,
    ascii_only type = true →
    json_to_groovy
      (inl [("property_keys", JArr [JObj [("name", JStr name); ("type", JStr type)]]);
            ("vertex_labels", JArr []); ("edge_labels", JArr [])])
    = Ok ("schema.propertyKey(" +:+ dq +:+ name +:+ dq +:+ ").as" +:+ capitalize type
            +:+ "().ifNotExist().create();" +:+ nl +:+ nl).
Proof.
  split.
  - pose proof (SchemaDefinition_fields_outcome d) as H. unfold outcome in H.
    pose proof (elem_of_errors_schema d) as Hentries.
    unfold json_to_groovy, Pydantic.SchemaDefinition.
    destruct (Shape.schema_definition d).
    + destruct H as [schema Hschema]. rewrite Hschema in Hentries |- *.
      split; [by exists schema|].
      intros e He%Hentries. by apply elem_of_nil in He.
    + destruct H as (errors & Herrors & Hne & Hall). rewrite Herrors in Hentries |- *.
      by exists errors.
  - intros name type _. unfold json_to_groovy. cbn [mbind result_bind].
    cbv [Pydantic.SchemaDefinition Pydantic.SchemaDefinition_fields]. cbn.
    unfold property_key_line, quoted, create_if_absent, join. cbn.
    line_normalise. reflexivity.
Qed.

Lemma validation_error_on_malformed_witness :
  let d :=
    [("property_keys", JArr [JObj [("name", JStr "age")]; JInt 3]);
     ("vertex_labels",
      JArr [JObj [("name", JStr "person"); ("properties", JArr [JStr "age"; JNull])]])] in
  ∃ errors,
    json_to_groovy (inl d) = Raise (ValidationError errors) ∧
    ([Field "property_keys"; Index 0; Field "type"], Missing) ∈ errors ∧
    ([Field "property_keys"; Index 1], ModelType) ∈ errors ∧
    ([Field "vertex_labels"; Index 0; Field "properties"; Index 1], StringType) ∈ errors ∧
    ([Field "edge_labels"], Missing) ∈ errors ∧
    ([Field "vertex_labels"; Index 0; Field "name"], StringType) ∉ errors.
Proof.
  intros d.
  destruct (proj1 (validation_error_on_malformed d))
    as (errors & Hraise & _ & _ & Hentries).
  exists errors. split; [exact Hraise|].
  split; [|split; [|split; [|split]]].
  - apply Hentries.
    apply (Offence.in_element d "property_keys" Declared.PropertyKey
             [JObj [("name", JStr "age")]; JInt 3] 0 [("name", JStr "age")]
             [Field "type"] Missing); try reflexivity.
    apply Offence.field_missing; [|reflexivity].
    apply list_elem_of_further, list_elem_of_here.
  - apply Hentries.
    by apply (Offence.element_not_an_object d "property_keys" Declared.PropertyKey
                [JObj [("name", JStr "age")]; JInt 3] 1 (JInt 3)).
  - apply Hentries.
    apply (Offence.in_element d "vertex_labels" Declared.VertexLabel
             [JObj [("name", JStr "person"); ("properties", JArr [JStr "age"; JNull])]]
             0 [("name", JStr "person"); ("properties", JArr [JStr "age"; JNull])]
             [Field "properties"; Index 1] StringType); try reflexivity.
    apply (Offence.required_field_ill_typed _ _ "properties" (JArr [JStr "age"; JNull])
             [Index 1] StringType); [|reflexivity|].
    + apply list_elem_of_further, list_elem_of_here.
    + by apply (Offence.item_not_a_string [JStr "age"; JNull] 1 JNull).
  - apply Hentries. by apply (Offence.group_missing d "edge_labels" Declared.EdgeLabel).
  - intros He%Hentries. vm_compute in Hraise. injection Hraise as <-.
    apply Hentries in He. repeat (apply elem_of_cons in He as [He|He]; [discriminate He|]).
    by apply elem_of_nil in He.
Defined.

(** * What the resolution takes and what it refuses *)

Section refusals.
Local Open Scope list_scope.
Context (file_mapping : gmap string string).

(** An [input] that is not an object has no [get]. *)
Lemma update_item_input_not_object (item : dict) (input : json) :
  dict_get "input" item = Some input → is_dict input = false →
  update_item file_mapping (JObj item) = Raise AttributeError.
Proof.
  intros Hinput Hdict. unfold update_item. cbn [py_contains mbind result_bind].
  rewrite bool_decide_is_Some, Hinput. cbn [py_getitem]. rewrite Hinput.
  cbn [mbind result_bind]. by destruct input.
Qed.

Lemma resolve_input_not_object (d : dict) (key : string) (pre post : list json)
    (item : dict) (input : json) :
  key = "vertices" ∨ key = "edges" ∧ Config.items (dict_get "vertices" d) = true →
  dict_get key d = Some (JArr (pre ++ JObj item :: post)) →
  forallb Config.item pre = true →
  dict_get "input" item = Some input → is_dict input = false →
  update_file_paths_in_config (JObj d) file_mapping = Raise AttributeError.
Proof.
  intros Hkey Hget Hpre Hinput Hdict.
  eapply resolve_raise; [done..|]. by eapply update_item_input_not_object.
Qed.

(** The exceptions of the resolver are those of the operations it makes. *)
Lemma update_item_raises (item : json) (e : exception) :
  update_item file_mapping item = Raise e → of_an_operation e = true.
Proof.
  unfold update_item.
  destruct item as [| | | | s |items|d]; cbn [py_contains mbind result_bind];
    try (by intros [= <-]).
  - destruct (is_substring "input" s); by intros [= <-].
  - destruct (existsb _ items); by intros [= <-].
  - destruct (bool_decide _); [|done]. cbn [py_getitem].
    destruct (dict_get "input" d) as [input|]; [|by intros [= <-]].
    cbn [mbind result_bind].
    destruct input as [| | | | | |i]; cbn [py_get mbind result_bind];
      try (by intros [= <-]).
    destruct (is_file _); [|done]. cbn [py_getitem].
    destruct (dict_get "path" i) as [p|]; [|by intros [= <-]].
    cbn [mbind result_bind].
    destruct p; cbn [os_path_basename mbind result_bind]; try (by intros [= <-]).
    by destruct (file_mapping !! _).
Qed.

Lemma mapM_update_item_raises (items : list json) (e : exception) :
  mapM (update_item file_mapping) items = Raise e → of_an_operation e = true.
Proof.
  induction items as [|item items IH]; [done|]. cbn [mapM].
  destruct (update_item file_mapping item) as [item'|e'] eqn:Hitem.
  - cbn [mbind result_bind].
    destruct (mapM (update_item file_mapping) items) as [items'|e'']; [done|].
    intros [= <-]. by apply IH.
  - intros [= <-]. by apply update_item_raises in Hitem.
Qed.

Lemma update_key_raises (key : string) (config : json) (e : exception) :
  update_key file_mapping key config = Raise e → of_an_operation e = true.
Proof.
  unfold update_key.
  destruct (py_contains key config) as [[]|e'] eqn:Hcontains; cbn [mbind result_bind];
    [| done | destruct config; try done; intros [= <-]; by injection Hcontains as <-].
  destruct (py_getitem config key) as [items|e'] eqn:Hget; cbn [mbind result_bind].
  2:{ intros [= <-]. destruct config; try by injection Hget as <-.
      cbn [py_getitem] in Hget. destruct (dict_get key _); [done | by injection Hget as <-]. }
  unfold update_paths.
  destruct (py_iter items) as [elems|e'] eqn:Hiter; cbn [mbind result_bind].
  2:{ intros [= <-]. destruct items; try done; by injection Hiter as <-. }
  destruct (mapM (update_item file_mapping) elems) as [elems'|e'] eqn:Helems;
    cbn [mbind result_bind].
  - destruct config; cbn [py_setitem]; try done; by intros [= <-].
  - intros [= <-]. by apply mapM_update_item_raises in Helems.
Qed.

Lemma resolve_raises (config : json) (e : exception) :
  update_file_paths_in_config config file_mapping = Raise e → of_an_operation e = true.
Proof.
  unfold update_file_paths_in_config, deep_copy.
  destruct (update_key file_mapping "vertices" config) as [updated_config|e'] eqn:Hv;
    cbn [mbind result_bind].
  - apply update_key_raises.
  - intros [= <-]. by apply update_key_raises in Hv.
Qed.

(** The loop over strings that do not hold [input] changes nothing. *)
Lemma mapM_update_item_strings (strs : list string) :
  forallb (λ s, negb (is_substring "input" s)) strs = true →
  mapM (update_item file_mapping) (map JStr strs) = Ok (map JStr strs).
Proof.
  induction strs as [|s strs IH]; [done|]. cbn [forallb map mapM].
  intros [Hs Hstrs]%andb_prop. rewrite update_item_str.
  apply negb_true_iff in Hs. rewrite Hs. cbn [mbind result_bind].
  by rewrite (IH Hstrs).
Qed.

Lemma update_paths_passed_over (v : json) :
  passed_over v = true → update_paths file_mapping v = Ok v.
Proof.
  unfold update_paths. destruct v as [| | | | s | |o]; try done; cbn [passed_over py_iter].
  - intros _. cbn [mbind result_bind].
    rewrite <- (map_map (λ c, String c EmptyString) JStr), mapM_update_item_strings; [done|].
    induction (list_ascii_of_string s) as [|c l IH]; [done|]. cbn [map forallb].
    rewrite IH, andb_true_r. by destruct c as [[] [] [] [] [] [] [] []].
  - intros Ho. cbn [mbind result_bind].
    rewrite <- (map_map fst JStr), mapM_update_item_strings; [done|].
    induction o as [|kv o IH]; [done|]. cbn [map forallb] in Ho |- *.
    apply andb_prop in Ho as [-> Ho]. by apply IH.
Qed.

Lemma update_key_accepted (key : string) (d : dict) :
  accepted (dict_get key d) = true →
  ∃ d', update_key file_mapping key (JObj d) = Ok (JObj d') ∧
        ∀ key', key' ≠ key → dict_get key' d' = dict_get key' d.
Proof.
  unfold accepted. destruct (dict_get key d) as [v|] eqn:Hget.
  - intros [Hitems|Hpassed]%orb_prop.
    + destruct (update_key_resolved file_mapping key d) as (d' & Hd' & _ & Hother & _);
        [by rewrite Hget|]. by exists d'.
    + exists d. split; [|done]. unfold update_key.
      cbn [py_contains py_getitem mbind result_bind]. rewrite bool_decide_is_Some, Hget.
      cbn [mbind result_bind]. rewrite (update_paths_passed_over v Hpassed).
      cbn [mbind result_bind py_setitem]. by rewrite dict_set_same.
  - intros _.
    destruct (update_key_resolved file_mapping key d) as (d' & Hd' & _ & Hother & _);
      [by rewrite Hget|]. by exists d'.
Qed.

Lemma resolve_accepted (d : dict) :
  accepted (dict_get "vertices" d) = true → accepted (dict_get "edges" d) = true →
  is_ok (update_file_paths_in_config (JObj d) file_mapping) = true.
Proof.
  intros Hv He. unfold update_file_paths_in_config, deep_copy.
  destruct (update_key_accepted "vertices" d Hv) as (d1 & -> & Hother).
  cbn [mbind result_bind]. rewrite <- (Hother "edges") in He by done.
  by destruct (update_key_accepted "edges" d1 He) as (d2 & -> & _).
Qed.

End refusals.

(** C1, for the configurations of the data model and beyond them. On a job
    configuration of the data model, resolution succeeds and returns a
    configuration with the same keys in the same order; every key but
    [vertices] and [edges] keeps its value, and the items of [vertices] and
    of [edges] are, in order, the resolved input items: an item with a file
    input whose base name the mapping knows differs in the value of [path]
    only, which is the mapped location, and every other item (no [input]
    key, a type other than ["file"], a base name the mapping does not know)
    is returned as it is. An item whose [input] is there and is not an
    object is not returned: when it is the first item that is not a mapping
    item, in [vertices], or in [edges] after [vertices] that are as the data
    model has them, the call raises [AttributeError]. *)
Theorem resolve_rewrites_file_inputs (config : json) (file_mapping : gmap string string) :
  (Config.well_formed config = true →
   ∃ d d', config = JObj d ∧
           update_file_paths_in_config config file_mapping = Ok (JObj d') ∧
           map fst d' = map fst d ∧
           (∀ key, key ≠ "vertices" → key ≠ "edges" → dict_get key d' = dict_get key d) ∧
           (∀ key, key = "vertices" ∨ key = "edges" →
              match dict_get key d with
              | None => dict_get key d' = None
              | Some v => ∃ items items',
                  v = JArr items ∧ dict_get key d' = Some (JArr items') ∧
                  Forall2 (Config.resolved file_mapping) items items'
              end)) ∧
  (∀ d key pre item post input,
     config = JObj d →
     key = "vertices" ∨ key = "edges" ∧ Config.items (dict_get "vertices" d) = true →
     dict_get key d = Some (JArr (pre ++ JObj item :: post)%list) →
     forallb Config.item pre = true →
     dict_get "input" item = Some input → is_dict input = false →
     update_file_paths_in_config config file_mapping = Raise AttributeError).
Proof.
  split; [apply resolve_items_resolved|].
  intros d key pre item post input -> Hkey Hget Hpre Hinput Hdict.
  by eapply resolve_input_not_object.
Qed.

Lemma resolve_rewrites_file_inputs_witness :
  let config :=
    JObj [("vertices",
           JArr [JObj [("label", JStr "person");
                       ("input", JObj [("type", JStr "file");
                                       ("path", JStr "/any/dir/people.csv");
                                       ("format", JStr "CSV")])];
                 JObj [("label", JStr "software");
                       ("input", JObj [("type", JStr "jdbc")])]]);
          ("version", JStr "2.0")] in
  let file_mapping : gmap string string := {["people.csv" := "/tmp/jobX/people.csv"]} in
  Config.well_formed config = true ∧
  ∃ d d', config = JObj d ∧
          update_file_paths_in_config config file_mapping = Ok (JObj d') ∧
          map fst d' = map fst d ∧
          (∀ key, key ≠ "vertices" → key ≠ "edges" → dict_get key d' = dict_get key d) ∧
          (∀ key, key = "vertices" ∨ key = "edges" →
             match dict_get key d with
             | None => dict_get key d' = None
             | Some v => ∃ items items',
                 v = JArr items ∧ dict_get key d' = Some (JArr items') ∧
                 Forall2 (Config.resolved file_mapping) items items'
             end).
Proof.
  intros config file_mapping. split; [reflexivity|].
  apply (proj1 (resolve_rewrites_file_inputs config file_mapping)). reflexivity.
Defined.

(** C1, as stated, fails on an item whose [input] is null: the item has no
    input object, and it is not returned as it is, the call raises. *)
Lemma resolve_input_not_an_object :
  let item := [("label", JStr "person"); ("input", JNull)] in
  let config := JObj [("vertices", JArr [JObj item])] in
  dict_get "input" item = Some JNull ∧
  update_file_paths_in_config config ∅ = Raise AttributeError ∧
  ¬ ∃ updated_config, update_file_paths_in_config config ∅ = Ok updated_config.
Proof.
  intros item config. split; [reflexivity|]. split; [reflexivity|].
  intros [updated_config H]. vm_compute in H. discriminate H.
Qed.

(** C7, as the code has it. The resolver checks no shape: a call that fails
    raises the exception of an operation on a built-in value. A configuration
    with neither key is returned as it is, and a configuration is resolved
    without error when each of [vertices] and [edges] is missing, a sequence
    of mapping items, a string, or an object none of whose keys holds the
    text [input]; the configurations of the data model are among them. The
    call fails when [vertices] or [edges] is null, a boolean or a number, or
    a sequence that holds one, and it raises [AttributeError] when the first
    item that is not a mapping item is an object whose [input] is there and
    is not an object. *)
Theorem resolve_failures (d : dict) (file_mapping : gmap string string) :
  (∀ e, update_file_paths_in_config (JObj d) file_mapping = Raise e →
        of_an_operation e = true) ∧
  (dict_get "vertices" d = None → dict_get "edges" d = None →
   update_file_paths_in_config (JObj d) file_mapping = Ok (JObj d)) ∧
  (accepted (dict_get "vertices" d) = true → accepted (dict_get "edges" d) = true →
   is_ok (update_file_paths_in_config (JObj d) file_mapping) = true) ∧
  (Config.well_formed (JObj d) = true →
   accepted (dict_get "vertices" d) = true ∧ accepted (dict_get "edges" d) = true) ∧
  (∀ key v, key = "vertices" ∨ key = "edges" → dict_get key d = Some v →
            Config.atom_or_holds_atom v = true →
            is_ok (update_file_paths_in_config (JObj d) file_mapping) = false) ∧
  (∀ key pre item post input,
     key = "vertices" ∨ key = "edges" ∧ Config.items (dict_get "vertices" d) = true →
     dict_get key d = Some (JArr (pre ++ JObj item :: post)%list) →
     forallb Config.item pre = true →
     dict_get "input" item = Some input → is_dict input = false →
     update_file_paths_in_config (JObj d) file_mapping = Raise AttributeError).
Proof.
  split; [intros e; apply resolve_raises|].
  split; [|split; [apply resolve_accepted|split; [|split]]].
  - intros Hv He. unfold update_file_paths_in_config, deep_copy, update_key.
    cbn [py_contains mbind result_bind]. rewrite Hv.
    rewrite bool_decide_eq_false_2 by (by intros [? ?]).
    cbn [py_contains mbind result_bind]. rewrite He.
    by rewrite bool_decide_eq_false_2 by (by intros [? ?]).
  - cbn [Config.well_formed]. intros [Hv He]%andb_prop. unfold accepted.
    destruct (dict_get "vertices" d), (dict_get "edges" d);
      cbn [Config.items] in Hv, He; by rewrite ?Hv, ?He.
  - intros key v Hkey Hget Hatom. unfold update_file_paths_in_config, deep_copy.
    destruct Hkey as [-> | ->].
    + pose proof (update_key_atom file_mapping _ _ _ Hget Hatom) as H.
      by destruct (update_key file_mapping "vertices" (JObj d)).
    + destruct (update_key file_mapping "vertices" (JObj d)) as [r|] eqn:Hr; [|done].
      apply update_key_other_keys in Hr as (d1 & -> & Hother).
      cbn [mbind result_bind]. eapply update_key_atom; [|done].
      by rewrite Hother.
  - intros key pre item post input. apply resolve_input_not_object.
Qed.

Lemma resolve_failures_witness :
  is_ok (update_file_paths_in_config
           (JObj [("vertices", JStr "none"); ("edges", JObj [("label", JStr "knows")])])
           ∅) = true ∧
  is_ok (update_file_paths_in_config
           (JObj [("vertices", JArr []); ("edges", JArr [JObj []; JNull])]) ∅) = false ∧
  update_file_paths_in_config
    (JObj [("edges", JArr [JObj []; JObj [("input", JStr "people.csv")]])]) ∅
  = Raise AttributeError.
Proof.
  split; [|split].
  - apply (proj1 (proj2 (proj2 (resolve_failures
             [("vertices", JStr "none"); ("edges", JObj [("label", JStr "knows")])] ∅))));
      reflexivity.
  - apply (proj1 (proj2 (proj2 (proj2 (proj2 (resolve_failures
             [("vertices", JArr []); ("edges", JArr [JObj []; JNull])] ∅)))))
             "edges" (JArr [JObj []; JNull])); [by right | reflexivity | reflexivity].
  - apply (proj2 (proj2 (proj2 (proj2 (proj2 (resolve_failures
             [("edges", JArr [JObj []; JObj [("input", JStr "people.csv")]])] ∅)))))
             "edges" [JObj []] [("input", JStr "people.csv")] [] (JStr "people.csv"));
      [by right | reflexivity..].
Defined.
